(** * go-sitemap-fetcher: a shallow embedding of sitemap_fetcher.go

    The traversal engine [Walk], the retry controller [fetchSitemap], the
    robots cache [getRobots]/[allowedByRobots], the transport decoder
    [wrapReader], the streaming decoder loop [parseSitemap], the filters
    [shouldInclude] and the URL helpers are transcribed from the Go source.

    Go's standard library and the robotstxt package are not part of the
    repository: they appear as the interface [GoLib].  The network, the
    clock, the caller's context and HTTP client form the interface [Env],
    a set of state-passing operations on a world [W]. *)

From Stdlib Require Import ZArith Bool Lia.
From Stdlib Require String Ascii.
From stdpp Require Import base gmap sets list strings.
Import Stdlib.Strings.Ascii.

Local Open Scope Z_scope.

(** ** Go strings: byte sequences *)

Module GoStrings.

Definition byteIs (c : ascii) (n : N) : bool := N.eqb (N_of_ascii c) n.

(** ASCII white space: tab, newline, vertical tab, form feed, carriage
    return, space. *)
Definition isSpace1 (c : ascii) : bool :=
  let n := N_of_ascii c in (N.leb 9 n && N.leb n 13) || N.eqb n 32.

(** U+0085 and U+00A0 in UTF-8. *)
Definition isSpace2 (c1 c2 : ascii) : bool :=
  byteIs c1 194 && (byteIs c2 133 || byteIs c2 160).

(** U+1680, U+2000..U+200A, U+2028, U+2029, U+202F, U+205F, U+3000 in
    UTF-8. *)
Definition isSpace3 (c1 c2 c3 : ascii) : bool :=
  let n3 := N_of_ascii c3 in
  (byteIs c1 225 && byteIs c2 154 && byteIs c3 128)
  || (byteIs c1 226 && byteIs c2 128
      && ((N.leb 128 n3 && N.leb n3 138)
          || N.eqb n3 168 || N.eqb n3 169 || N.eqb n3 175))
  || (byteIs c1 226 && byteIs c2 129 && byteIs c3 159)
  || (byteIs c1 227 && byteIs c2 128 && byteIs c3 128).

(** strings.TrimLeftFunc(s, unicode.IsSpace) on the bytes of [s]. *)
Fixpoint trimLeft (l : list ascii) : list ascii :=
  match l with
  | [] => []
  | c1 :: r1 =>
      if isSpace1 c1 then trimLeft r1
      else match r1 with
           | [] => l
           | c2 :: r2 =>
               if isSpace2 c1 c2 then trimLeft r2
               else match r2 with
                    | [] => l
                    | c3 :: r3 =>
                        if isSpace3 c1 c2 c3 then trimLeft r3 else l
                    end
           end
  end.

(** strings.TrimRightFunc(s, unicode.IsSpace), on the reversed bytes. *)
Fixpoint trimRightRev (l : list ascii) : list ascii :=
  match l with
  | [] => []
  | c3 :: r1 =>
      if isSpace1 c3 then trimRightRev r1
      else match r1 with
           | [] => l
           | c2 :: r2 =>
               if isSpace2 c2 c3 then trimRightRev r2
               else match r2 with
                    | [] => l
                    | c1 :: r3 =>
                        if isSpace3 c1 c2 c3 then trimRightRev r3 else l
                    end
           end
  end.

(** strings.TrimSpace *)
Definition TrimSpace (s : string) : string :=
  String.string_of_list_ascii
    (rev (trimRightRev (rev (trimLeft (String.list_ascii_of_string s))))).

Definition lowerByte (c : ascii) : ascii :=
  let n := N_of_ascii c in
  if N.leb 65 n && N.leb n 90 then ascii_of_N (n + 32) else c.

(** strings.ToLower restricted to what a suffix test against an ASCII
    literal can observe: ASCII letters are folded, other bytes kept. *)
Fixpoint ToLower (s : string) : string :=
  match s with
  | EmptyString => EmptyString
  | String c r => String (lowerByte c) (ToLower r)
  end.

(** strings.HasPrefix *)
Fixpoint HasPrefix (s p : string) : bool :=
  match p, s with
  | EmptyString, _ => true
  | String a p', String b s' => Ascii.eqb a b && HasPrefix s' p'
  | String _ _, EmptyString => false
  end.

(** strings.HasSuffix *)
Definition HasSuffix (s suffix : string) : bool :=
  let n := String.length s in
  let m := String.length suffix in
  Nat.leb m n && String.eqb (String.substring (n - m) m s) suffix.

Definition isEmpty (s : string) : bool := String.eqb s "".

(** Decimal digits of a string, most significant first. *)
Fixpoint digitsValue (acc : Z) (l : list ascii) : option Z :=
  match l with
  | [] => Some acc
  | c :: r =>
      let n := N_of_ascii c in
      if N.leb 48 n && N.leb n 57
      then digitsValue (acc * 10 + Z.of_N (n - 48)) r
      else None
  end.

Definition minInt : Z := - 2 ^ 63.
Definition maxInt : Z := 2 ^ 63 - 1.

(** Two's complement wrap-around of a 64-bit Go [int]/[int64]. *)
Definition wrap64 (x : Z) : Z := (x + 2 ^ 63) mod 2 ^ 64 - 2 ^ 63.

(** strconv.Atoi: optional sign, one or more decimal digits, and the
    value must fit a 64-bit int. *)
Definition Atoi (s : string) : option Z :=
  let body (neg : bool) (ds : list ascii) :=
    match ds with
    | [] => None
    | _ => match digitsValue 0 ds with
           | None => None
           | Some v =>
               let v := if neg then - v else v in
               if (minInt <=? v) && (v <=? maxInt) then Some v else None
           end
    end in
  match String.list_ascii_of_string s with
  | [] => None
  | c :: r =>
      if byteIs c 45 then body true r
      else if byteIs c 43 then body false r
      else body false (c :: r)
  end.

End GoStrings.
Import GoStrings.

(** ** net/url.URL and the error taxonomy (errors.go) *)

Record URL := mkURL {
  Scheme : string;
  Opaque : string;
  User : string;
  Host : string;
  Path : string;
  RawPath : string;
  RawQuery : string;
  Fragment : string;
  RawFragment : string
  }.

(** u.Fragment = "" on a copy of [u]. *)
Definition setFragment (u : URL) (f : string) : URL :=
  {| Scheme := Scheme u; Opaque := Opaque u; User := User u; Host := Host u;
     Path := Path u; RawPath := RawPath u; RawQuery := RawQuery u;
     Fragment := f; RawFragment := RawFragment u |}.

Definition setScheme (u : URL) (s : string) : URL :=
  {| Scheme := s; Opaque := Opaque u; User := User u; Host := Host u;
     Path := Path u; RawPath := RawPath u; RawQuery := RawQuery u;
     Fragment := Fragment u; RawFragment := RawFragment u |}.

(** &url.URL{Scheme: s, Host: h} *)
Definition originURL (s h : string) : URL :=
  {| Scheme := s; Opaque := ""; User := ""; Host := h; Path := "";
     RawPath := ""; RawQuery := ""; Fragment := ""; RawFragment := "" |}.

(** &url.URL{Path: p} *)
Definition pathURL (p : string) : URL :=
  {| Scheme := ""; Opaque := ""; User := ""; Host := ""; Path := p;
     RawPath := ""; RawQuery := ""; Fragment := ""; RawFragment := "" |}.

(** URL.IsAbs *)
Definition IsAbs (u : URL) : bool := negb (isEmpty (Scheme u)).

(** The typed errors of errors.go, the two context errors, errors.New
    values, and foreign errors that wrap another error (such as
    *url.Error around a context error). *)
Inductive error : Type :=
  | ErrNilYield
  | ErrInvalidURL (url : string) (err : error)
  | ErrNoSitemaps (url : URL)
  | ErrHTTPStatus (url : URL) (code : Z) (status : string)
  | ErrSitemapParse (url : URL) (err : error)
  | ErrMaxDepth (maxDepth : Z) (url : URL)
  | ErrMaxSitemaps (maxSitemaps : Z)
  | ErrMaxURLs (maxURLs : Z)
  | ErrYield (err : error)
  | ctxCanceled
  | ctxDeadlineExceeded
  | errorsNew (msg : string)
  | errWrap (msg : string) (err : error).

(** The Unwrap methods of errors.go (and of foreign wrappers). *)
Definition Unwrap (e : error) : option error :=
  match e with
  | ErrInvalidURL _ err | ErrSitemapParse _ err | ErrYield err
  | errWrap _ err => Some err
  | _ => None
  end.

(** errors.Is(err, context.Canceled) || errors.Is(err, context.DeadlineExceeded) *)
Fixpoint isContextError (e : error) : bool :=
  match e with
  | ctxCanceled | ctxDeadlineExceeded => true
  | ErrInvalidURL _ err | ErrSitemapParse _ err | ErrYield err
  | errWrap _ err => isContextError err
  | _ => false
  end.

(** errors.As(err, &maxURLs) with maxURLs of type *ErrMaxURLs *)
Fixpoint asErrMaxURLs (e : error) : bool :=
  match e with
  | ErrMaxURLs _ => true
  | ErrInvalidURL _ err | ErrSitemapParse _ err | ErrYield err
  | errWrap _ err => asErrMaxURLs err
  | _ => false
  end.

(** errors.As(err, &yieldErr) with yieldErr of type *ErrYield *)
Fixpoint asErrYield (e : error) : bool :=
  match e with
  | ErrYield _ => true
  | ErrInvalidURL _ err | ErrSitemapParse _ err
  | errWrap _ err => asErrYield err
  | _ => false
  end.

(** ** Byte streams, HTTP messages and decoded XML *)

(** What a reader delivers: the bytes, then io.EOF ([readErr = None]) or a
    read error. *)
Record Stream := mkStream {
  bytes : list Byte.byte;
  readErr : option error
  }.

Record Request := mkRequest {
  reqMethod : string;
  reqURL : string;
  reqUserAgent : string;
  (** deadline of the derived context, 0 when PerRequestTimeout is unset *)
  reqTimeout : Z
  }.

Record Response := mkResponse {
  StatusCode : Z;
  Status : string;
  Header : gmap string (list string);
  Body : Stream
  }.

(** http.Header.Get for a key in canonical form *)
Definition Header_Get (h : gmap string (list string)) (key : string) : string :=
  match h !! key with
  | Some (v :: _) => v
  | _ => ""
  end.

Module xmlURLEntry.
Record t := mk {
  Loc : string;
  LastMod : string;
  ChangeFreq : string;
  Priority : string
  }.
End xmlURLEntry.

Module xmlSitemapEntry.
Record t := mk {
  Loc : string;
  LastMod : string
  }.
End xmlSitemapEntry.

(** One turn of the loop of parseSitemap that does not fail: a start
    element named url or sitemap together with the entry DecodeElement
    fills in, or any other token. *)
Inductive xmlEvent :=
  | XURL (entry : xmlURLEntry.t)
  | XSitemap (entry : xmlSitemapEntry.t)
  | XOther.

(** A document as the decoder presents it: the turns that succeed, then
    io.EOF ([xmlErr = None]) or the error of Token or DecodeElement. *)
Record xmlDoc := mkDoc {
  xmlEvents : list xmlEvent;
  xmlErr : option error
  }.

(** ** The libraries the package imports *)

Class GoLib := {
  (** net/url *)
  url_Parse : string -> error + URL;
  url_String : URL -> string;
  url_EscapedPath : URL -> string;
  url_ResolveReference : URL -> URL -> URL;
  (** regexp *)
  Regexp : Type;
  regexp_MatchString : Regexp -> string -> bool;
  (** time, net/http.ParseTime *)
  Time : Type;
  time_Parse : string -> string -> option Time;
  http_ParseTime : string -> option Time;
  time_Sub : Time -> Time -> Z;
  (** strconv.ParseFloat(s, 64) *)
  Float64 : Type;
  strconv_ParseFloat : string -> option Float64;
  (** http.NewRequestWithContext: the error, if any, for a method and URL *)
  http_NewRequest : string -> string -> option error;
  (** compress/gzip, encoding/xml (non-strict decoder) *)
  gzip_NewReader : Stream -> error + Stream;
  xml_Decode : Stream -> xmlDoc;
  (** github.com/temoto/robotstxt *)
  RobotsData : Type;
  Group : Type;
  robotstxt_FromResponse : Response -> error + RobotsData;
  robots_FindGroup : RobotsData -> string -> option Group;
  robots_Sitemaps : RobotsData -> list string;
  group_Test : Group -> string -> bool
}.

(** ** sitemap_fetcher_iface.go and the configuration *)

Module Item.
Record t `{GoLib} := mk {
  Loc : URL;
  LastMod : option Time;
  ChangeFreq : string;
  Priority : option Float64;
  Sitemap : URL
  }.
End Item.

Record Options `{GoLib} := mkOptions {
  MaxDepth : Z;
  MaxSitemaps : Z;
  MaxURLs : Z;
  AllowNon200 : bool;
  IgnoreRobots : bool;
  UserAgent : string;
  PerRequestTimeout : Z;
  (** a nil *regexp.Regexp in the slice is [None] *)
  Include : list (option Regexp);
  Exclude : list (option Regexp)
  }.

(** The HTTP client and the logger of the Go struct are outside the
    embedding: requests go through [Env], debug logging has no effect on
    the traversal. *)
Record SitemapFetcher `{GoLib} := mkFetcher {
  opts : Options
  }.

Definition defaultUserAgent : string :=
  "Mozilla/5.0 (Macintosh; Intel Mac OS X 26_0) AppleWebKit/537.36 (KHTML, like Gecko) Chrome/133.0.0.0 Safari/537.36".
Definition defaultBufSize : Z := 64 * 1024.
Definition maxRetryAttempts : Z := 3.
Definition Second : Z := 1000000000.
Definition defaultRetryDelay : Z := 5 * Second.
Definition maxRetryDelay : Z := 30 * Second.

Definition StatusOK : Z := 200.
Definition StatusMultipleChoices : Z := 300.
Definition StatusNotFound : Z := 404.
Definition StatusTooManyRequests : Z := 429.
Definition MethodGet : string := "GET".

Definition withUserAgent `{GoLib} (o : Options) (ua : string) : Options :=
  {| MaxDepth := MaxDepth o; MaxSitemaps := MaxSitemaps o;
     MaxURLs := MaxURLs o; AllowNon200 := AllowNon200 o;
     IgnoreRobots := IgnoreRobots o; UserAgent := ua;
     PerRequestTimeout := PerRequestTimeout o;
     Include := Include o; Exclude := Exclude o |}.

Definition withMaxURLs `{GoLib} (o : Options) (n : Z) : Options :=
  {| MaxDepth := MaxDepth o; MaxSitemaps := MaxSitemaps o;
     MaxURLs := n; AllowNon200 := AllowNon200 o;
     IgnoreRobots := IgnoreRobots o; UserAgent := UserAgent o;
     PerRequestTimeout := PerRequestTimeout o;
     Include := Include o; Exclude := Exclude o |}.

(** New *)
Definition New `{GoLib} (o : Options) : SitemapFetcher :=
  {| opts := if isEmpty (UserAgent o) then withUserAgent o defaultUserAgent
             else o |}.

(** ** Internal types *)

Record sitemapTask := mkTask {
  loc : URL;
  depth : Z;
  allowMissing : bool
  }.

Record robotsRules `{GoLib} := mkRules {
  group : option Group;
  sitemaps : list URL
  }.

(** ** The world and the trace *)

(** What a traversal does to its surroundings, in order. *)
Inductive event `{GoLib} :=
  | EvRequest (req : Request)       (** client.Do(req) *)
  | EvSleep (delay : Z)             (** the timer of sleepWithContext *)
  | EvFetch (u : URL)               (** fetchSitemap entered *)
  | EvYield (item : Item.t).        (** the yield callback invoked *)

(** The items handed to yield, the URLs requested, the locations
    fetchSitemap was entered for, and the delays slept, in order. *)
Definition yielded `{GoLib} (evs : list event) : list Item.t :=
  omap (fun e => match e with EvYield it => Some it | _ => None end) evs.
Definition requested `{GoLib} (evs : list event) : list string :=
  omap (fun e => match e with EvRequest r => Some (reqURL r) | _ => None end)
       evs.
Definition fetched `{GoLib} (evs : list event) : list URL :=
  omap (fun e => match e with EvFetch u => Some u | _ => None end) evs.
Definition slept `{GoLib} (evs : list event) : list Z :=
  omap (fun e => match e with EvSleep d => Some d | _ => None end) evs.

(** The caller's context, the HTTP client and the clock, as operations on
    a world [W]. *)
Record Env `{GoLib} (W : Type) := mkEnv {
  (** ctx.Err() *)
  ctx_Err : W -> option error * W;
  (** f.client.Do(req) *)
  client_Do : Request -> W -> (error + Response) * W;
  (** select on ctx.Done() and the timer: the context error if the
      context ends first *)
  timer_Wait : Z -> W -> option error * W;
  (** time.Now() *)
  time_Now : W -> Time * W
  }.
Arguments ctx_Err {_ _} _ _.
Arguments client_Do {_ _} _ _ _.
Arguments timer_Wait {_ _} _ _ _.
Arguments time_Now {_ _} _ _.

(** Computations that change the world and append to the trace. *)
Definition M `{GoLib} (W A : Type) : Type := W -> A * W * list event.

Definition ret `{GoLib} {W A} (a : A) : M W A := fun w => (a, w, []).

Definition bind `{GoLib} {W A B} (m : M W A) (k : A -> M W B) : M W B :=
  fun w =>
    let '(a, w1, e1) := m w in
    let '(b, w2, e2) := k a w1 in
    (b, w2, e1 ++ e2).

Definition emit `{GoLib} {W} (e : event) : M W unit := fun w => (tt, w, [e]).

Definition perform `{GoLib} {W A} (op : W -> A * W) : M W A :=
  fun w => let '(a, w1) := op w in (a, w1, []).

Notation "'let*' x ':=' m 'in' k" := (bind m (fun x => k))
  (at level 10, x pattern, m at level 100, k at level 200).

Definition result `{GoLib} {W A} (r : A * W * list event) : A := fst (fst r).
Definition world `{GoLib} {W A} (r : A * W * list event) : W := snd (fst r).
Definition events `{GoLib} {W A} (r : A * W * list event) : list event := snd r.

(** ** bufio.Reader, as far as wrapReader uses it *)

Definition ioEOF : error := errorsNew "EOF".

Record bufioReader := mkBufio {
  buffered : list Byte.byte;
  source : Stream
  }.

(** bufio.NewReaderSize *)
Definition NewReaderSize (rd : Stream) (size : Z) : bufioReader :=
  {| buffered := []; source := rd |}.

(** Peek(n) for [n] within the buffer size: bytes are moved from the
    source into the buffer until [n] are there or the source has ended;
    the buffered bytes stay in the reader. *)
Definition Peek (n : nat) (r : bufioReader)
  : list Byte.byte * option error * bufioReader :=
  let need := (n - length (buffered r))%nat in
  let src := source r in
  let r' := {| buffered := buffered r ++ take need (bytes src);
               source := {| bytes := drop need (bytes src);
                            readErr := readErr src |} |} in
  if (length (buffered r') <? n)%nat
  then (buffered r',
        Some (match readErr src with Some e => e | None => ioEOF end), r')
  else (take n (buffered r'), None, r').

(** What reading the bufio.Reader to its end delivers: first the bytes
    still in the buffer, then the rest of the source. *)
Definition bufioStream (r : bufioReader) : Stream :=
  {| bytes := buffered r ++ bytes (source r);
     readErr := readErr (source r) |}.

Definition isGzipMagic (peek : list Byte.byte) (err : option error) : bool :=
  match err, peek with
  | None, [b0; b1] => Byte.eqb b0 Byte.x1f && Byte.eqb b1 Byte.x8b
  | _, _ => false
  end.

(** ** Traversal state *)

(** The local variables of Walk that the loop and the two callbacks
    share. *)
Record walkState `{GoLib} := mkState {
  queue : list sitemapTask;
  seen : gset string;
  robotsCache : gmap string robotsRules;
  sitemapCount : Z;
  urlCount : Z
  }.

Definition setQueue `{GoLib} (st : walkState) (q : list sitemapTask) :=
  {| queue := q; seen := seen st; robotsCache := robotsCache st;
     sitemapCount := sitemapCount st; urlCount := urlCount st |}.
Definition setSeen `{GoLib} (st : walkState) (s : gset string) :=
  {| queue := queue st; seen := s; robotsCache := robotsCache st;
     sitemapCount := sitemapCount st; urlCount := urlCount st |}.
Definition setRobotsCache `{GoLib} (st : walkState)
    (c : gmap string robotsRules) :=
  {| queue := queue st; seen := seen st; robotsCache := c;
     sitemapCount := sitemapCount st; urlCount := urlCount st |}.
Definition setSitemapCount `{GoLib} (st : walkState) (n : Z) :=
  {| queue := queue st; seen := seen st; robotsCache := robotsCache st;
     sitemapCount := n; urlCount := urlCount st |}.
Definition setURLCount `{GoLib} (st : walkState) (n : Z) :=
  {| queue := queue st; seen := seen st; robotsCache := robotsCache st;
     sitemapCount := sitemapCount st; urlCount := n |}.

(** How one turn of the queue loop ends. *)
Inductive loopCtl `{GoLib} :=
  | Continue (st : walkState)
  | Return (err : option error).

(** What Walk gives back; [OutOfFuel] when the queue loop was cut. *)
Inductive outcome :=
  | Returned (err : option error)
  | OutOfFuel.

(** ** Helpers that need no world *)

Section Pure.
Context `{L : GoLib}.

(** normalizeInputURL *)
Definition normalizeInputURL (website : option URL) : error + URL * URL :=
  match website with
  | None => inl (ErrInvalidURL "" (errorsNew "nil URL"))
  | Some website =>
      let input := website in
      let input :=
        if isEmpty (Scheme input) then setScheme input "https" else input in
      if isEmpty (Host input)
      then inl (ErrInvalidURL (url_String website) (errorsNew "missing host"))
      else
        let input := setFragment input "" in
        let base := originURL (Scheme input) (Host input) in
        inr (input, base)
  end.

(** isLikelySitemapURL *)
Definition isLikelySitemapURL (u : option URL) : bool :=
  match u with
  | None => false
  | Some u =>
      let path := ToLower (Path u) in
      HasSuffix path ".xml" || HasSuffix path ".xml.gz"
  end.

Definition defaultCandidates : list string :=
  [ "/sitemap.xml"; "/sitemap_index.xml"; "/sitemap-index.xml";
    "/sitemap.xml.gz"; "/sitemap_index.xml.gz"; "/sitemap-index.xml.gz" ].

(** defaultSitemaps *)
Definition defaultSitemaps (base : URL) : list URL :=
  map (fun path => url_ResolveReference base (pathURL path))
      defaultCandidates.

(** cloneURL; URL values are immutable here, so the copy is the value. *)
Definition cloneURL (u : URL) : URL := u.

(** initialSitemaps; a nil *robotsRules is [None]. *)
Definition initialSitemaps (input base : URL) (robots : option robotsRules)
  : list sitemapTask :=
  if isLikelySitemapURL (Some input)
  then [ {| loc := cloneURL input; depth := 0; allowMissing := false |} ]
  else
    let probes :=
      map (fun l => {| loc := l; depth := 0; allowMissing := true |})
          (defaultSitemaps base) in
    match robots with
    | Some r =>
        if (0 <? Z.of_nat (length (sitemaps r)))
        then map (fun l => {| loc := l; depth := 0; allowMissing := false |})
                 (sitemaps r)
        else probes
    | None => probes
    end.

Definition matchesAny (res : list (option Regexp)) (candidate : string)
  : bool :=
  existsb (fun re => match re with
                     | Some re => regexp_MatchString re candidate
                     | None => false
                     end) res.

(** shouldInclude *)
Definition shouldInclude (f : SitemapFetcher) (u : option URL) : bool :=
  match u with
  | None => false
  | Some u =>
      let candidate := url_String u in
      if (0 <? Z.of_nat (length (Include (opts f))))
         && negb (matchesAny (Include (opts f)) candidate)
      then false
      else if matchesAny (Exclude (opts f)) candidate then false
      else true
  end.

(** resolveLocation *)
Definition resolveLocation (base : URL) (loc : string) : error + URL :=
  let trimmed := TrimSpace loc in
  if isEmpty trimmed then inl (errorsNew "empty loc")
  else
    match url_Parse trimmed with
    | inl err => inl err
    | inr parsed =>
        if IsAbs parsed then inr (setFragment parsed "")
        else inr (setFragment (url_ResolveReference base parsed) "")
    end.

Definition RFC3339Nano : string := "2006-01-02T15:04:05.999999999Z07:00".
Definition RFC3339 : string := "2006-01-02T15:04:05Z07:00".
Definition RFC1123 : string := "Mon, 02 Jan 2006 15:04:05 MST".
Definition RFC1123Z : string := "Mon, 02 Jan 2006 15:04:05 -0700".

Definition layouts : list string :=
  [ RFC3339Nano; RFC3339; "2006-01-02"; "2006-01-02T15:04:05";
    RFC1123; RFC1123Z ].

(** The loop of parseTimeValue over the layouts. *)
Fixpoint firstParse (ls : list string) (value : string) : option Time :=
  match ls with
  | [] => None
  | layout :: rest =>
      match time_Parse layout value with
      | Some parsed => Some parsed
      | None => firstParse rest value
      end
  end.

(** parseTimeValue *)
Definition parseTimeValue (value : string) : option Time :=
  let trimmed := TrimSpace value in
  if isEmpty trimmed then None else firstParse layouts trimmed.

(** parsePriority *)
Definition parsePriority (value : string) : option Float64 :=
  let trimmed := TrimSpace value in
  if isEmpty trimmed then None else strconv_ParseFloat trimmed.

(** canonicalURLKey *)
Definition canonicalURLKey (u : option URL) : string :=
  match u with
  | None => ""
  | Some u => url_String (setFragment u "")
  end.

(** wrapReader; the closers of the returned reader are not modelled. *)
Definition wrapReader (resp : Response) : error + Stream :=
  let reader := NewReaderSize (Body resp) defaultBufSize in
  let '(peek, err, reader) := Peek 2 reader in
  if isGzipMagic peek err
  then match gzip_NewReader (bufioStream reader) with
       | inl err => inl err
       | inr gz => inr gz
       end
  else inr (bufioStream reader).

(** newRequest *)
Definition newRequest (f : SitemapFetcher) (method : string) (u : URL)
  : error + Request :=
  match http_NewRequest method (url_String u) with
  | Some err => inl err
  | None =>
      inr {| reqMethod := method; reqURL := url_String u;
             reqUserAgent := UserAgent (opts f);
             reqTimeout := if 0 <? PerRequestTimeout (opts f)
                           then PerRequestTimeout (opts f) else 0 |}
  end.

(** The loop of getRobots over data.Sitemaps. *)
Fixpoint robotsSitemapURLs (base : URL) (locs : list string) : list URL :=
  match locs with
  | [] => []
  | l :: rest =>
      match url_Parse (TrimSpace l) with
      | inl _ => robotsSitemapURLs base rest
      | inr parsed =>
          (if IsAbs parsed then parsed
           else url_ResolveReference base parsed)
          :: robotsSitemapURLs base rest
      end
  end.

Definition emptyRules : robotsRules := {| group := None; sitemaps := [] |}.

Definition robotsKey (base : URL) : string :=
  Scheme base +:+ "://" +:+ Host base.

End Pure.

(** ** The fetcher against a world *)

Section Fetcher.
Context `{L : GoLib} {W : Type} (E : Env W).

(** The yield callback of the caller. *)
Definition yieldFn : Type := Item.t -> W -> option error * W.

Variable f : SitemapFetcher.

(** retryAfterDelay; a nil response is [None]. *)
Definition retryAfterDelay (resp : option Response) : M W Z :=
  match resp with
  | None => ret 0
  | Some resp =>
      let value := TrimSpace (Header_Get (Header resp) "Retry-After") in
      if isEmpty value then ret 0
      else
        match Atoi value with
        | Some seconds =>
            if seconds <=? 0 then ret 0 else ret (wrap64 (seconds * Second))
        | None =>
            match http_ParseTime value with
            | Some t =>
                let* now := perform (time_Now E) in
                ret (time_Sub t now)
            | None => ret 0
            end
        end
  end.

(** sleepWithContext *)
Definition sleepWithContext (delay : Z) : M W (option error) :=
  if delay <=? 0 then ret None
  else
    let* _ := emit (EvSleep delay) in
    perform (timer_Wait E delay).

(** The delay fetchSitemap sleeps for, from what retryAfterDelay gave. *)
Definition backoffDelay (delay : Z) : Z :=
  let delay := if delay <=? 0 then defaultRetryDelay else delay in
  if delay >? maxRetryDelay then maxRetryDelay else delay.

(** The loop of fetchSitemap from [attempt] on, [remaining] being the
    number of turns left up to attempt = maxRetryAttempts.  The reader
    of a skipped location is [None]. *)
Fixpoint fetchSitemapFrom (remaining : nat) (attempt : Z) (loc : URL)
    (allowMissing : bool) : M W (error + option Stream) :=
  match remaining with
  | O =>
      ret (inl (ErrHTTPStatus loc StatusTooManyRequests "Too Many Requests"))
  | S remaining' =>
      match newRequest f MethodGet loc with
      | inl err => ret (inl err)
      | inr req =>
          let* _ := emit (EvRequest req) in
          let* r := perform (client_Do E req) in
          match r with
          | inl err => ret (inl err)
          | inr resp =>
              if StatusCode resp =? StatusTooManyRequests then
                let* delay := retryAfterDelay (Some resp) in
                if attempt =? maxRetryAttempts
                then ret (inl (ErrHTTPStatus loc (StatusCode resp)
                                             (Status resp)))
                else
                  let delay := backoffDelay delay in
                  let* serr := sleepWithContext delay in
                  match serr with
                  | Some err => ret (inl err)
                  | None =>
                      fetchSitemapFrom remaining' (attempt + 1) loc
                                       allowMissing
                  end
              else if (StatusCode resp <? StatusOK)
                      || (StatusCode resp >=? StatusMultipleChoices) then
                if AllowNon200 (opts f) then ret (inr None)
                else if allowMissing && (StatusCode resp =? StatusNotFound)
                then ret (inr None)
                else ret (inl (ErrHTTPStatus loc (StatusCode resp)
                                             (Status resp)))
              else
                match wrapReader resp with
                | inl err => ret (inl err)
                | inr reader => ret (inr (Some reader))
                end
          end
      end
  end.

(** fetchSitemap: attempts 0 .. maxRetryAttempts *)
Definition fetchSitemap (loc : URL) (allowMissing : bool)
  : M W (error + option Stream) :=
  let* _ := emit (EvFetch loc) in
  fetchSitemapFrom (Z.to_nat (maxRetryAttempts + 1)) 0 loc allowMissing.

(** getRobots; the cache is passed in and handed back. *)
Definition getRobots (base : URL) (cache : gmap string robotsRules)
  : M W ((error + robotsRules) * gmap string robotsRules) :=
  let key := robotsKey base in
  match cache !! key with
  | Some rules => ret (inr rules, cache)
  | None =>
      let robotsURL := url_ResolveReference base (pathURL "/robots.txt") in
      match newRequest f MethodGet robotsURL with
      | inl err => ret (inl err, cache)
      | inr req =>
          let* _ := emit (EvRequest req) in
          let* r := perform (client_Do E req) in
          match r with
          | inl _ => ret (inr emptyRules, <[key := emptyRules]> cache)
          | inr resp =>
              if negb (StatusCode resp =? StatusOK)
              then ret (inr emptyRules, <[key := emptyRules]> cache)
              else
                match robotstxt_FromResponse resp with
                | inl _ => ret (inr emptyRules, <[key := emptyRules]> cache)
                | inr data =>
                    let rules :=
                      {| group := robots_FindGroup data (UserAgent (opts f));
                         sitemaps :=
                           robotsSitemapURLs base (robots_Sitemaps data) |} in
                    ret (inr rules, <[key := rules]> cache)
                end
          end
      end
  end.

(** allowedByRobots: the answer, the error it returns, and the cache. *)
Definition allowedByRobots (loc : URL) (cache : gmap string robotsRules)
  : M W (bool * option error * gmap string robotsRules) :=
  let base := originURL (Scheme loc) (Host loc) in
  let* (r, cache) := getRobots base cache in
  match r with
  | inl _ => ret (true, None, cache)
  | inr rules =>
      match group rules with
      | None => ret (true, None, cache)
      | Some g =>
          let path := url_EscapedPath loc in
          let path :=
            if negb (isEmpty (RawQuery loc))
            then path +:+ "?" +:+ RawQuery loc else path in
          ret (group_Test g path, None, cache)
      end
  end.

(** parseSitemap over the decoded turns of a document; the state [S] is
    what the callbacks change. *)
Fixpoint parseEvents {S : Type} (evs : list xmlEvent) (final : option error)
    (onURL : option (xmlURLEntry.t -> S -> M W (option error * S)))
    (onSitemap : option (xmlSitemapEntry.t -> S -> M W (option error * S)))
    (s : S) : M W (option error * S) :=
  let* cerr := perform (ctx_Err E) in
  match cerr with
  | Some err => ret (Some err, s)
  | None =>
      match evs with
      | [] => ret (final, s)
      | XOther :: rest => parseEvents rest final onURL onSitemap s
      | XURL entry :: rest =>
          match onURL with
          | None => parseEvents rest final onURL onSitemap s
          | Some cb =>
              let* (err, s) := cb entry s in
              match err with
              | Some err => ret (Some err, s)
              | None => parseEvents rest final onURL onSitemap s
              end
          end
      | XSitemap entry :: rest =>
          match onSitemap with
          | None => parseEvents rest final onURL onSitemap s
          | Some cb =>
              let* (err, s) := cb entry s in
              match err with
              | Some err => ret (Some err, s)
              | None => parseEvents rest final onURL onSitemap s
              end
          end
      end
  end.

(** parseSitemap *)
Definition parseSitemap {S : Type} (reader : Stream)
    (onURL : option (xmlURLEntry.t -> S -> M W (option error * S)))
    (onSitemap : option (xmlSitemapEntry.t -> S -> M W (option error * S)))
    (s : S) : M W (option error * S) :=
  let doc := xml_Decode reader in
  parseEvents (xmlEvents doc) (xmlErr doc) onURL onSitemap s.

End Fetcher.

(** ** Walk *)

Section Walk.
Context `{L : GoLib} {W : Type} (E : Env W).
Variable f : SitemapFetcher.
Variable yield : yieldFn (W := W).

(** The robots test of Walk, guarded by IgnoreRobots. *)
Definition robotsGate (u : URL) (st : walkState)
  : M W (bool * option error * walkState) :=
  if IgnoreRobots (opts f) then ret (true, None, st)
  else
    let* (allowed, err, cache) := allowedByRobots E f u (robotsCache st) in
    ret (allowed, err, setRobotsCache st cache).

(** The first callback Walk hands to parseSitemap. *)
Definition onURL (current : sitemapTask) (entry : xmlURLEntry.t)
    (st : walkState) : M W (option error * walkState) :=
  match resolveLocation (loc current) (xmlURLEntry.Loc entry) with
  | inl _ => ret (None, st)
  | inr u =>
      let* (allowed, err, st) := robotsGate u st in
      match err with
      | Some err => ret (Some err, st)
      | None =>
          if negb allowed then ret (None, st)
          else if negb (shouldInclude f (Some u)) then ret (None, st)
          else if (MaxURLs (opts f) >? 0)
                  && (urlCount st >=? MaxURLs (opts f))
          then ret (Some (ErrMaxURLs (MaxURLs (opts f))), st)
          else
            let item :=
              {| Item.Loc := u;
                 Item.LastMod := parseTimeValue (xmlURLEntry.LastMod entry);
                 Item.ChangeFreq := TrimSpace (xmlURLEntry.ChangeFreq entry);
                 Item.Priority := parsePriority (xmlURLEntry.Priority entry);
                 Item.Sitemap := cloneURL (loc current) |} in
            let* _ := emit (EvYield item) in
            let* yerr := perform (yield item) in
            match yerr with
            | Some err => ret (Some (ErrYield err), st)
            | None => ret (None, setURLCount st (wrap64 (urlCount st + 1)))
            end
      end
  end.

(** The second callback Walk hands to parseSitemap. *)
Definition onSitemap (current : sitemapTask) (entry : xmlSitemapEntry.t)
    (st : walkState) : M W (option error * walkState) :=
  match resolveLocation (loc current) (xmlSitemapEntry.Loc entry) with
  | inl _ => ret (None, st)
  | inr u =>
      ret (None,
           setQueue st
             (queue st ++ [ {| loc := u; depth := wrap64 (depth current + 1);
                               allowMissing := false |} ]))
  end.

(** How Walk passes on an error of parseSitemap. *)
Definition classifyParseError (current : sitemapTask) (err : error) : error :=
  if isContextError err then err
  else if asErrMaxURLs err then err
  else if asErrYield err then err
  else ErrSitemapParse (loc current) err.

(** One turn of the queue loop after [current] was taken off the queue
    and the context checked. *)
Definition walkTask (current : sitemapTask) (st : walkState) : M W loopCtl :=
  if (MaxDepth (opts f) >? 0) && (depth current >? MaxDepth (opts f))
  then ret (Return (Some (ErrMaxDepth (MaxDepth (opts f)) (loc current))))
  else
    let key := canonicalURLKey (Some (loc current)) in
    if decide (key ∈ seen st) then ret (Continue st)
    else
      let st := setSeen st ({[ key ]} ∪ seen st) in
      let* (allowed, err, st) := robotsGate (loc current) st in
      match err with
      | Some err => ret (Return (Some err))
      | None =>
          if negb allowed then ret (Continue st)
          else if (MaxSitemaps (opts f) >? 0)
                  && (sitemapCount st >=? MaxSitemaps (opts f))
          then ret (Return (Some (ErrMaxSitemaps (MaxSitemaps (opts f)))))
          else
            let st := setSitemapCount st (wrap64 (sitemapCount st + 1)) in
            let* r := fetchSitemap E f (loc current) (allowMissing current) in
            match r with
            | inl err => ret (Return (Some err))
            | inr None => ret (Continue st)
            | inr (Some reader) =>
                let* (perr, st) :=
                  parseSitemap E reader (Some (onURL current))
                               (Some (onSitemap current)) st in
                match perr with
                | Some err =>
                    ret (Return (Some (classifyParseError current err)))
                | None => ret (Continue st)
                end
            end
      end.

(** The loop [for len(queue) > 0]; each turn costs one unit of fuel. *)
Fixpoint walkLoop (fuel : nat) (st : walkState) : M W outcome :=
  match queue st with
  | [] => ret (Returned None)
  | current :: rest =>
      match fuel with
      | O => ret OutOfFuel
      | S fuel' =>
          let* cerr := perform (ctx_Err E) in
          match cerr with
          | Some err => ret (Returned (Some err))
          | None =>
              let* ctl := walkTask current (setQueue st rest) in
              match ctl with
              | Return err => ret (Returned err)
              | Continue st' => walkLoop fuel' st'
              end
          end
      end
  end.

(** The state Walk enters the loop with. *)
Definition initialState (initial : list sitemapTask)
    (cache : gmap string robotsRules) : walkState :=
  {| queue := initial; seen := ∅; robotsCache := cache;
     sitemapCount := 0; urlCount := 0 |}.

(** The part of Walk before the loop: the input is normalized, robots.txt
    of the origin is read unless robots is ignored or the input looks
    like a sitemap, and the first tasks are made. *)
Definition seed (inputURL baseURL : URL)
  : M W (list sitemapTask * gmap string robotsRules) :=
  let* (baseRobots, cache) :=
    (if negb (IgnoreRobots (opts f))
        && negb (isLikelySitemapURL (Some inputURL))
     then
       let* (r, cache) := getRobots E f baseURL ∅ in
       ret (match r with inl _ => None | inr rules => Some rules end, cache)
     else ret (None, ∅)) in
  ret (initialSitemaps inputURL baseURL baseRobots, cache).

End Walk.

(** Walk; a nil yield is [None].  A nil context stands for
    context.Background(), an [Env] whose [ctx_Err] never answers. *)
Definition Walk `{L : GoLib} {W : Type} (E : Env W) (f : SitemapFetcher)
    (fuel : nat) (website : option URL) (yield : option (yieldFn (W := W)))
  : M W outcome :=
  match yield with
  | None => ret (Returned (Some ErrNilYield))
  | Some yield =>
      match normalizeInputURL website with
      | inl err => ret (Returned (Some err))
      | inr (inputURL, baseURL) =>
          let* (initial, cache) := seed E f inputURL baseURL in
          if (Z.of_nat (length initial) =? 0)
          then ret (Returned (Some (ErrNoSitemaps baseURL)))
          else walkLoop E f yield fuel (initialState initial cache)
      end
  end.

(** ** A test bed in the manner of sitemap_fetcher_test.go

    An instance of [GoLib] that agrees with the Go libraries on the plain
    URLs, documents and robots files of the package's tests (no escaping,
    no dot segments, literal patterns only), and an [Env] made from an
    HTTP handler, like the httptest servers of the tests.  The executable
    examples and the witnesses run on it. *)

Module Testbed.

(** The part of [s] before the first [c], and the part after it, if [c]
    occurs. *)
Fixpoint cut (c : ascii) (s : string) : string * option string :=
  match s with
  | EmptyString => (EmptyString, None)
  | String a r =>
      if Ascii.eqb a c then (EmptyString, Some r)
      else let '(before, after) := cut c r in (String a before, after)
  end.

(** strings.Contains *)
Fixpoint Contains (s sub : string) : bool :=
  HasPrefix s sub
  || match s with
     | EmptyString => false
     | String _ r => Contains r sub
     end.

Fixpoint hasCTLByte (s : string) : bool :=
  match s with
  | EmptyString => false
  | String a r =>
      let n := N_of_ascii a in
      N.ltb n 32 || N.eqb n 127 || hasCTLByte r
  end.

Fixpoint allLetters (s : string) : bool :=
  match s with
  | EmptyString => true
  | String a r =>
      let n := N_of_ascii (lowerByte a) in
      N.leb 97 n && N.leb n 122 && allLetters r
  end.

(** The scheme of [s] and what follows "scheme://", when [s] has that
    form. *)
Definition cutScheme (s : string) : option (string * string) :=
  match cut ":" s with
  | (scheme, Some (String "/" (String "/" rest))) =>
      if negb (isEmpty scheme) && allLetters scheme
      then Some (scheme, rest) else None
  | _ => None
  end.

Definition parseURL (s : string) : error + URL :=
  if hasCTLByte s
  then inl (errorsNew "net/url: invalid control character in URL")
  else
    let '(s1, frag) := cut "#" s in
    let '(s2, query) := cut "?" s1 in
    let frag := default "" frag in
    let query := default "" query in
    match cutScheme s2 with
    | Some (scheme, rest) =>
        let '(host, path) := cut "/" rest in
        inr {| Scheme := ToLower scheme; Opaque := ""; User := "";
               Host := host;
               Path := match path with
                       | Some p => String "/" p
                       | None => ""
                       end;
               RawPath := ""; RawQuery := query; Fragment := frag;
               RawFragment := "" |}
    | None =>
        inr {| Scheme := ""; Opaque := ""; User := ""; Host := "";
               Path := s2; RawPath := ""; RawQuery := query;
               Fragment := frag; RawFragment := "" |}
    end.

Definition stringURL (u : URL) : string :=
  (if isEmpty (Scheme u) then "" else Scheme u +:+ ":")
  +:+ (if isEmpty (Host u) then "" else "//" +:+ Host u)
  +:+ Path u
  +:+ (if isEmpty (RawQuery u) then "" else "?" +:+ RawQuery u)
  +:+ (if isEmpty (Fragment u) then "" else "#" +:+ Fragment u).

(** The part of a path up to and with its last slash. *)
Fixpoint dirOf (p : string) : string :=
  match p with
  | EmptyString => EmptyString
  | String a r =>
      if Contains r "/" || Ascii.eqb a "/" then String a (dirOf r)
      else EmptyString
  end.

Definition withPath (base : URL) (p q fr : string) : URL :=
  {| Scheme := Scheme base; Opaque := ""; User := User base;
     Host := Host base; Path := p; RawPath := ""; RawQuery := q;
     Fragment := fr; RawFragment := "" |}.

Definition resolveReference (base ref : URL) : URL :=
  if IsAbs ref then ref
  else if negb (isEmpty (Host ref)) then setScheme ref (Scheme base)
  else if isEmpty (Path ref)
  then withPath base (Path base)
         (if isEmpty (RawQuery ref) then RawQuery base else RawQuery ref)
         (Fragment ref)
  else if HasPrefix (Path ref) "/"
  then withPath base (Path ref) (RawQuery ref) (Fragment ref)
  else
    let dir := dirOf (Path base) in
    withPath base ((if isEmpty dir then "/" else dir) +:+ Path ref)
             (RawQuery ref) (Fragment ref).

(** A bare date yyyy-mm-dd as the number yyyymmdd; the other layouts are
    not recognised. *)
Definition parseTime (layout value : string) : option Z :=
  if String.eqb layout "2006-01-02" then
    match String.list_ascii_of_string value with
    | [y1; y2; y3; y4; d1; m1; m2; d2; a1; a2] =>
        if byteIs d1 45 && byteIs d2 45
        then digitsValue 0 [y1; y2; y3; y4; m1; m2; a1; a2]
        else None
    | _ => None
    end
  else None.

(** A decimal numeral d.ddd as (digits, number of decimals). *)
Definition parseFloat (s : string) : option (Z * nat) :=
  let '(int, frac) := cut "." s in
  let frac := default "" frac in
  if isEmpty int && isEmpty frac then None
  else
    match digitsValue 0 (String.list_ascii_of_string (int +:+ frac)) with
    | Some v => Some (v, String.length frac)
    | None => None
    end.

(** time.Time.Sub saturates at the bounds of Duration. *)
Definition subTime (t u : Z) : Z := Z.max minInt (Z.min maxInt (t - u)).

(** *** A small XML reader *)

Inductive token :=
  | TStart (name : string)
  | TEnd (name : string)
  | TText (s : string)
  | TMisc.

Definition revString (l : list ascii) : string :=
  String.string_of_list_ascii (rev l).

(** The token for the text between angle brackets. *)
Definition tagToken (body : string) : token :=
  match body with
  | String "/" name => TEnd name
  | String "?" _ | String "!" _ => TMisc
  | _ => TStart (fst (cut " " body))
  end.

(** Splits a document at its angle brackets; [acc] holds the current
    piece reversed, [inTag] tells whether it lies inside brackets. *)
Fixpoint tokenize (inTag : bool) (acc : list ascii) (l : list ascii)
  : list token :=
  match l with
  | [] => match acc with
          | [] => []
          | _ => if inTag then [TMisc] else [TText (revString acc)]
          end
  | c :: r =>
      if negb inTag && Ascii.eqb c "<" then
        match acc with
        | [] => tokenize true [] r
        | _ => TText (revString acc) :: tokenize true [] r
        end
      else if inTag && Ascii.eqb c ">" then
        tagToken (revString acc) :: tokenize false [] r
      else tokenize inTag (c :: acc) r
  end.

Inductive mode :=
  | Top
  | InURL (e : xmlURLEntry.t) (field : string)
  | InSitemap (e : xmlSitemapEntry.t) (field : string).

Definition setURLField (e : xmlURLEntry.t) (field s : string)
  : xmlURLEntry.t :=
  if String.eqb field "loc"
  then xmlURLEntry.mk (xmlURLEntry.Loc e +:+ s) (xmlURLEntry.LastMod e)
         (xmlURLEntry.ChangeFreq e) (xmlURLEntry.Priority e)
  else if String.eqb field "lastmod"
  then xmlURLEntry.mk (xmlURLEntry.Loc e) (xmlURLEntry.LastMod e +:+ s)
         (xmlURLEntry.ChangeFreq e) (xmlURLEntry.Priority e)
  else if String.eqb field "changefreq"
  then xmlURLEntry.mk (xmlURLEntry.Loc e) (xmlURLEntry.LastMod e)
         (xmlURLEntry.ChangeFreq e +:+ s) (xmlURLEntry.Priority e)
  else if String.eqb field "priority"
  then xmlURLEntry.mk (xmlURLEntry.Loc e) (xmlURLEntry.LastMod e)
         (xmlURLEntry.ChangeFreq e) (xmlURLEntry.Priority e +:+ s)
  else e.

Definition setSitemapField (e : xmlSitemapEntry.t) (field s : string)
  : xmlSitemapEntry.t :=
  if String.eqb field "loc"
  then xmlSitemapEntry.mk (xmlSitemapEntry.Loc e +:+ s)
         (xmlSitemapEntry.LastMod e)
  else if String.eqb field "lastmod"
  then xmlSitemapEntry.mk (xmlSitemapEntry.Loc e)
         (xmlSitemapEntry.LastMod e +:+ s)
  else e.

Definition unexpectedEOF : error :=
  errorsNew "XML syntax error: unexpected EOF".

(** The turns of parseSitemap for a token sequence: a url or sitemap
    element is one turn, ended by its closing tag; every other token
    outside such an element is one turn. *)
Fixpoint turns (m : mode) (ts : list token) : list xmlEvent * option error :=
  match ts with
  | [] => ([], match m with Top => None | _ => Some unexpectedEOF end)
  | t :: rest =>
      match m, t with
      | Top, TStart name =>
          if String.eqb name "url"
          then turns (InURL (xmlURLEntry.mk "" "" "" "") "") rest
          else if String.eqb name "sitemap"
          then turns (InSitemap (xmlSitemapEntry.mk "" "") "") rest
          else let '(evs, err) := turns Top rest in (XOther :: evs, err)
      | Top, _ => let '(evs, err) := turns Top rest in (XOther :: evs, err)
      | InURL e _, TStart name => turns (InURL e name) rest
      | InURL e field, TText s => turns (InURL (setURLField e field s) field) rest
      | InURL e _, TEnd name =>
          if String.eqb name "url"
          then let '(evs, err) := turns Top rest in (XURL e :: evs, err)
          else turns (InURL e "") rest
      | InURL e field, TMisc => turns (InURL e field) rest
      | InSitemap e _, TStart name => turns (InSitemap e name) rest
      | InSitemap e field, TText s =>
          turns (InSitemap (setSitemapField e field s) field) rest
      | InSitemap e _, TEnd name =>
          if String.eqb name "sitemap"
          then let '(evs, err) := turns Top rest in (XSitemap e :: evs, err)
          else turns (InSitemap e "") rest
      | InSitemap e field, TMisc => turns (InSitemap e field) rest
      end
  end.

Definition textOf (bs : list Byte.byte) : string :=
  String.string_of_list_byte bs.

Definition decodeXML (rd : Stream) : xmlDoc :=
  let '(evs, err) :=
    turns Top (tokenize false [] (String.list_ascii_of_string
                                    (textOf (bytes rd)))) in
  {| xmlEvents := evs;
     xmlErr := match err, readErr rd with
               | Some e, _ => Some e
               | None, r => r
               end |}.

(** *** gzip with one stored block

    Ten header bytes (magic 1f 8b, method 08, no flags), one final stored
    deflate block (01, length and its complement, little endian), the
    payload, then CRC-32 and length of the payload, little endian. *)

Definition byteOfZ (z : Z) : Byte.byte :=
  default Byte.x00 (Byte.of_N (Z.to_N (z mod 256))).

Definition zOfByte (b : Byte.byte) : Z := Z.of_N (Byte.to_N b).

Definition le16 (z : Z) : list Byte.byte :=
  [byteOfZ z; byteOfZ (Z.shiftr z 8)].

Definition le32 (z : Z) : list Byte.byte :=
  [byteOfZ z; byteOfZ (Z.shiftr z 8); byteOfZ (Z.shiftr z 16);
   byteOfZ (Z.shiftr z 24)].

Definition crcBit (c : Z) : Z :=
  if Z.testbit c 0 then Z.lxor (Z.shiftr c 1) 3988292384
  else Z.shiftr c 1.

Definition crcByte (c : Z) (b : Byte.byte) : Z :=
  Nat.iter 8 crcBit (Z.lxor c (zOfByte b)).

(** hash/crc32.ChecksumIEEE *)
Definition crc32 (bs : list Byte.byte) : Z :=
  Z.lxor (fold_left crcByte bs 4294967295) 4294967295.

(** A gzip file holding [payload] (shorter than 65536 bytes) in one
    stored block. *)
Definition gzipStored (payload : list Byte.byte) : list Byte.byte :=
  let n := Z.of_nat (length payload) in
  [Byte.x1f; Byte.x8b; Byte.x08; Byte.x00; Byte.x00; Byte.x00; Byte.x00;
   Byte.x00; Byte.x00; Byte.xff]
  ++ [Byte.x01] ++ le16 n ++ le16 (65535 - n)
  ++ payload ++ le32 (crc32 payload) ++ le32 n.

Definition bytesEqb (a b : list Byte.byte) : bool :=
  bool_decide (map Byte.to_N a = map Byte.to_N b).

Definition gunzipStored (rd : Stream) : error + Stream :=
  match bytes rd with
  | m0 :: m1 :: cm :: flg :: _ :: _ :: _ :: _ :: _ :: _
    :: bfinal :: l0 :: l1 :: _ :: _ :: rest =>
      if Byte.eqb m0 Byte.x1f && Byte.eqb m1 Byte.x8b
         && Byte.eqb cm Byte.x08 && Byte.eqb flg Byte.x00
         && Byte.eqb bfinal Byte.x01
      then
        let n := Z.to_nat (zOfByte l0 + 256 * zOfByte l1) in
        let payload := take n rest in
        let trailer := drop n rest in
        inr {| bytes := payload;
               readErr :=
                 if (length rest <? n + 8)%nat
                 then Some (errorsNew "unexpected EOF")
                 else if bytesEqb (take 8 trailer)
                           (le32 (crc32 payload) ++ le32 (Z.of_nat n))
                 then readErr rd
                 else Some (errorsNew "gzip: invalid checksum") |}
      else inl (errorsNew "gzip: invalid header")
  | _ => inl (errorsNew "gzip: invalid header")
  end.

(** *** robots.txt, one group for every agent *)

Record robotsFile := mkRobots {
  disallowed : list string;
  declared : list string
  }.

(** strings.Split(s, "\n") *)
Fixpoint lines (s : string) : list string :=
  match s with
  | EmptyString => [EmptyString]
  | String a r =>
      if Ascii.eqb a "010" then EmptyString :: lines r
      else match lines r with
           | l :: ls => String a l :: ls
           | [] => [String a EmptyString]
           end
  end.

Definition robotsLine (acc : robotsFile) (line : string) : robotsFile :=
  let '(key, value) := cut ":" line in
  let value := TrimSpace (default "" value) in
  let key := ToLower (TrimSpace key) in
  if String.eqb key "disallow" && negb (isEmpty value)
  then mkRobots (disallowed acc ++ [value]) (declared acc)
  else if String.eqb key "sitemap"
  then mkRobots (disallowed acc) (declared acc ++ [value])
  else acc.

Definition parseRobots (resp : Response) : error + robotsFile :=
  inr (fold_left robotsLine (lines (textOf (bytes (Body resp))))
                 (mkRobots [] [])).

Definition testGroup (g : list string) (path : string) : bool :=
  negb (existsb (fun prefix => HasPrefix path prefix) g).

(** *** The instance

    HTTP dates are not recognised, and every request can be built. *)

#[export] Instance lib : GoLib := {|
  url_Parse := parseURL;
  url_String := stringURL;
  url_EscapedPath := Path;
  url_ResolveReference := resolveReference;
  Regexp := string;
  regexp_MatchString := fun re s => Contains s re;
  Time := Z;
  time_Parse := parseTime;
  http_ParseTime := fun _ => None;
  time_Sub := subTime;
  Float64 := Z * nat;
  strconv_ParseFloat := parseFloat;
  http_NewRequest := fun _ _ => None;
  gzip_NewReader := gunzipStored;
  xml_Decode := decodeXML;
  RobotsData := robotsFile;
  Group := list string;
  robotstxt_FromResponse := parseRobots;
  robots_FindGroup := fun data _ => Some (disallowed data);
  robots_Sitemaps := declared;
  group_Test := testGroup
|}.

(** *** A server and a caller

    The world is the clock in nanoseconds.  The context is never
    cancelled; a timer wait moves the clock; the handler answers by
    request URL. *)
Definition handler : Type := string -> Response.

Definition serverEnv (h : handler) : Env Z :=
  {| ctx_Err := fun w => (None, w);
     client_Do := fun req w => (inr (h (reqURL req)), w);
     timer_Wait := fun d w => (None, w + d);
     time_Now := fun w => (w, w) |}.

(** A context that is cancelled from the first timer wait on. *)
Definition cancellingEnv (h : handler) : Env Z :=
  {| ctx_Err := fun w => (None, w);
     client_Do := fun req w => (inr (h (reqURL req)), w);
     timer_Wait := fun d w => (Some ctxCanceled, w);
     time_Now := fun w => (w, w) |}.

(** A context that is cancelled from the start. *)
Definition cancelledEnv (h : handler) : Env Z :=
  {| ctx_Err := fun w => (Some ctxCanceled, w);
     client_Do := fun req w => (inr (h (reqURL req)), w);
     timer_Wait := fun d w => (Some ctxCanceled, w);
     time_Now := fun w => (w, w) |}.

(** A callback that refuses every item. *)
Definition refuse : Item.t -> Z -> option error * Z :=
  fun _ w => (Some (errorsNew "stop"), w).

(** collectItems of the tests: the callback accepts every item; the
    items are read off the trace. *)
Definition collect : yieldFn (W := Z) := fun _ w => (None, w).

Definition bodyOf (s : string) : Stream :=
  {| bytes := String.list_byte_of_string s; readErr := None |}.

Definition ok (s : string) : Response :=
  {| StatusCode := 200; Status := "200 OK"; Header := ∅; Body := bodyOf s |}.

Definition notFound : Response :=
  {| StatusCode := 404; Status := "404 Not Found"; Header := ∅;
     Body := bodyOf "" |}.

Definition tooMany (retryAfter : option string) : Response :=
  {| StatusCode := 429; Status := "429 Too Many Requests";
     Header := match retryAfter with
               | Some v => {[ "Retry-After" := [v] ]}
               | None => ∅
               end;
     Body := bodyOf "" |}.

Definition fetcher (o : Options) : SitemapFetcher := New o.

Definition noOptions : Options :=
  {| MaxDepth := 0; MaxSitemaps := 0; MaxURLs := 0; AllowNon200 := false;
     IgnoreRobots := false; UserAgent := ""; PerRequestTimeout := 0;
     Include := []; Exclude := [] |}.

(** *** Sites and callers of the examples *)

Definition parsed (s : string) : option URL :=
  match parseURL s with
  | inr u => Some u
  | inl _ => None
  end.

(** A handler that serves the listed URLs and answers 404 elsewhere. *)
Definition routes (rs : list (string * Response)) : handler :=
  fun u =>
    match find (fun r => String.eqb (fst r) u) rs with
    | Some r => snd r
    | None => notFound
    end.

Definition sitemapURL : string := "https://example.com/sitemap.xml".
Definition robotsURL : string := "https://example.com/robots.txt".

(** The document and options of TestSitemapFetcher_IncludeExclude. *)
Definition keepSkipDoc : string :=
  "<urlset><url><loc>/keep</loc></url><url><loc>/skip</loc></url></urlset>".

Definition keepSkipOptions : Options :=
  {| MaxDepth := 0; MaxSitemaps := 0; MaxURLs := 0; AllowNon200 := false;
     IgnoreRobots := false; UserAgent := ""; PerRequestTimeout := 0;
     Include := [Some "keep"]; Exclude := [Some "skip"] |}.

Definition keepURL : URL :=
  {| Scheme := "https"; Opaque := ""; User := ""; Host := "example.com";
     Path := "/keep"; RawPath := ""; RawQuery := ""; Fragment := "";
     RawFragment := "" |}.

(** A sitemap index at the input URL whose only child lies in /a/ and
    lists a relative location. *)
Definition indexURL : string := "https://example.com/index.xml".
Definition nestedURL : string := "https://example.com/a/sitemap.xml".
Definition indexDoc : string :=
  "<sitemapindex><sitemap><loc> /a/sitemap.xml </loc></sitemap></sitemapindex>".
Definition nestedDoc : string :=
  "<urlset><url><loc>page</loc></url><url><loc>  </loc></url><url><loc>https://other.example/x#top</loc></url></urlset>".

Definition urlAt (host path : string) : URL :=
  {| Scheme := "https"; Opaque := ""; User := ""; Host := host;
     Path := path; RawPath := ""; RawQuery := ""; Fragment := "";
     RawFragment := "" |}.

Definition site : URL := originURL "https" "example.com".

Definition robotsRequest : Request :=
  {| reqMethod := "GET"; reqURL := robotsURL;
     reqUserAgent := defaultUserAgent; reqTimeout := 0 |}.

(** The document of TestSitemapFetcher_Walk_Gzip, plain and as a gzip
    file; the plain response claims to be gzip and the gzip response
    claims to be text. *)
Definition gzipDoc : string :=
  "<urlset><url><loc>/gzip-page</loc></url></urlset>".

Definition gzipURL : string := "https://example.com/sitemap.xml.gz".

Definition plainResponse : Response :=
  {| StatusCode := 200; Status := "200 OK";
   Header := {[ "Content-Type" := ["application/gzip"] ]};
   Body := bodyOf gzipDoc |}.

Definition gzipResponse : Response :=
  {| StatusCode := 200; Status := "200 OK";
   Header := {[ "Content-Type" := ["text/plain"] ]};
   Body := {| bytes := gzipStored (String.list_byte_of_string gzipDoc);
              readErr := None |} |}.

(** A server that answers 429 with Retry-After: 1 to every request. *)
Definition busy : handler := fun _ => tooMany (Some "1").

(** A server that answers 429 to every request and asks for 7 s while the
    clock is at 0, for 2 s once it has moved. *)
Definition pacingEnv : Env Z :=
  {| ctx_Err := fun w => (None, w);
     client_Do := fun req w =>
       (inr (tooMany (Some (if w =? 0 then "7" else "2"))), w);
     timer_Wait := fun d w => (None, w + d);
     time_Now := fun w => (w, w) |}.

Definition sitemapRequest : Request :=
  {| reqMethod := "GET"; reqURL := sitemapURL;
   reqUserAgent := defaultUserAgent; reqTimeout := 0 |}.

(** All the fields of an item. *)
Definition itemView (it : Item.t)
  : URL * option Z * string * option (Z * nat) * URL :=
  (Item.Loc it, Item.LastMod it, Item.ChangeFreq it, Item.Priority it,
 Item.Sitemap it).

(** The site of TestSitemapFetcher_RespectRobots_Default, asked for its
    sitemap URL itself. *)
Definition disallowRobots : string :=
  "User-agent: *
Disallow: /sitemap.xml
".

Definition blockedDoc : string :=
  "<urlset><url><loc>/blocked</loc></url></urlset>".

Definition blockedSite : handler :=
  routes [(robotsURL, ok disallowRobots); (sitemapURL, ok blockedDoc)].

Definition blockedRun : outcome * Z * list event :=
  Walk (serverEnv blockedSite) (fetcher noOptions) 4 (parsed sitemapURL)
     (Some collect) 0.

(** The document and the limit of TestSitemapFetcher_MaxURLs. *)
Definition twoDoc : string :=
  "<urlset><url><loc>/one</loc></url><url><loc>/two</loc></url></urlset>".

Definition twoSite : handler := routes [(sitemapURL, ok twoDoc)].

Definition oneURL : SitemapFetcher := fetcher (withMaxURLs noOptions 1).

(** At most one sitemap may be fetched. *)
Definition oneSitemap : Options :=
  {| MaxDepth := 0; MaxSitemaps := 1; MaxURLs := 0; AllowNon200 := false;
     IgnoreRobots := false; UserAgent := ""; PerRequestTimeout := 0;
     Include := []; Exclude := [] |}.

(** Sitemap indexes may be followed one level down. *)
Definition oneLevel : Options :=
  {| MaxDepth := 1; MaxSitemaps := 0; MaxURLs := 0; AllowNon200 := false;
     IgnoreRobots := false; UserAgent := ""; PerRequestTimeout := 0;
     Include := []; Exclude := [] |}.

(** A traversal whose robots cache holds, for the site, a group that
    refuses everything under /blocked. *)
Definition blockedGroup : Group := ["/blocked"].

Definition refusal : robotsRules :=
  {| group := Some blockedGroup; sitemaps := [] |}.

Definition refusing : walkState :=
  {| queue := []; seen := ∅;
     robotsCache := <[ robotsKey site := refusal ]> ∅;
     sitemapCount := 0; urlCount := 0 |}.

(** A robots.txt that declares a sitemap. *)
Definition declaringRobots : string :=
  "Sitemap: /custom.xml
".

Definition declaringSite : handler :=
  routes [(robotsURL, ok declaringRobots)].

(** The options of TestSitemapFetcher_IgnoreRobots. *)
Definition ignoreRobots : Options :=
  {| MaxDepth := 0; MaxSitemaps := 0; MaxURLs := 0; AllowNon200 := false;
     IgnoreRobots := true; UserAgent := ""; PerRequestTimeout := 0;
     Include := []; Exclude := [] |}.

End Testbed.

Import (hints) Testbed.

(** ** Vocabulary of the properties *)

(** The bytes begin with a white space rune. *)
Definition startsSpace (l : list ascii) : bool :=
  match l with
  | [] => false
  | c1 :: r1 =>
      isSpace1 c1
      || match r1 with
         | [] => false
         | c2 :: r2 =>
             isSpace2 c1 c2
             || match r2 with
                | [] => false
                | c3 :: _ => isSpace3 c1 c2 c3
                end
         end
  end.

(** The reversed bytes end, before reversal, with a white space rune. *)
Definition endsSpaceRev (l : list ascii) : bool :=
  match l with
  | [] => false
  | c3 :: r1 =>
      isSpace1 c3
      || match r1 with
         | [] => false
         | c2 :: r2 =>
             isSpace2 c2 c3
             || match r2 with
                | [] => false
                | c1 :: _ => isSpace3 c1 c2 c3
                end
         end
  end.

Section Vocabulary.
Context `{L : GoLib}.

(** [layout] is the first of [ls] that parses [value], and gives
    [parsed]. *)
Definition firstToParse (ls : list string) (value : string) (parsed : Time)
  : Prop :=
  exists (i : nat) (layout : string),
    ls !! i = Some layout
    /\ time_Parse layout value = Some parsed
    /\ forall (j : nat) (earlier : string),
         (j < i)%nat -> ls !! j = Some earlier ->
         time_Parse earlier value = None.

(** Requests and timer waits: what the network helpers emit. *)
Definition netEvent (e : event) : Prop :=
  match e with
  | EvRequest _ | EvSleep _ => True
  | _ => False
  end.

(** Requests only: what the robots helpers emit. *)
Definition requestEvent (e : event) : Prop :=
  match e with
  | EvRequest _ => True
  | _ => False
  end.

(** The item Walk builds for an entry of the sitemap of [current] whose
    location resolved to [u]. *)
Definition itemOf (current : sitemapTask) (entry : xmlURLEntry.t) (u : URL)
  : Item.t :=
  {| Item.Loc := u;
     Item.LastMod := parseTimeValue (xmlURLEntry.LastMod entry);
     Item.ChangeFreq := TrimSpace (xmlURLEntry.ChangeFreq entry);
     Item.Priority := parsePriority (xmlURLEntry.Priority entry);
     Item.Sitemap := loc current |}.

(** Requests and yields: what the callbacks of Walk emit. *)
Definition callbackEvent (e : event) : Prop :=
  match e with
  | EvRequest _ | EvYield _ => True
  | _ => False
  end.

(** What the callbacks leave alone: the seen set and the sitemap
    counter; the robots cache only grows. *)
Definition kept (st st' : walkState) : Prop :=
  seen st' = seen st /\ sitemapCount st' = sitemapCount st
  /\ robotsCache st ⊆ robotsCache st'.

(** The canonical keys of the locations fetchSitemap was entered for. *)
Definition fetchKeys (evs : list event) : list string :=
  map (fun u => canonicalURLKey (Some u)) (fetched evs).

(** robots.txt could not be had: the request failed, the status is not
    200, or the body does not parse. *)
Definition robotsUnavailable (r : error + Response) : bool :=
  match r with
  | inl _ => true
  | inr resp =>
      negb (StatusCode resp =? StatusOK)
      || match robotstxt_FromResponse resp with
         | inl _ => true
         | inr _ => false
         end
  end.

(** The first two bytes are the gzip magic number. *)
Definition hasGzipMagic (bs : list Byte.byte) : bool :=
  match bs with
  | b0 :: b1 :: _ => Byte.eqb b0 Byte.x1f && Byte.eqb b1 Byte.x8b
  | _ => false
  end.

(** The delay fetchSitemap sleeps for after the 429 response [resp],
    read at world [w]. *)
Definition delayAfter {W : Type} (E : Env W) (resp : Response) (w : W) : Z :=
  backoffDelay (result (retryAfterDelay E (Some resp) w)).

(** The world after the wait that follows the 429 response [resp], read
    at world [w]: retryAfterDelay has run, and then the timer for the
    delay it gave. *)
Definition afterBackoff {W : Type} (E : Env W) (resp : Response) (w : W) : W :=
  snd (timer_Wait E (delayAfter E resp w)
         (world (retryAfterDelay E (Some resp) w))).

(** How often yield was invoked. *)
Definition yieldCount (evs : list event) : Z := Z.of_nat (length (yielded evs)).

(** The location of the item is some text resolved against the sitemap
    the item names as its source. *)
Definition resolvedItem (it : Item.t) : Prop :=
  exists raw, resolveLocation (Item.Sitemap it) raw = inr (Item.Loc it).

(** Every yield among the events hands over an item of the sitemap at
    [u], resolved against [u]. *)
Definition yieldsFrom (u : URL) (e : event) : Prop :=
  match e with
  | EvYield it => Item.Sitemap it = u /\ resolvedItem it
  | _ => True
  end.

End Vocabulary.

(** What the first callback of Walk decides about an entry before it
    counts and yields it. *)
Inductive admitted :=
  | Skip
  | Fail (err : error)
  | Admit (u : URL).

Section Callback.
Context `{L : GoLib} {W : Type} (E : Env W).
Variable f : SitemapFetcher.
Variable yield : yieldFn (W := W).

(** The first half of [onURL]: resolution, the robots test and the
    filters. *)
Definition admission (current : sitemapTask) (entry : xmlURLEntry.t)
    (st : walkState) : M W (admitted * walkState) :=
  match resolveLocation (loc current) (xmlURLEntry.Loc entry) with
  | inl _ => ret (Skip, st)
  | inr u =>
      let* (allowed, err, st) := robotsGate E f u st in
      match err with
      | Some err => ret (Fail err, st)
      | None =>
          if negb allowed then ret (Skip, st)
          else if negb (shouldInclude f (Some u)) then ret (Skip, st)
          else ret (Admit u, st)
      end
  end.

(** The second half of [onURL]: the URL limit, the item, the yield and
    the counter. *)
Definition deliver (current : sitemapTask) (entry : xmlURLEntry.t)
    (a : admitted) (st : walkState) : M W (option error * walkState) :=
  match a with
  | Skip => ret (None, st)
  | Fail err => ret (Some err, st)
  | Admit u =>
      if (MaxURLs (opts f) >? 0) && (urlCount st >=? MaxURLs (opts f))
      then ret (Some (ErrMaxURLs (MaxURLs (opts f))), st)
      else
        let* _ := emit (EvYield (itemOf current entry u)) in
        let* yerr := perform (yield (itemOf current entry u)) in
        match yerr with
        | Some err => ret (Some (ErrYield err), st)
        | None => ret (None, setURLCount st (wrap64 (urlCount st + 1)))
        end
  end.

(** The first half of [walkTask], up to the reader that fetchSitemap
    gives: either the turn is already decided, or the document is about to
    be parsed in the given state. *)
Definition beforeParse (current : sitemapTask) (st : walkState)
  : M W (loopCtl + Stream * walkState) :=
  if (MaxDepth (opts f) >? 0) && (depth current >? MaxDepth (opts f))
  then ret (inl (Return (Some (ErrMaxDepth (MaxDepth (opts f)) (loc current)))))
  else
    let key := canonicalURLKey (Some (loc current)) in
    if decide (key ∈ seen st) then ret (inl (Continue st))
    else
      let st := setSeen st ({[ key ]} ∪ seen st) in
      let* (allowed, err, st) := robotsGate E f (loc current) st in
      match err with
      | Some err => ret (inl (Return (Some err)))
      | None =>
          if negb allowed then ret (inl (Continue st))
          else if (MaxSitemaps (opts f) >? 0)
                  && (sitemapCount st >=? MaxSitemaps (opts f))
          then ret (inl (Return (Some (ErrMaxSitemaps (MaxSitemaps (opts f))))))
          else
            let st := setSitemapCount st (wrap64 (sitemapCount st + 1)) in
            let* r := fetchSitemap E f (loc current) (allowMissing current) in
            match r with
            | inl err => ret (inl (Return (Some err)))
            | inr None => ret (inl (Continue st))
            | inr (Some reader) => ret (inr (reader, st))
            end
      end.

(** The second half of [walkTask]: the document is parsed and the error,
    if any, classified. *)
Definition parseTask (current : sitemapTask)
    (r : loopCtl + Stream * walkState) : M W loopCtl :=
  match r with
  | inl ctl => ret ctl
  | inr (reader, st) =>
    let* (perr, st) :=
      parseSitemap E reader (Some (onURL E f yield current))
                   (Some (onSitemap current)) st in
    match perr with
    | Some err => ret (Return (Some (classifyParseError current err)))
    | None => ret (Continue st)
    end
  end.

(** One turn of the queue loop that goes on: from a state and world to
    the next. *)
Definition turn (a b : walkState * W) : Prop :=
  exists current rest evs,
    queue (fst a) = current :: rest
    /\ fst (ctx_Err E (snd a)) = None
    /\ walkTask E f yield current (setQueue (fst a) rest)
                (snd (ctx_Err E (snd a)))
       = (Continue (fst b), snd b, evs).

End Callback.

(** The fetcher with the URL limit taken away. *)
Definition unlimited `{GoLib} (f : SitemapFetcher) : SitemapFetcher :=
  {| opts := withMaxURLs (opts f) 0 |}.

(** ** The closers of the reader wrapReader returns

    An io.Closer is its Close method, an operation on a world [C] of open
    resources. *)

Definition Closer (C : Type) : Type := C -> option error * C.

(** A context.CancelFunc; a nil function is [None]. *)
Definition runCancel {C : Type} (cancel : option (C -> C)) (c : C) : C :=
  match cancel with
  | Some k => k c
  | None => c
  end.

(** cancelCloser.Close *)
Definition cancelCloser_Close {C : Type} (cancel : option (C -> C))
  : Closer C :=
  fun c => (None, runCancel cancel c).

(** readCloser.Close; a nil close function is [None]. *)
Definition readCloser_Close {C : Type} (close : option (Closer C))
  : Closer C :=
  match close with
  | None => fun c => (None, c)
  | Some k => k
  end.

(** The loop of multiCloser.Close, entered with [firstErr]. *)
Fixpoint closeFrom {C : Type} (closers : list (Closer C))
    (firstErr : option error) (c : C) : option error * C :=
  match closers with
  | [] => (firstErr, c)
  | closer :: rest =>
      let '(err, c) := closer c in
      closeFrom rest
        (match err, firstErr with
         | Some e, None => Some e
         | _, _ => firstErr
         end) c
  end.

(** multiCloser.Close *)
Definition multiCloser_Close {C : Type} (closers : list (Closer C))
  : Closer C :=
  closeFrom closers None.

(** wrapReader, as to the Close method of the reader it returns: [gz] is
    the Close method of the gzip reader, [body] that of the response
    body, [cancel] the cancel function of the request.  A multiCloser on
    the gzip path, a readCloser otherwise, and no reader when the gzip
    header cannot be read. *)
Definition wrapReader_Close `{GoLib} {C : Type} (resp : Response)
    (gz body : Closer C) (cancel : option (C -> C)) : error + Closer C :=
  let reader := NewReaderSize (Body resp) defaultBufSize in
  let '(peek, err, reader) := Peek 2 reader in
  if isGzipMagic peek err
  then match gzip_NewReader (bufioStream reader) with
       | inl err => inl err
       | inr _ =>
           inr (multiCloser_Close [gz; body; cancelCloser_Close cancel])
       end
  else inr (readCloser_Close (Some (fun c => body (runCancel cancel c)))).

(** What each closer answers when all are closed in order from [c]. *)
Fixpoint closeErrors {C : Type} (closers : list (Closer C)) (c : C)
  : list (option error) :=
  match closers with
  | [] => []
  | closer :: rest => fst (closer c) :: closeErrors rest (snd (closer c))
  end.

(** ** Vocabulary of the traversal properties *)

Section Shapes.
Context `{L : GoLib}.

(** The requests handed to the client, in order. *)
Definition requests (evs : list event) : list Request :=
  omap (fun e => match e with EvRequest r => Some r | _ => None end) evs.

(** robots.txt of the origin with scheme [s] and host [h]. *)
Definition robotsLocation (s h : string) : URL :=
  url_ResolveReference (originURL s h) (pathURL "/robots.txt").

(** What allowedByRobots hands to the group: the escaped path, and the
    query after a question mark when there is one. *)
Definition robotsPath (u : URL) : string :=
  if negb (isEmpty (RawQuery u))
  then url_EscapedPath u +:+ "?" +:+ RawQuery u
  else url_EscapedPath u.

(** A request for robots.txt of some origin, made with robots not
    ignored. *)
Definition robotsEvent (f : SitemapFetcher) (e : event) : Prop :=
  match e with
  | EvRequest r =>
      IgnoreRobots (opts f) = false
      /\ exists s h, newRequest f MethodGet (robotsLocation s h) = inr r
  | _ => False
  end.

(** What the retry loop does for the location [u]: requests for [u] and
    waits of at most maxRetryDelay. *)
Definition retryEvent (f : SitemapFetcher) (u : URL) (e : event) : Prop :=
  match e with
  | EvRequest r => newRequest f MethodGet u = inr r
  | EvSleep d => 0 < d <= maxRetryDelay
  | _ => False
  end.

(** An event of a traversal in which fetchSitemap was entered for the
    locations [locs]. *)
Definition expected (f : SitemapFetcher) (locs : list URL) (e : event)
  : Prop :=
  match e with
  | EvRequest r =>
      (exists u, u ∈ locs /\ newRequest f MethodGet u = inr r)
      \/ robotsEvent f e
  | EvSleep d => 0 < d <= maxRetryDelay
  | EvFetch u => u ∈ locs
  | EvYield it => shouldInclude f (Some (Item.Loc it)) = true
  end.

(** A task the second callback makes while the sitemap of [current] is
    read. *)
Definition childOf (current t : sitemapTask) : Prop :=
  depth t = wrap64 (depth current + 1)
  /\ allowMissing t = false
  /\ exists raw, resolveLocation (loc current) raw = inr (loc t).

(** The queue of [st'] is that of [st] followed by children of
    [current]. *)
Definition grows (current : sitemapTask) (st st' : walkState) : Prop :=
  exists new, queue st' = queue st ++ new /\ Forall (childOf current) new.

(** The queue holds tasks of one depth followed by tasks of the next. *)
Definition layered (q : list sitemapTask) : Prop :=
  exists (d : Z) (a b : list sitemapTask),
    q = a ++ b
    /\ Forall (fun t => depth t = d) a
    /\ Forall (fun t => depth t = wrap64 (d + 1)) b.

(** The robots cache holds rules for the origin of [u] whose group
    refuses [u]. *)
Definition denies (st : walkState) (u : URL) : Prop :=
  exists rules g,
    robotsCache st !! robotsKey (originURL (Scheme u) (Host u)) = Some rules
    /\ group rules = Some g
    /\ group_Test g (robotsPath u) = false.

(** Nothing was yielded, or one item was, yield refused it with [e], and
    [err] holds of [e]. *)
Definition refusedOnce {W : Type} (yield : yieldFn (W := W))
    (evs : list event) (err : error -> Prop) : Prop :=
  yielded evs = []
  \/ exists it e w0,
       yielded evs = [it] /\ fst (yield it w0) = Some e /\ err e.

(** A task that may be missing is one of the default probes of [base],
    made for an input that does not look like a sitemap. *)
Definition probeOnly (input base : URL) (t : sitemapTask) : Prop :=
  allowMissing t = true ->
  depth t = 0 /\ loc t ∈ defaultSitemaps base
  /\ isLikelySitemapURL (Some input) = false.

(** url and sitemap elements, as against other tokens. *)
Definition isEntry (ev : xmlEvent) : bool :=
  match ev with
  | XOther => false
  | _ => true
  end.

(** Callbacks for parseSitemap that note every entry they are handed. *)
Definition noteURL {W : Type} (entry : xmlURLEntry.t) (s : list xmlEvent)
  : M W (option error * list xmlEvent) :=
  ret (None, s ++ [XURL entry]).

Definition noteSitemap {W : Type} (entry : xmlSitemapEntry.t)
    (s : list xmlEvent) : M W (option error * list xmlEvent) :=
  ret (None, s ++ [XSitemap entry]).

(** The items of a document read as the sitemap of [current]: one for
    each url element whose location resolves, in document order. *)
Definition docItems (current : sitemapTask) (evs : list xmlEvent)
  : list Item.t :=
  omap (fun ev =>
          match ev with
          | XURL entry =>
              match resolveLocation (loc current) (xmlURLEntry.Loc entry) with
              | inr u => Some (itemOf current entry u)
              | inl _ => None
              end
          | _ => None
          end) evs.

(** The tasks of a document read as the sitemap of [current]: one for
    each sitemap element whose location resolves, in document order. *)
Definition docTasks (current : sitemapTask) (evs : list xmlEvent)
  : list sitemapTask :=
  omap (fun ev =>
          match ev with
          | XSitemap entry =>
              match resolveLocation (loc current)
                                    (xmlSitemapEntry.Loc entry) with
              | inr u => Some {| loc := u; depth := wrap64 (depth current + 1);
                                 allowMissing := false |}
              | inl _ => None
              end
          | _ => None
          end) evs.

(** The location fetchSitemap was last entered for, [cur] before the
    events. *)
Fixpoint lastFetched (cur : option URL) (evs : list event) : option URL :=
  match evs with
  | [] => cur
  | EvFetch u :: rest => lastFetched (Some u) rest
  | _ :: rest => lastFetched cur rest
  end.

(** Every item is yielded while its sitemap is the one fetchSitemap was
    last entered for, [cur] before the events. *)
Fixpoint streamed (cur : option URL) (evs : list event) : Prop :=
  match evs with
  | [] => True
  | EvFetch u :: rest => streamed (Some u) rest
  | EvYield it :: rest => cur = Some (Item.Sitemap it) /\ streamed cur rest
  | _ :: rest => streamed cur rest
  end.

(** The state of a traversal that has just seen the key of [t]. *)
Definition markSeen (st : walkState) (t : sitemapTask) : walkState :=
  setSeen st ({[ canonicalURLKey (Some (loc t)) ]} ∪ seen st).

(** The document a turn for [current] reads: the tokens of the reader
    that fetchSitemap gave to the turn, none when the turn is over before
    a reader is there. *)
Definition turnDocument {W : Type} (E : Env W) (f : SitemapFetcher)
    (current : sitemapTask) (st : walkState) (w : W) : list xmlEvent :=
  match result (beforeParse E f current st w) with
  | inr (reader, _) => xmlEvents (xml_Decode reader)
  | inl _ => []
  end.

(** The task [t] was made for a sitemap element of [doc], read as the
    sitemap of [current]. *)
Definition taskOf (current : sitemapTask) (doc : list xmlEvent)
    (t : sitemapTask) : Prop :=
  depth t = wrap64 (depth current + 1)
  /\ allowMissing t = false
  /\ exists entry,
       XSitemap entry ∈ doc
       /\ resolveLocation (loc current) (xmlSitemapEntry.Loc entry)
          = inr (loc t).

(** The location [u] is listed in a sitemap read in the run with the
    trace [evs]: fetchSitemap was entered for [parent] in the run, its
    events being part of the trace, it returned a reader, and the
    document of that reader has a sitemap element whose location,
    resolved against [parent], is [u]. *)
Definition listedIn {W : Type} (E : Env W) (f : SitemapFetcher)
    (evs : list event) (u : URL) : Prop :=
  exists parent am w reader entry pre post,
    evs = pre ++ events (fetchSitemap E f parent am w) ++ post
    /\ result (fetchSitemap E f parent am w) = inr (Some reader)
    /\ XSitemap entry ∈ xmlEvents (xml_Decode reader)
    /\ resolveLocation parent (xmlSitemapEntry.Loc entry) = inr u.

End Shapes.

(** * Properties *)

(** ** strings.TrimSpace *)

Lemma trimLeft_stable (l : list ascii) :
  startsSpace l = false -> trimLeft l = l.
Proof.
  destruct l as [|c1 [|c2 [|c3 r]]]; cbn [startsSpace trimLeft];
    try reflexivity.
  - rewrite orb_false_r. now intros ->.
  - rewrite orb_false_r. intros H. apply orb_false_elim in H as [-> ->].
    reflexivity.
  - intros H. apply orb_false_elim in H as [-> H].
    apply orb_false_elim in H as [-> ->]. reflexivity.
Qed.

Lemma trimLeft_no_space (n : nat) (l : list ascii) :
  (length l <= n)%nat -> startsSpace (trimLeft l) = false.
Proof.
  revert l. induction n as [|n IH]; intros l Hn.
  - destruct l; [reflexivity|cbn in Hn; lia].
  - destruct l as [|c1 r1]; [reflexivity|]. cbn [trimLeft].
    destruct (isSpace1 c1) eqn:H1; [apply IH; cbn in Hn; lia|].
    destruct r1 as [|c2 r2]; [cbn; now rewrite H1|].
    destruct (isSpace2 c1 c2) eqn:H2; [apply IH; cbn in Hn; lia|].
    destruct r2 as [|c3 r3]; [cbn; now rewrite H1, H2|].
    destruct (isSpace3 c1 c2 c3) eqn:H3; [apply IH; cbn in Hn; lia|].
    cbn. now rewrite H1, H2, H3.
Qed.

Lemma trimRightRev_stable (l : list ascii) :
  endsSpaceRev l = false -> trimRightRev l = l.
Proof.
  destruct l as [|c3 [|c2 [|c1 r]]]; cbn [endsSpaceRev trimRightRev];
    try reflexivity.
  - rewrite orb_false_r. now intros ->.
  - rewrite orb_false_r. intros H. apply orb_false_elim in H as [-> ->].
    reflexivity.
  - intros H. apply orb_false_elim in H as [-> H].
    apply orb_false_elim in H as [-> ->]. reflexivity.
Qed.

(** trimRightRev drops a prefix of the reversed bytes and leaves no white
    space at their head. *)
Lemma trimRightRev_suffix (n : nat) (l : list ascii) :
  (length l <= n)%nat ->
  endsSpaceRev (trimRightRev l) = false
  /\ exists k, l = k ++ trimRightRev l.
Proof.
  revert l. induction n as [|n IH]; intros l Hn.
  - destruct l; [split; [reflexivity|now exists []]|cbn in Hn; lia].
  - destruct l as [|c3 r1]; [split; [reflexivity|now exists []]|].
    cbn [trimRightRev].
    destruct (isSpace1 c3) eqn:H1.
    { destruct (IH r1) as [He [k Hk]]; [cbn in Hn; lia|].
      split; [exact He|]. exists (c3 :: k). cbn. now rewrite <- Hk. }
    destruct r1 as [|c2 r2];
      [split; [cbn; now rewrite H1|now exists []]|].
    destruct (isSpace2 c2 c3) eqn:H2.
    { destruct (IH r2) as [He [k Hk]]; [cbn in Hn; lia|].
      split; [exact He|]. exists (c3 :: c2 :: k). cbn. now rewrite <- Hk. }
    destruct r2 as [|c1 r3];
      [split; [cbn; now rewrite H1, H2|now exists []]|].
    destruct (isSpace3 c1 c2 c3) eqn:H3.
    { destruct (IH r3) as [He [k Hk]]; [cbn in Hn; lia|].
      split; [exact He|]. exists (c3 :: c2 :: c1 :: k). cbn.
      now rewrite <- Hk. }
    split; [cbn; now rewrite H1, H2, H3|now exists []].
Qed.

Lemma startsSpace_prefix (p k : list ascii) :
  startsSpace (p ++ k) = false -> startsSpace p = false.
Proof.
  destruct p as [|c1 [|c2 [|c3 r]]]; cbn [startsSpace app];
    try reflexivity.
  - intros H. apply orb_false_elim in H as [-> _]. reflexivity.
  - intros H. apply orb_false_elim in H as [-> H].
    destruct k; [exact H|]. apply orb_false_elim in H as [-> _]. reflexivity.
  - now intros ->.
Qed.

(** What TrimSpace gives neither begins nor ends with white space, and
    trimming it again changes nothing. *)
Lemma TrimSpace_idempotent (s : string) :
  TrimSpace (TrimSpace s) = TrimSpace s.
Proof.
  unfold TrimSpace. rewrite String.list_ascii_of_string_of_list_ascii.
  set (m := trimLeft (String.list_ascii_of_string s)).
  assert (Hm : startsSpace m = false)
    by (apply (trimLeft_no_space (length (String.list_ascii_of_string s)));
        lia).
  destruct (trimRightRev_suffix (length (rev m)) (rev m)) as [He [k Hk]];
    [lia|].
  assert (Hpre : m = rev (trimRightRev (rev m)) ++ rev k).
  { rewrite <- rev_app_distr, <- Hk. now rewrite rev_involutive. }
  rewrite trimLeft_stable.
  - rewrite rev_involutive, (trimRightRev_stable _ He). reflexivity.
  - apply (startsSpace_prefix _ (rev k)). now rewrite <- Hpre.
Qed.

(** Tab, no-break space (C2 A0) and ideographic space (E3 80 80) are
    trimmed at both ends; zero width space (E2 80 8B) is not white
    space. *)
Example TrimSpace_runes :
  TrimSpace (String.string_of_list_ascii
               (map ascii_of_N [9; 194; 160; 97; 32; 98; 227; 128; 128; 10]%N))
    = "a b"
  /\ TrimSpace (String.string_of_list_ascii
                  (map ascii_of_N [226; 128; 139; 97; 32]%N))
     = String.string_of_list_ascii (map ascii_of_N [226; 128; 139; 97]%N).
Proof. split; reflexivity. Qed.

(** ** Seeding *)

Section Seeding.
Context `{L : GoLib}.

Lemma defaultSitemaps_length (base : URL) :
  length (defaultSitemaps base) = 6%nat.
Proof. reflexivity. Qed.

Lemma initialSitemaps_length (input base : URL) (robots : option robotsRules) :
  length (initialSitemaps input base robots) =
    if isLikelySitemapURL (Some input) then 1%nat
    else match robots with
         | Some r => match sitemaps r with
                     | [] => 6%nat
                     | _ => length (sitemaps r)
                     end
         | None => 6%nat
         end.
Proof.
  unfold initialSitemaps.
  destruct (isLikelySitemapURL (Some input)); [reflexivity|].
  destruct robots as [r|]; [|reflexivity].
  destruct (sitemaps r) as [|u us]; [reflexivity|].
  cbn [length]. rewrite Nat2Z.inj_succ.
  destruct (0 <? Z.succ (Z.of_nat (length us))) eqn:Hlt.
  - now rewrite length_map.
  - apply Z.ltb_ge in Hlt. lia.
Qed.

Lemma initialSitemaps_depth (input base : URL) (robots : option robotsRules) :
  Forall (fun t => depth t = 0) (initialSitemaps input base robots).
Proof.
  unfold initialSitemaps.
  destruct (isLikelySitemapURL (Some input)).
  - repeat constructor.
  - destruct robots as [r|];
      [destruct (0 <? Z.of_nat (length (sitemaps r)))|];
      apply Forall_forall; intros t Ht;
      apply list_elem_of_fmap in Ht as (u & -> & _); reflexivity.
Qed.

End Seeding.


(** ** Filters *)

Section Filters.
Context `{L : GoLib}.

Lemma matchesAny_true (res : list (option Regexp)) (candidate : string) :
  matchesAny res candidate = true <->
  exists re, Some re ∈ res /\ regexp_MatchString re candidate = true.
Proof.
  unfold matchesAny. rewrite existsb_exists. split.
  - intros ([re|] & Hin & Hm); [|discriminate].
    exists re. split; [now apply list_elem_of_In|exact Hm].
  - intros (re & Hin & Hm). exists (Some re).
    split; [now apply list_elem_of_In|exact Hm].
Qed.

Lemma matchesAny_false (res : list (option Regexp)) (candidate : string) :
  matchesAny res candidate = false <->
  forall re, Some re ∈ res -> regexp_MatchString re candidate = false.
Proof.
  split.
  - intros Hf re Hin.
    destruct (regexp_MatchString re candidate) eqn:Hm; [|reflexivity].
    assert (matchesAny res candidate = true) as Ht
        by (apply matchesAny_true; eauto).
    congruence.
  - intros Hall. destruct (matchesAny res candidate) eqn:Hm; [|reflexivity].
    apply matchesAny_true in Hm as (re & Hin & Hm).
    rewrite (Hall re Hin) in Hm. discriminate.
Qed.

Lemma shouldInclude_iff (f : SitemapFetcher) (u : URL) :
  shouldInclude f (Some u) = true <->
  (Include (opts f) = []
   \/ exists re, Some re ∈ Include (opts f)
                 /\ regexp_MatchString re (url_String u) = true)
  /\ (forall re, Some re ∈ Exclude (opts f) ->
                 regexp_MatchString re (url_String u) = false).
Proof.
  unfold shouldInclude.
  rewrite <- matchesAny_true, <- matchesAny_false.
  destruct (Include (opts f)) as [|i rest] eqn:Hinc.
  - change (0 <? Z.of_nat (length [])) with false. cbn.
    destruct (matchesAny (Exclude (opts f)) (url_String u));
      intuition congruence.
  - assert ((0 <? Z.of_nat (length (i :: rest))) = true) as ->
        by (apply Z.ltb_lt; cbn [length]; lia).
    destruct (matchesAny (i :: rest) (url_String u));
      destruct (matchesAny (Exclude (opts f)) (url_String u)); cbn;
      intuition congruence.
Qed.

End Filters.

(** C8. A candidate URL passes the filter exactly when it matches some
    include pattern, or no include pattern is configured, and it matches no
    exclude pattern; an exclude match vetoes an include match.  With
    include keep and exclude skip, the document with the entries /keep and
    /skip yields /keep and nothing else. *)
Theorem shouldInclude_include_then_exclude :
  (forall (L : GoLib) (f : SitemapFetcher) (u : URL),
      (shouldInclude f (Some u) = true <->
       (Include (opts f) = []
        \/ exists re, Some re ∈ Include (opts f)
                      /\ regexp_MatchString re (url_String u) = true)
       /\ (forall re, Some re ∈ Exclude (opts f) ->
                      regexp_MatchString re (url_String u) = false))
      /\ (forall re, Some re ∈ Exclude (opts f) ->
                     regexp_MatchString re (url_String u) = true ->
                     shouldInclude f (Some u) = false))
  /\ (let run :=
        Walk (Testbed.serverEnv
                (Testbed.routes
                   [(Testbed.sitemapURL, Testbed.ok Testbed.keepSkipDoc)]))
             (Testbed.fetcher Testbed.keepSkipOptions) 4
             (Testbed.parsed Testbed.sitemapURL) (Some Testbed.collect) 0 in
      result run = Returned None
      /\ map Item.Loc (yielded (events run)) = [Testbed.keepURL]).
Proof.
  split.
  - intros L f u. split; [apply shouldInclude_iff|].
    intros re Hin Hm.
    destruct (shouldInclude f (Some u)) eqn:Hs; [|reflexivity].
    apply shouldInclude_iff in Hs as [_ Hex].
    rewrite (Hex re Hin) in Hm. discriminate.
  - vm_compute. split; reflexivity.
Qed.

(** ** Field parsing *)

Lemma isEmpty_true (s : string) : isEmpty s = true <-> s = "".
Proof. apply String.eqb_eq. Qed.

Lemma isEmpty_false (s : string) : isEmpty s = false <-> s <> "".
Proof. apply String.eqb_neq. Qed.

Section FieldParsing.
Context `{L : GoLib}.

Lemma firstParse_Some (ls : list string) (value : string) (parsed : Time) :
  firstParse ls value = Some parsed <-> firstToParse ls value parsed.
Proof.
  induction ls as [|l ls IH]; cbn [firstParse].
  - split; [discriminate|]. intros (i & layout & Hi & _). discriminate.
  - destruct (time_Parse l value) as [t|] eqn:Hl.
    + split.
      * intros [= ->]. exists 0%nat, l. repeat split; [exact Hl|].
        intros j e Hj. lia.
      * intros (i & layout & Hi & Hp & Hbefore).
        destruct i as [|i].
        -- cbn in Hi. injection Hi as <-. congruence.
        -- specialize (Hbefore 0%nat l ltac:(lia) eq_refl). congruence.
    + rewrite IH. split.
      * intros (i & layout & Hi & Hp & Hbefore).
        exists (S i), layout. repeat split; [exact Hi|exact Hp|].
        intros [|j] e Hj He.
        -- cbn in He. injection He as <-. exact Hl.
        -- apply (Hbefore j e); [lia|exact He].
      * intros (i & layout & Hi & Hp & Hbefore).
        destruct i as [|i].
        -- cbn in Hi. injection Hi as <-. congruence.
        -- exists i, layout. repeat split; [exact Hi|exact Hp|].
           intros j e Hj He. apply (Hbefore (S j) e); [lia|exact He].
Qed.

Lemma firstParse_None (ls : list string) (value : string) :
  firstParse ls value = None <->
  forall layout, layout ∈ ls -> time_Parse layout value = None.
Proof.
  induction ls as [|l ls IH]; cbn [firstParse].
  - split; [|reflexivity]. intros _ layout Hin. inversion Hin.
  - destruct (time_Parse l value) as [t|] eqn:Hl.
    + split; [discriminate|]. intros Hall.
      rewrite (Hall l) in Hl; [discriminate|left].
    + rewrite IH. split.
      * intros Hall layout Hin. inversion Hin; subst; [exact Hl|auto].
      * intros Hall layout Hin. apply Hall. now right.
Qed.

End FieldParsing.

(** C9. parseTimeValue tries the six layouts in the order full-precision
    RFC 3339, second-precision RFC 3339, bare date, bare local date-time,
    RFC 1123 and RFC 1123 with numeric zone on the trimmed text; the result
    is what the first layout that parses gives, and it is unset exactly
    when the text is empty or no layout parses.  parsePriority gives
    whatever the floating-point parse of the trimmed text gives, of any
    magnitude, and is unset exactly when the text is empty or that parse
    fails.  Both are total: no input is an error. *)
Theorem parseTimeValue_parsePriority_spec `{L : GoLib} (value : string) :
  let trimmed := TrimSpace value in
  layouts = [ "2006-01-02T15:04:05.999999999Z07:00";
              "2006-01-02T15:04:05Z07:00";
              "2006-01-02";
              "2006-01-02T15:04:05";
              "Mon, 02 Jan 2006 15:04:05 MST";
              "Mon, 02 Jan 2006 15:04:05 -0700" ]
  /\ (forall parsed,
        parseTimeValue value = Some parsed <->
        trimmed <> "" /\ firstToParse layouts trimmed parsed)
  /\ (parseTimeValue value = None <->
      trimmed = ""
      \/ forall layout, layout ∈ layouts -> time_Parse layout trimmed = None)
  /\ (forall p,
        parsePriority value = Some p <->
        trimmed <> "" /\ strconv_ParseFloat trimmed = Some p)
  /\ (parsePriority value = None <->
      trimmed = "" \/ strconv_ParseFloat trimmed = None).
Proof.
  intros trimmed. split; [reflexivity|].
  unfold parseTimeValue, parsePriority. fold trimmed.
  destruct (isEmpty trimmed) eqn:He.
  - apply isEmpty_true in He.
    repeat split; try discriminate; try tauto; intros; tauto.
  - apply isEmpty_false in He. split; [|split; [|split]].
    + intros parsed. rewrite firstParse_Some. tauto.
    + rewrite firstParse_None. tauto.
    + intros p. tauto.
    + tauto.
Qed.

(** ** Computations and their traces *)

Section Traces.
Context `{L : GoLib} {W : Type}.

Lemma bind_run {A B} (m : M W A) (k : A -> M W B) (w : W) :
  bind m k w =
    (result (k (result (m w)) (world (m w))),
     world (k (result (m w)) (world (m w))),
     events (m w) ++ events (k (result (m w)) (world (m w)))).
Proof.
  unfold bind, result, world, events.
  destruct (m w) as [[a w1] e1]. cbn.
  destruct (k a w1) as [[b w2] e2]. reflexivity.
Qed.

Lemma events_bind {A B} (m : M W A) (k : A -> M W B) (w : W) :
  events (bind m k w) =
    events (m w) ++ events (k (result (m w)) (world (m w))).
Proof. now rewrite bind_run. Qed.

Lemma result_bind {A B} (m : M W A) (k : A -> M W B) (w : W) :
  result (bind m k w) = result (k (result (m w)) (world (m w))).
Proof. now rewrite bind_run. Qed.

Lemma world_bind {A B} (m : M W A) (k : A -> M W B) (w : W) :
  world (bind m k w) = world (k (result (m w)) (world (m w))).
Proof. now rewrite bind_run. Qed.

Lemma run_eta {A} (r : A * W * list event) :
  r = (result r, world r, events r).
Proof. now destruct r as [[a w] e]. Qed.

Lemma events_perform {A} (op : W -> A * W) (w : W) :
  events (perform op w) = [].
Proof. unfold perform, events. now destruct (op w). Qed.

Lemma result_perform {A} (op : W -> A * W) (w : W) :
  result (perform op w) = fst (op w).
Proof. unfold perform, result. now destruct (op w). Qed.

Lemma world_perform {A} (op : W -> A * W) (w : W) :
  world (perform op w) = snd (op w).
Proof. unfold perform, world. now destruct (op w). Qed.

Lemma perform_bind {A B} (op : W -> A * W) (k : A -> M W B) (w : W) :
  bind (perform op) k w = k (fst (op w)) (snd (op w)).
Proof.
  unfold bind, perform. destruct (op w) as [a w1]. cbn.
  now destruct (k a w1) as [[b w2] e2].
Qed.

Lemma emit_bind {B} (e : event) (k : unit -> M W B) (w : W) :
  bind (emit e) k w =
    (result (k tt w), world (k tt w), e :: events (k tt w)).
Proof.
  unfold bind, emit. now destruct (k tt w) as [[b w2] e2].
Qed.

Lemma yielded_app (a b : list event) :
  yielded (a ++ b) = yielded a ++ yielded b.
Proof. apply omap_app. Qed.

Lemma fetched_app (a b : list event) :
  fetched (a ++ b) = fetched a ++ fetched b.
Proof. apply omap_app. Qed.

Lemma requested_app (a b : list event) :
  requested (a ++ b) = requested a ++ requested b.
Proof. apply omap_app. Qed.

Lemma slept_app (a b : list event) :
  slept (a ++ b) = slept a ++ slept b.
Proof. apply omap_app. Qed.

Lemma net_no_yield (evs : list event) :
  Forall netEvent evs -> yielded evs = [].
Proof.
  induction 1 as [|e evs He _ IH]; [reflexivity|].
  destruct e; cbn in *; try contradiction; exact IH.
Qed.

Lemma net_no_fetch (evs : list event) :
  Forall netEvent evs -> fetched evs = [].
Proof.
  induction 1 as [|e evs He _ IH]; [reflexivity|].
  destruct e; cbn in *; try contradiction; exact IH.
Qed.

Lemma request_is_net (evs : list event) :
  Forall requestEvent evs -> Forall netEvent evs.
Proof.
  intros H. eapply Forall_impl; [exact H|]. intros []; cbn; tauto.
Qed.

End Traces.


(** ** The robots cache *)

Section RobotsFacts.
Context `{L : GoLib} {W : Type} (E : Env W) (f : SitemapFetcher).

Lemma getRobots_events (base : URL) (cache : gmap string robotsRules) (w : W) :
  Forall requestEvent (events (getRobots E f base cache w)).
Proof.
  unfold getRobots.
  destruct (cache !! robotsKey base); [constructor|].
  destruct (newRequest f MethodGet _) as [err|req]; [constructor|].
  rewrite emit_bind, perform_bind. cbn [events].
  constructor; [exact I|].
  destruct (fst (client_Do E req w)) as [err|resp]; [constructor|].
  destruct (negb (StatusCode resp =? StatusOK)); [constructor|].
  destruct (robotstxt_FromResponse resp); constructor.
Qed.

(** getRobots keeps every entry of the cache it is given. *)
Lemma getRobots_cache_mono (base : URL) (cache : gmap string robotsRules)
    (w : W) :
  cache ⊆ snd (result (getRobots E f base cache w)).
Proof.
  unfold getRobots.
  destruct (cache !! robotsKey base) eqn:Hc; [reflexivity|].
  destruct (newRequest f MethodGet _) as [err|req]; [reflexivity|].
  rewrite emit_bind, perform_bind. cbn [result fst].
  destruct (fst (client_Do E req w)) as [err|resp];
    [now apply insert_subseteq|].
  destruct (negb (StatusCode resp =? StatusOK)); [now apply insert_subseteq|].
  destruct (robotstxt_FromResponse resp); now apply insert_subseteq.
Qed.

Lemma allowedByRobots_events (u : URL) (cache : gmap string robotsRules)
    (w : W) :
  Forall requestEvent (events (allowedByRobots E f u cache w)).
Proof.
  unfold allowedByRobots. rewrite events_bind.
  apply Forall_app. split; [apply getRobots_events|].
  destruct (result (getRobots E f _ cache w)) as [[err|rules] cache'];
    [constructor|].
  destruct (group rules); constructor.
Qed.

Lemma allowedByRobots_no_error (u : URL) (cache : gmap string robotsRules)
    (w : W) :
  snd (fst (result (allowedByRobots E f u cache w))) = None.
Proof.
  unfold allowedByRobots. rewrite result_bind.
  destruct (result (getRobots E f _ cache w)) as [[err|rules] cache'];
    [reflexivity|].
  destruct (group rules); reflexivity.
Qed.

Lemma allowedByRobots_cache_mono (u : URL) (cache : gmap string robotsRules)
    (w : W) :
  cache ⊆ snd (result (allowedByRobots E f u cache w)).
Proof.
  unfold allowedByRobots. rewrite result_bind.
  pose proof (getRobots_cache_mono (originURL (Scheme u) (Host u)) cache w)
    as Hm.
  destruct (result (getRobots E f _ cache w)) as [[err|rules] cache'];
    [exact Hm|].
  destruct (group rules); exact Hm.
Qed.

Lemma robotsGate_events (u : URL) (st : walkState) (w : W) :
  Forall requestEvent (events (robotsGate E f u st w)).
Proof.
  unfold robotsGate. destruct (IgnoreRobots (opts f)); [constructor|].
  rewrite events_bind. apply Forall_app.
  split; [apply allowedByRobots_events|].
  destruct (result (allowedByRobots E f u _ w)) as [[a e] c]. constructor.
Qed.

Lemma robotsGate_no_error (u : URL) (st : walkState) (w : W) :
  snd (fst (result (robotsGate E f u st w))) = None.
Proof.
  unfold robotsGate. destruct (IgnoreRobots (opts f)); [reflexivity|].
  rewrite result_bind.
  pose proof (allowedByRobots_no_error u (robotsCache st) w) as Hn.
  destruct (result (allowedByRobots E f u _ w)) as [[a e] c]. exact Hn.
Qed.

(** robotsGate changes nothing in the state but the robots cache, which
    only grows. *)
Lemma robotsGate_state (u : URL) (st : walkState) (w : W) :
  let st' := snd (result (robotsGate E f u st w)) in
  queue st' = queue st /\ seen st' = seen st
  /\ sitemapCount st' = sitemapCount st /\ urlCount st' = urlCount st
  /\ robotsCache st ⊆ robotsCache st'.
Proof.
  unfold robotsGate. destruct (IgnoreRobots (opts f)); [now cbn|].
  rewrite result_bind.
  pose proof (allowedByRobots_cache_mono u (robotsCache st) w) as Hm.
  destruct (result (allowedByRobots E f u _ w)) as [[a e] c]. now cbn.
Qed.

End RobotsFacts.

(** ** The retry loop emits requests and sleeps only *)

Section FetchFacts.
Context `{L : GoLib} {W : Type} (E : Env W) (f : SitemapFetcher).

Lemma retryAfterDelay_events (resp : option Response) (w : W) :
  events (retryAfterDelay E resp w) = [].
Proof.
  unfold retryAfterDelay. destruct resp as [resp|]; [|reflexivity].
  destruct (isEmpty _); [reflexivity|].
  destruct (Atoi _) as [seconds|].
  - now destruct (seconds <=? 0).
  - destruct (http_ParseTime _); [|reflexivity].
    now rewrite perform_bind.
Qed.

Lemma sleepWithContext_events (delay : Z) (w : W) :
  events (sleepWithContext E delay w) =
    if delay <=? 0 then [] else [EvSleep delay].
Proof.
  unfold sleepWithContext. destruct (delay <=? 0); [reflexivity|].
  rewrite emit_bind. cbn [events]. now rewrite events_perform.
Qed.

Lemma fetchSitemapFrom_events (remaining : nat) (attempt : Z) (u : URL)
    (am : bool) (w : W) :
  Forall netEvent (events (fetchSitemapFrom E f remaining attempt u am w)).
Proof.
  revert attempt w.
  induction remaining as [|remaining IH]; intros attempt w;
    cbn [fetchSitemapFrom]; [constructor|].
  destruct (newRequest f MethodGet u) as [err|req]; [constructor|].
  rewrite emit_bind, perform_bind. cbn [events].
  constructor; [exact I|].
  destruct (fst (client_Do E req w)) as [err|resp]; [constructor|].
  destruct (StatusCode resp =? StatusTooManyRequests).
  - rewrite events_bind, retryAfterDelay_events. cbn [app].
    destruct (attempt =? maxRetryAttempts); [constructor|].
    rewrite events_bind, sleepWithContext_events.
    apply Forall_app. split.
    + destruct (_ <=? 0); repeat constructor.
    + destruct (result (sleepWithContext E _ _)); [constructor|apply IH].
  - destruct (_ || _).
    + destruct (AllowNon200 (opts f)); [constructor|].
      destruct (am && _); constructor.
    + destruct (wrapReader resp); constructor.
Qed.

Lemma fetchSitemap_events (u : URL) (am : bool) (w : W) :
  exists net, events (fetchSitemap E f u am w) = EvFetch u :: net
              /\ Forall netEvent net.
Proof.
  unfold fetchSitemap. rewrite emit_bind. cbn [events].
  eexists. split; [reflexivity|apply fetchSitemapFrom_events].
Qed.

End FetchFacts.

(** ** The callbacks of Walk *)

Section MonadLaws.
Context `{L : GoLib} {W : Type}.

Lemma ret_bind {A B} (a : A) (k : A -> M W B) (w : W) :
  bind (ret a) k w = k a w.
Proof. unfold bind, ret. now destruct (k a w) as [[b w2] e2]. Qed.

Lemma bind_assoc {A B C} (m : M W A) (k1 : A -> M W B) (k2 : B -> M W C)
    (w : W) :
  bind (bind m k1) k2 w = bind m (fun a => bind (k1 a) k2) w.
Proof.
  unfold bind. destruct (m w) as [[a w1] e1].
  destruct (k1 a w1) as [[b w2] e2].
  destruct (k2 b w2) as [[c w3] e3]. now rewrite app_assoc.
Qed.

Lemma bind_ext {A B} (m : M W A) (k k' : A -> M W B) (w : W) :
  (forall a w', k a w' = k' a w') -> bind m k w = bind m k' w.
Proof.
  intros Hk. unfold bind. destruct (m w) as [[a w1] e1]. now rewrite Hk.
Qed.

End MonadLaws.

Section CallbackFacts.
Context `{L : GoLib} {W : Type} (E : Env W) (f : SitemapFetcher).
Variable yield : yieldFn (W := W).

Lemma onURL_split (current : sitemapTask) (entry : xmlURLEntry.t)
    (st : walkState) (w : W) :
  onURL E f yield current entry st w =
    bind (admission E f current entry st)
         (fun r => deliver f yield current entry (fst r) (snd r)) w.
Proof.
  unfold onURL, admission.
  destruct (resolveLocation (loc current) (xmlURLEntry.Loc entry)) as [e|u].
  - now rewrite ret_bind.
  - rewrite bind_assoc. apply bind_ext. intros [[allowed err] st1] w1.
    destruct err as [err|]; [now rewrite ret_bind|].
    destruct (negb allowed); [now rewrite ret_bind|].
    destruct (negb (shouldInclude f (Some u))); now rewrite ret_bind.
Qed.

Lemma admission_events (current : sitemapTask) (entry : xmlURLEntry.t)
    (st : walkState) (w : W) :
  Forall requestEvent (events (admission E f current entry st w)).
Proof.
  unfold admission.
  destruct (resolveLocation _ _) as [e|u]; [constructor|].
  rewrite events_bind. apply Forall_app.
  split; [apply robotsGate_events|].
  destruct (result (robotsGate E f u st w)) as [[allowed err] st1].
  destruct err; [constructor|]. destruct (negb allowed); [constructor|].
  destruct (negb _); constructor.
Qed.

Lemma admission_state (current : sitemapTask) (entry : xmlURLEntry.t)
    (st : walkState) (w : W) :
  let st' := snd (result (admission E f current entry st w)) in
  queue st' = queue st /\ seen st' = seen st
  /\ sitemapCount st' = sitemapCount st /\ urlCount st' = urlCount st
  /\ robotsCache st ⊆ robotsCache st'.
Proof.
  unfold admission.
  destruct (resolveLocation _ _) as [e|u]; [now cbn|].
  rewrite result_bind.
  pose proof (robotsGate_state E f u st w) as Hs.
  destruct (result (robotsGate E f u st w)) as [[allowed err] st1].
  destruct err; [exact Hs|]. destruct (negb allowed); [exact Hs|].
  destruct (negb _); exact Hs.
Qed.

(** The robots test never makes the callback fail, and an admitted
    location is the entry's location resolved against the task's. *)
Lemma admission_result (current : sitemapTask) (entry : xmlURLEntry.t)
    (st : walkState) (w : W) :
  match fst (result (admission E f current entry st w)) with
  | Skip => True
  | Fail _ => False
  | Admit u =>
      resolveLocation (loc current) (xmlURLEntry.Loc entry) = inr u
      /\ shouldInclude f (Some u) = true
  end.
Proof.
  unfold admission.
  destruct (resolveLocation _ _) as [e|u] eqn:Hr; [exact I|].
  rewrite result_bind.
  pose proof (robotsGate_no_error E f u st w) as Hn.
  destruct (result (robotsGate E f u st w)) as [[allowed err] st1].
  cbn in Hn. subst err. destruct (negb allowed); [exact I|].
  destruct (shouldInclude f (Some u)) eqn:Hs; cbn [negb];
    [split; [reflexivity|exact Hs]|exact I].
Qed.

Lemma onSitemap_run (current : sitemapTask) (entry : xmlSitemapEntry.t)
    (st : walkState) (w : W) :
  exists q,
    onSitemap current entry st w = (None, setQueue st (queue st ++ q), w, []).
Proof.
  unfold onSitemap.
  destruct (resolveLocation _ _) as [e|u].
  - exists []. rewrite app_nil_r. now destruct st.
  - eexists. reflexivity.
Qed.

End CallbackFacts.

Section ParseFacts.
Context `{L : GoLib} {W : Type} (E : Env W) (f : SitemapFetcher).
Variable yield : yieldFn (W := W).

Lemma callback_no_fetch (evs : list event) :
  Forall callbackEvent evs -> fetched evs = [].
Proof.
  induction 1 as [|e evs He _ IH]; [reflexivity|].
  destruct e; cbn in *; try contradiction; exact IH.
Qed.

Lemma request_is_callback (evs : list event) :
  Forall requestEvent evs -> Forall callbackEvent evs.
Proof.
  intros H. eapply Forall_impl; [exact H|]. intros []; cbn; tauto.
Qed.

(** A relation on the callback state that both callbacks respect, and a
    property of the events they emit, carry over to parseSitemap. *)
Lemma parseEvents_invariant {S : Type} (R : S -> S -> Prop)
    (P : event -> Prop)
    (cbU : option (xmlURLEntry.t -> S -> M W (option error * S)))
    (cbS : option (xmlSitemapEntry.t -> S -> M W (option error * S))) :
  (forall s, R s s) ->
  (forall a b c, R a b -> R b c -> R a c) ->
  (forall cb, cbU = Some cb -> forall e s w,
      R s (snd (result (cb e s w))) /\ Forall P (events (cb e s w))) ->
  (forall cb, cbS = Some cb -> forall e s w,
      R s (snd (result (cb e s w))) /\ Forall P (events (cb e s w))) ->
  forall evs final s w,
    R s (snd (result (parseEvents E evs final cbU cbS s w)))
    /\ Forall P (events (parseEvents E evs final cbU cbS s w)).
Proof.
  intros Hrefl Htrans HU HS.
  induction evs as [|ev evs IH]; intros final s w; cbn [parseEvents];
    rewrite perform_bind;
    (destruct (fst (ctx_Err E w)) as [cerr|];
     [split; [apply Hrefl|constructor]|]).
  - split; [apply Hrefl|constructor].
  - destruct ev as [entry|entry|]; [| |apply IH].
    + destruct cbU as [cb|]; [|apply IH].
      destruct (HU cb eq_refl entry s (snd (ctx_Err E w))) as [HR HP].
      rewrite bind_run. cbn [result events fst snd].
      destruct (result (cb entry s _)) as [[err|] s1]; cbn [fst snd] in *.
      * cbn. split; [exact HR|]. now rewrite app_nil_r.
      * destruct (IH final s1 (world (cb entry s (snd (ctx_Err E w)))))
          as [HR' HP'].
        split; [eapply Htrans; eassumption|].
        apply Forall_app. split; assumption.
    + destruct cbS as [cb|]; [|apply IH].
      destruct (HS cb eq_refl entry s (snd (ctx_Err E w))) as [HR HP].
      rewrite bind_run. cbn [result events fst snd].
      destruct (result (cb entry s _)) as [[err|] s1]; cbn [fst snd] in *.
      * cbn. split; [exact HR|]. now rewrite app_nil_r.
      * destruct (IH final s1 (world (cb entry s (snd (ctx_Err E w)))))
          as [HR' HP'].
        split; [eapply Htrans; eassumption|].
        apply Forall_app. split; assumption.
Qed.

Lemma kept_refl (st : walkState) : kept st st.
Proof. unfold kept. split; [|split]; reflexivity. Qed.

Lemma kept_trans (a b c : walkState) : kept a b -> kept b c -> kept a c.
Proof.
  intros (H1 & H2 & H3) (H4 & H5 & H6).
  unfold kept. split; [|split]; [congruence|congruence|].
  etransitivity; eassumption.
Qed.

Lemma deliver_kept (current : sitemapTask) (entry : xmlURLEntry.t)
    (a : admitted) (st : walkState) (w : W) :
  kept st (snd (result (deliver f yield current entry a st w))).
Proof.
  unfold deliver. destruct a as [|err|u]; try apply kept_refl.
  destruct (_ && _); [apply kept_refl|].
  rewrite emit_bind, perform_bind. cbn [result fst].
  destruct (fst (yield _ w)); [apply kept_refl|].
  unfold kept. cbn. split; [|split]; reflexivity.
Qed.

Lemma deliver_events (current : sitemapTask) (entry : xmlURLEntry.t)
    (a : admitted) (st : walkState) (w : W) :
  events (deliver f yield current entry a st w) = []
  \/ exists u, a = Admit u
               /\ events (deliver f yield current entry a st w)
                  = [EvYield (itemOf current entry u)].
Proof.
  unfold deliver. destruct a as [|err|u]; try (now left).
  destruct (_ && _); [now left|]. right. exists u. split; [reflexivity|].
  rewrite emit_bind, perform_bind. cbn [events].
  now destruct (fst (yield _ w)).
Qed.

Lemma onURL_kept (current : sitemapTask) (entry : xmlURLEntry.t)
    (st : walkState) (w : W) :
  kept st (snd (result (onURL E f yield current entry st w))).
Proof.
  rewrite onURL_split, result_bind.
  pose proof (admission_state E f current entry st w) as (_ & Hs & Hc & _ & Hr).
  eapply kept_trans; [|apply deliver_kept].
  repeat split; assumption.
Qed.

Lemma onURL_events (current : sitemapTask) (entry : xmlURLEntry.t)
    (st : walkState) (w : W) :
  Forall callbackEvent (events (onURL E f yield current entry st w)).
Proof.
  rewrite onURL_split, events_bind. apply Forall_app. split.
  - apply request_is_callback, admission_events.
  - destruct (deliver_events current entry
                (fst (result (admission E f current entry st w)))
                (snd (result (admission E f current entry st w)))
                (world (admission E f current entry st w)))
      as [->|(u & _ & ->)]; repeat constructor.
Qed.

Lemma parseSitemap_kept (current : sitemapTask) (reader : Stream)
    (st : walkState) (w : W) :
  let r := parseSitemap E reader (Some (onURL E f yield current))
                        (Some (onSitemap current)) st w in
  kept st (snd (result r)) /\ Forall callbackEvent (events r).
Proof.
  unfold parseSitemap.
  apply parseEvents_invariant; [apply kept_refl|apply kept_trans| |].
  - intros cb [= <-] e s w'. split; [apply onURL_kept|apply onURL_events].
  - intros cb [= <-] e s w'.
    destruct (onSitemap_run current e s w') as (q & ->).
    split; [|constructor].
    unfold kept. cbn. split; [|split]; reflexivity.
Qed.

End ParseFacts.

(** ** One turn of the queue loop *)

Section TaskFacts.
Context `{L : GoLib} {W : Type} (E : Env W) (f : SitemapFetcher).
Variable yield : yieldFn (W := W).

(** A turn enters fetchSitemap at most once, and only for a location
    whose key was not in the seen set; a turn that goes on leaves the key
    in the seen set and the earlier keys and cache entries in place. *)
Lemma walkTask_fetched (current : sitemapTask) (st : walkState) (w : W) :
  let r := walkTask E f yield current st w in
  let key := canonicalURLKey (Some (loc current)) in
  (fetched (events r) = []
   \/ (fetched (events r) = [loc current] /\ key ∉ seen st))
  /\ match result r with
     | Continue st' =>
         seen st ⊆ seen st' /\ key ∈ seen st'
         /\ robotsCache st ⊆ robotsCache st'
     | Return _ => True
     end.
Proof.
  cbn zeta. unfold walkTask.
  destruct (_ && _); [split; [now left|exact I]|].
  destruct (decide (_ ∈ seen st)) as [Hin|Hnin];
    [split; [now left|cbn; split; [|split]; [reflexivity|exact Hin|reflexivity]]|].
  set (key := canonicalURLKey (Some (loc current))) in *.
  set (st1 := setSeen st ({[key]} ∪ seen st)).
  rewrite bind_run.
  pose proof (robotsGate_events E f (loc current) st1 w) as Hev.
  apply request_is_net, net_no_fetch in Hev.
  pose proof (robotsGate_state E f (loc current) st1 w) as (_ & Hseen & _ & _ & Hc).
  pose proof (robotsGate_no_error E f (loc current) st1 w) as Hne.
  set (w2 := world (robotsGate E f (loc current) st1 w)) in *.
  destruct (result (robotsGate E f (loc current) st1 w))
    as [[allowed err] st2].
  cbn [fst snd] in Hseen, Hc, Hne. subst err.
  cbn [result events fst snd]. rewrite fetched_app, Hev. cbn [app].
  assert (Hkey : seen st ⊆ seen st2 /\ key ∈ seen st2
                 /\ robotsCache st ⊆ robotsCache st2).
  { rewrite Hseen. subst st1. cbn in *.
    split; [|split]; [apply union_subseteq_r| |exact Hc].
    apply elem_of_union_l, elem_of_singleton. reflexivity. }
  destruct (negb allowed); [split; [now left|exact Hkey]|].
  destruct (_ && _); [split; [now left|exact I]|].
  rewrite bind_run.
  destruct (fetchSitemap_events E f (loc current) (allowMissing current) w2)
    as (net & Hfe & Hnet).
  cbn [result events fst snd]. rewrite Hfe.
  change (EvFetch (loc current) :: net) with ([EvFetch (loc current)] ++ net).
  rewrite !fetched_app, (net_no_fetch _ Hnet).
  change (fetched [EvFetch (loc current)]) with [loc current].
  cbn [app].
  set (st3 := setSitemapCount st2 (wrap64 (sitemapCount st2 + 1))).
  assert (Hkey3 : seen st ⊆ seen st3 /\ key ∈ seen st3
                  /\ robotsCache st ⊆ robotsCache st3) by exact Hkey.
  set (w3 := world (fetchSitemap E f (loc current) (allowMissing current) w2)).
  destruct (result (fetchSitemap E f (loc current) (allowMissing current) w2))
    as [err|[reader|]].
  - split; [now right|exact I].
  - rewrite bind_run.
    pose proof (parseSitemap_kept E f yield current reader st3 w3)
      as [(Hs & _ & Hcache) Hcb].
    apply callback_no_fetch in Hcb.
    destruct (result (parseSitemap E reader _ _ st3 w3)) as [[perr|] st4];
      cbn [result events fst snd] in *; rewrite fetched_app, Hcb;
      (split; [now right|]); [exact I|].
    destruct Hkey3 as (Ha & Hb & Hd). cbn. rewrite Hs.
    split; [|split]; [exact Ha|exact Hb|].
    etransitivity; eassumption.
  - split; [now right|exact Hkey3].
Qed.

End TaskFacts.

Section TaskSplit.
Context `{L : GoLib} {W : Type} (E : Env W) (f : SitemapFetcher).
Variable yield : yieldFn (W := W).

Lemma walkTask_split (current : sitemapTask) (st : walkState) (w : W) :
  walkTask E f yield current st w =
    bind (beforeParse E f current st) (parseTask E f yield current) w.
Proof.
  unfold walkTask, beforeParse.
  destruct (_ && _); [now rewrite ret_bind|].
  destruct (decide _); [now rewrite ret_bind|].
  rewrite bind_assoc. apply bind_ext. intros [[allowed err] st1] w1.
  destruct err as [err|]; [now rewrite ret_bind|].
  destruct (negb allowed); [now rewrite ret_bind|].
  destruct (_ && _); [now rewrite ret_bind|].
  rewrite bind_assoc. apply bind_ext. intros [err|[reader|]] w2;
    now rewrite ret_bind.
Qed.

Lemma beforeParse_events (current : sitemapTask) (st : walkState) (w : W) :
  yielded (events (beforeParse E f current st w)) = [].
Proof.
  unfold beforeParse.
  destruct (_ && _); [reflexivity|].
  destruct (decide _); [reflexivity|].
  rewrite events_bind, yielded_app.
  rewrite (net_no_yield _ (request_is_net _ (robotsGate_events E f _ _ w))).
  cbn [app].
  destruct (result (robotsGate E f _ _ w)) as [[allowed err] st1].
  destruct err as [err|]; [reflexivity|].
  destruct (negb allowed); [reflexivity|].
  destruct (_ && _); [reflexivity|].
  rewrite events_bind, yielded_app.
  destruct (fetchSitemap_events E f (loc current) (allowMissing current)
              (world (robotsGate E f (loc current)
                        (setSeen st ({[canonicalURLKey (Some (loc current))]}
                                     ∪ seen st)) w)))
    as (net & -> & Hnet).
  change (EvFetch (loc current) :: net) with ([EvFetch (loc current)] ++ net).
  rewrite yielded_app, (net_no_yield _ Hnet).
  now destruct (result (fetchSitemap E f _ _ _)) as [err|[reader|]].
Qed.

(** The first half of a turn leaves the URL counter alone. *)
Lemma beforeParse_urlCount (current : sitemapTask) (st : walkState) (w : W) :
  match result (beforeParse E f current st w) with
  | inl (Continue st') | inr (_, st') => urlCount st' = urlCount st
  | inl (Return _) => True
  end.
Proof.
  unfold beforeParse.
  destruct (_ && _); [exact I|].
  destruct (decide _); [reflexivity|].
  rewrite result_bind.
  pose proof (robotsGate_state E f (loc current)
                (setSeen st ({[canonicalURLKey (Some (loc current))]} ∪ seen st))
                w) as (_ & _ & _ & Hu & _).
  destruct (result (robotsGate E f _ _ w)) as [[allowed err] st1].
  cbn [snd] in Hu.
  destruct err as [err|]; [exact I|].
  destruct (negb allowed); [exact Hu|].
  destruct (_ && _); [exact I|].
  rewrite result_bind.
  destruct (result (fetchSitemap E f _ _ _)) as [err|[reader|]];
    [exact I|exact Hu|exact Hu].
Qed.

End TaskSplit.

(** ** The seen set *)

Section SeenFacts.
Context `{L : GoLib} {W : Type} (E : Env W) (f : SitemapFetcher).
Variable yield : yieldFn (W := W).

Lemma fetchKeys_app (a b : list event) :
  fetchKeys (a ++ b) = fetchKeys a ++ fetchKeys b.
Proof. unfold fetchKeys. now rewrite fetched_app, map_app. Qed.

Lemma walkLoop_fetch_once (fuel : nat) (st : walkState) (w : W) :
  let evs := events (walkLoop E f yield fuel st w) in
  NoDup (fetchKeys evs) /\ forall k, k ∈ fetchKeys evs -> k ∉ seen st.
Proof.
  cbn zeta. revert st w.
  induction fuel as [|fuel IH]; intros st w;
    (destruct st as [q sn rc sc uc]; destruct q as [|current rest];
     cbn [walkLoop queue]);
    try (split; [constructor|intros k Hk; inversion Hk]).
  rewrite perform_bind.
  destruct (fst (ctx_Err E w)) as [cerr|];
    [split; [constructor|intros k Hk; inversion Hk]|].
  rewrite events_bind.
  set (st0 := setQueue _ rest).
  set (w1 := snd (ctx_Err E w)).
  pose proof (walkTask_fetched E f yield current st0 w1) as [Hf Hres].
  cbn zeta in Hf, Hres.
  change (seen st0) with sn in *.
  rewrite fetchKeys_app.
  assert (Hkeys : fetchKeys (events (walkTask E f yield current st0 w1)) = []
                  \/ (fetchKeys (events (walkTask E f yield current st0 w1))
                       = [canonicalURLKey (Some (loc current))]
                      /\ canonicalURLKey (Some (loc current)) ∉ sn)).
  { unfold fetchKeys. destruct Hf as [->|[-> Hnew]]; [now left|now right]. }
  clear Hf.
  destruct (result (walkTask E f yield current st0 w1)) as [st'|err].
  - destruct Hres as (Hsub & Hkey & _).
    destruct (IH st' (world (walkTask E f yield current st0 w1)))
      as [Hnd Hfresh].
    destruct Hkeys as [->|[-> Hnew]]; cbn [app].
    + split; [exact Hnd|].
      intros k Hk Hin. apply (Hfresh k Hk). now apply Hsub.
    + split.
      * constructor; [|exact Hnd].
        intros Hin. now apply (Hfresh _ Hin).
      * intros k Hk. apply elem_of_cons in Hk as [->|Hk]; [exact Hnew|].
        intros Hin. apply (Hfresh k Hk). now apply Hsub.
  - cbn [events ret snd]. rewrite app_nil_r.
    destruct Hkeys as [->|[-> Hnew]].
    + split; [constructor|intros k Hk; inversion Hk].
    + split; [apply NoDup_singleton|].
      intros k Hk. apply list_elem_of_singleton in Hk as ->. exact Hnew.
Qed.

Lemma seed_events (input base : URL) (w : W) :
  Forall requestEvent (events (seed E f input base w)).
Proof.
  unfold seed. rewrite events_bind. apply Forall_app. split.
  - destruct (_ && _); [|constructor].
    rewrite events_bind. apply Forall_app.
    split; [apply getRobots_events|].
    destruct (result (getRobots E f base ∅ w)); constructor.
  - destruct (result _). constructor.
Qed.

End SeenFacts.

(** C4. In one traversal no canonical sitemap location, the serialized URL
    with its fragment removed, is fetched twice: a turn of the queue loop
    enters fetchSitemap only for a task whose key is not in the seen set,
    the key is in the seen set from then on, and so the keys of all
    locations that reach the fetch step are pairwise different. *)
Theorem canonical_location_fetched_once `{L : GoLib} {W : Type} (E : Env W)
    (f : SitemapFetcher) (fuel : nat) (website : option URL)
    (yield : option (yieldFn (W := W))) (w : W) :
  NoDup (fetchKeys (events (Walk E f fuel website yield w)))
  /\ (forall u, canonicalURLKey (Some u) = url_String (setFragment u ""))
  /\ (forall cb current st w',
        let r := walkTask E f cb current st w' in
        let key := canonicalURLKey (Some (loc current)) in
        (fetched (events r) = []
         \/ (fetched (events r) = [loc current] /\ key ∉ seen st))
        /\ match result r with
           | Continue st' => seen st ⊆ seen st' /\ key ∈ seen st'
           | Return _ => True
           end).
Proof.
  split; [|split].
  - unfold Walk. destruct yield as [cb|]; [|constructor].
    destruct (normalizeInputURL website) as [err|[input base]]; [constructor|].
    rewrite events_bind, fetchKeys_app.
    pose proof (seed_events E f input base w) as Hseed.
    apply request_is_net, net_no_fetch in Hseed.
    unfold fetchKeys at 1. rewrite Hseed. cbn [map app].
    destruct (result (seed E f input base w)) as [initial cache].
    destruct (_ =? 0); [constructor|].
    apply walkLoop_fetch_once.
  - reflexivity.
  - intros cb current st w'.
    pose proof (walkTask_fetched E f cb current st w') as [Hf Hres].
    cbn zeta in *. split; [exact Hf|].
    destruct (result (walkTask E f cb current st w')); [|exact I].
    tauto.
Qed.

(** ** robots.txt never fails a traversal *)

Section RobotsLifetime.
Context `{L : GoLib} {W : Type} (E : Env W) (f : SitemapFetcher).
Variable yield : yieldFn (W := W).

Lemma getRobots_cached (base : URL) (cache : gmap string robotsRules)
    (rules : robotsRules) (w : W) :
  cache !! robotsKey base = Some rules ->
  getRobots E f base cache w = (inr rules, cache, w, []).
Proof. intros Hc. unfold getRobots. now rewrite Hc. Qed.

Lemma getRobots_unavailable (base : URL) (cache : gmap string robotsRules)
    (req : Request) (w : W) :
  cache !! robotsKey base = None ->
  newRequest f MethodGet (url_ResolveReference base (pathURL "/robots.txt"))
    = inr req ->
  robotsUnavailable (fst (client_Do E req w)) = true ->
  getRobots E f base cache w =
    (inr emptyRules, <[robotsKey base := emptyRules]> cache,
     snd (client_Do E req w), [EvRequest req]).
Proof.
  intros Hc Hreq Hun. unfold getRobots. rewrite Hc, Hreq.
  rewrite emit_bind, perform_bind. unfold robotsUnavailable in Hun.
  destruct (fst (client_Do E req w)) as [err|resp]; [reflexivity|].
  destruct (negb (StatusCode resp =? StatusOK)); [reflexivity|].
  destruct (robotstxt_FromResponse resp); [reflexivity|discriminate].
Qed.

Lemma turn_cache (a b : walkState * W) :
  turn E f yield a b -> robotsCache (fst a) ⊆ robotsCache (fst b).
Proof.
  intros (current & rest & evs & _ & _ & Hrun).
  pose proof (walkTask_fetched E f yield current (setQueue (fst a) rest)
                (snd (ctx_Err E (snd a)))) as [_ Hres].
  cbn zeta in Hres. rewrite Hrun in Hres. cbn in Hres. tauto.
Qed.

Lemma turns_cache (a b : walkState * W) :
  rtc (turn E f yield) a b -> robotsCache (fst a) ⊆ robotsCache (fst b).
Proof.
  induction 1 as [a|a b c Hab _ IH]; [reflexivity|].
  etransitivity; [exact (turn_cache a b Hab)|exact IH].
Qed.

End RobotsLifetime.

(** C7. When robots.txt of an origin cannot be had, because the request
    fails, the status is not 200 or the body does not parse, getRobots
    gives the empty rule set, with no group and no sitemaps, and stores it
    in the cache instead of failing.  From then on the cache answers for
    that origin without a request, every location of the origin is
    allowed, and the entry stays through all later turns of the queue
    loop.  allowedByRobots and the robots test of Walk never return an
    error, and they answer allow whenever the rules have no group. *)
Theorem robots_failure_is_allow_all `{L : GoLib} {W : Type} (E : Env W)
    (f : SitemapFetcher) (base : URL) (cache : gmap string robotsRules)
    (req : Request) (w : W) :
  cache !! robotsKey base = None ->
  newRequest f MethodGet (url_ResolveReference base (pathURL "/robots.txt"))
    = inr req ->
  robotsUnavailable (fst (client_Do E req w)) = true ->
  let cache' := <[robotsKey base := emptyRules]> cache in
  result (getRobots E f base cache w) = (inr emptyRules, cache')
  /\ events (getRobots E f base cache w) = [EvRequest req]
  /\ group emptyRules = None /\ sitemaps emptyRules = []
  /\ (forall w', getRobots E f base cache' w' = (inr emptyRules, cache', w', []))
  /\ (forall u w',
        Scheme u = Scheme base -> Host u = Host base ->
        allowedByRobots E f u cache' w' = (true, None, cache', w', []))
  /\ (forall cb st1 w1 st2 w2,
        robotsCache st1 !! robotsKey base = Some emptyRules ->
        rtc (turn E f cb) (st1, w1) (st2, w2) ->
        robotsCache st2 !! robotsKey base = Some emptyRules)
  /\ (forall u c w',
        snd (fst (result (allowedByRobots E f u c w'))) = None)
  /\ (forall u st w', snd (fst (result (robotsGate E f u st w'))) = None)
  /\ (forall u c w',
        match fst (result (getRobots E f (originURL (Scheme u) (Host u)) c w'))
        with
        | inr {| group := Some _ |} => True
        | _ => fst (fst (result (allowedByRobots E f u c w'))) = true
        end).
Proof.
  intros Hc Hreq Hun cache'.
  rewrite (getRobots_unavailable E f base cache req w Hc Hreq Hun).
  assert (Hcached : cache' !! robotsKey base = Some emptyRules)
    by apply lookup_insert_eq.
  repeat split.
  - intros w'. now apply getRobots_cached.
  - intros u w' Hs Hh. unfold allowedByRobots.
    replace (originURL (Scheme u) (Host u)) with (originURL (Scheme base) (Host base))
      by now rewrite Hs, Hh.
    assert (robotsKey (originURL (Scheme base) (Host base)) = robotsKey base)
      as Hk by reflexivity.
    rewrite bind_run, (getRobots_cached E f _ cache' emptyRules w');
      [reflexivity|now rewrite Hk].
  - intros cb st1 w1 st2 w2 Hin Hturns.
    apply (turns_cache E f cb) in Hturns.
    eapply lookup_weaken; eassumption.
  - intros u c w'. apply allowedByRobots_no_error.
  - intros u st w'. apply robotsGate_no_error.
  - intros u c w'. unfold allowedByRobots. rewrite result_bind.
    destruct (result (getRobots E f _ c w')) as [[err|[[g|] sm]] c'];
      cbn; tauto.
Qed.

(** The robots.txt request of the test site answers 404: the empty rules
    are cached and nothing fails. *)
Lemma robots_failure_is_allow_all_witness :
  (∅ : gmap string robotsRules) !! robotsKey Testbed.site = None
  /\ newRequest (Testbed.fetcher Testbed.noOptions) MethodGet
       (url_ResolveReference Testbed.site (pathURL "/robots.txt"))
     = inr Testbed.robotsRequest
  /\ robotsUnavailable
       (fst (client_Do (Testbed.serverEnv (Testbed.routes []))
                       Testbed.robotsRequest 0)) = true
  /\ result (getRobots (Testbed.serverEnv (Testbed.routes []))
                       (Testbed.fetcher Testbed.noOptions) Testbed.site ∅ 0)
     = (inr emptyRules, <[robotsKey Testbed.site := emptyRules]> ∅).
Proof.
  split; [reflexivity|]. split; [reflexivity|]. split; [reflexivity|].
  exact (proj1 (robots_failure_is_allow_all
                  (Testbed.serverEnv (Testbed.routes []))
                  (Testbed.fetcher Testbed.noOptions) Testbed.site ∅
                  Testbed.robotsRequest 0 eq_refl eq_refl eq_refl)).
Defined.

(** ** The transport decoder *)

Lemma Peek_keeps_stream (n : nat) (r : bufioReader) :
  bufioStream (snd (Peek n r)) = bufioStream r.
Proof.
  unfold Peek, bufioStream.
  destruct (_ <? _)%nat; cbn [snd buffered source bytes readErr];
    now rewrite <- app_assoc, take_drop.
Qed.

Lemma NewReaderSize_stream (body : Stream) (size : Z) :
  bufioStream (NewReaderSize body size) = body.
Proof. now destruct body. Qed.

Lemma Peek_magic (body : Stream) (size : Z) :
  isGzipMagic (fst (fst (Peek 2 (NewReaderSize body size))))
              (snd (fst (Peek 2 (NewReaderSize body size))))
  = hasGzipMagic (bytes body).
Proof.
  unfold Peek, NewReaderSize. cbn [buffered source length app Nat.sub].
  destruct body as [[|b0 [|b1 rest]] err]; reflexivity.
Qed.

Lemma wrapReader_magic `{L : GoLib} (resp : Response) :
  wrapReader resp =
    if hasGzipMagic (bytes (Body resp)) then gzip_NewReader (Body resp)
    else inr (Body resp).
Proof.
  unfold wrapReader.
  pose proof (Peek_magic (Body resp) defaultBufSize) as Hm.
  pose proof (Peek_keeps_stream 2 (NewReaderSize (Body resp) defaultBufSize))
    as Hs.
  rewrite NewReaderSize_stream in Hs.
  destruct (Peek 2 (NewReaderSize (Body resp) defaultBufSize))
    as [[peek err] reader].
  cbn [fst snd] in Hm, Hs. rewrite Hm, Hs.
  destruct (hasGzipMagic _); [|reflexivity].
  now destruct (gzip_NewReader (Body resp)).
Qed.

(** C6. wrapReader looks at nothing but the first two bytes of the body:
    when they are 1f 8b the reader is the gzip reader over the whole body,
    otherwise it is the body itself, and in both cases the two peeked
    bytes are still the first bytes read.  Status and headers play no
    part.  Hence a gzip body and the plain body it decompresses to give
    the same reader, and the walk over the gzip file of the test yields
    the items of the walk over the plain file. *)
Theorem wrapReader_gzip_by_magic :
  (forall (L : GoLib) (resp : Response),
      wrapReader resp =
        (if hasGzipMagic (bytes (Body resp)) then gzip_NewReader (Body resp)
         else inr (Body resp))
      /\ (forall n r, bufioStream (snd (Peek n r)) = bufioStream r)
      /\ (forall resp',
            Body resp' = Body resp -> wrapReader resp' = wrapReader resp)
      /\ (forall plain,
            hasGzipMagic (bytes (Body resp)) = true ->
            gzip_NewReader (Body resp) = inr (Body plain) ->
            hasGzipMagic (bytes (Body plain)) = false ->
            wrapReader resp = wrapReader plain))
  /\ (let gz :=
        Walk (Testbed.serverEnv
                (Testbed.routes [(Testbed.gzipURL, Testbed.gzipResponse)]))
             (Testbed.fetcher Testbed.noOptions) 4
             (Testbed.parsed Testbed.gzipURL) (Some Testbed.collect) 0 in
      let plain :=
        Walk (Testbed.serverEnv
                (Testbed.routes [(Testbed.gzipURL, Testbed.plainResponse)]))
             (Testbed.fetcher Testbed.noOptions) 4
             (Testbed.parsed Testbed.gzipURL) (Some Testbed.collect) 0 in
      hasGzipMagic (bytes (Body Testbed.gzipResponse)) = true
      /\ result gz = Returned None
      /\ map Testbed.itemView (yielded (events gz))
         = map Testbed.itemView (yielded (events plain))
      /\ map Item.Loc (yielded (events gz))
         = [Testbed.urlAt "example.com" "/gzip-page"]).
Proof.
  split.
  - intros L resp. split; [apply wrapReader_magic|].
    split; [apply Peek_keeps_stream|]. split.
    + intros resp' Hb. now rewrite !wrapReader_magic, Hb.
    + intros plain Hm Hgz Hp. rewrite !wrapReader_magic, Hm, Hp. exact Hgz.
  - vm_compute. repeat split; reflexivity.
Qed.

(** ** Retry on 429 *)

Lemma backoffDelay_clamp (d : Z) :
  backoffDelay d = if d <=? 0 then defaultRetryDelay else Z.min d maxRetryDelay.
Proof.
  unfold backoffDelay, defaultRetryDelay, maxRetryDelay, Second.
  destruct (d <=? 0) eqn:Hd.
  - reflexivity.
  - apply Z.leb_gt in Hd.
    destruct (d >? 30 * 1000000000) eqn:Hm.
    + apply Z.gtb_lt in Hm. lia.
    + rewrite Z.gtb_ltb in Hm. apply Z.ltb_ge in Hm. lia.
Qed.

Lemma backoffDelay_bounds (d : Z) : 0 < backoffDelay d <= maxRetryDelay.
Proof.
  rewrite backoffDelay_clamp.
  unfold defaultRetryDelay, maxRetryDelay, Second.
  destruct (d <=? 0) eqn:Hd; [lia|]. apply Z.leb_gt in Hd. lia.
Qed.

Section RetryFacts.
Context `{L : GoLib} {W : Type} (E : Env W) (f : SitemapFetcher).
Variables (u : URL) (am : bool) (req : Request).
Hypothesis Hreq : newRequest f MethodGet u = inr req.
Hypothesis Hawake : forall d w, fst (timer_Wait E d w) = None.

Lemma retryAfterDelay_run (resp : Response) (w : W) :
  retryAfterDelay E (Some resp) w =
    (result (retryAfterDelay E (Some resp) w),
     world (retryAfterDelay E (Some resp) w), []).
Proof.
  rewrite <- (retryAfterDelay_events E (Some resp) w). apply run_eta.
Qed.

(** A 429 before the last attempt: one request, one sleep, and the next
    attempt in the world the wait has left. *)
Lemma fetch_429_retry (remaining : nat) (attempt : Z) (w : W)
    (resp : Response) :
  fst (client_Do E req w) = inr resp ->
  StatusCode resp = StatusTooManyRequests ->
  attempt <> maxRetryAttempts ->
  fetchSitemapFrom E f (S remaining) attempt u am w =
    (let w1 := snd (client_Do E req w) in
     let next := fetchSitemapFrom E f remaining (attempt + 1) u am
                                  (afterBackoff E resp w1) in
     (result next, world next,
      EvRequest req :: EvSleep (delayAfter E resp w1) :: events next)).
Proof.
  intros Hdo Hcode Hatt. cbn zeta.
  cbn [fetchSitemapFrom]. rewrite Hreq, emit_bind, perform_bind, Hdo.
  rewrite Hcode, Z.eqb_refl, bind_run.
  rewrite retryAfterDelay_events. cbn [app].
  apply Z.eqb_neq in Hatt. rewrite Hatt.
  fold (delayAfter E resp (snd (client_Do E req w))).
  set (d := delayAfter E resp (snd (client_Do E req w))).
  assert (Hd : (d <=? 0) = false).
  { apply Z.leb_gt. subst d. unfold delayAfter. apply backoffDelay_bounds. }
  unfold sleepWithContext. rewrite Hd.
  rewrite bind_run, emit_bind. cbn [result world events fst snd].
  rewrite result_perform, world_perform, events_perform, Hawake.
  cbn [app]. reflexivity.
Qed.

(** A 429 at the last attempt: one request, then the status error;
    retryAfterDelay has still run. *)
Lemma fetch_429_last (remaining : nat) (w : W) (resp : Response) :
  fst (client_Do E req w) = inr resp ->
  StatusCode resp = StatusTooManyRequests ->
  fetchSitemapFrom E f (S remaining) maxRetryAttempts u am w =
    (inl (ErrHTTPStatus u StatusTooManyRequests (Status resp)),
     world (retryAfterDelay E (Some resp) (snd (client_Do E req w))),
     [EvRequest req]).
Proof.
  intros Hdo Hcode.
  cbn [fetchSitemapFrom]. rewrite Hreq, emit_bind, perform_bind, Hdo.
  rewrite Hcode, Z.eqb_refl, bind_run.
  rewrite retryAfterDelay_events. cbn [app result world events fst snd].
  reflexivity.
Qed.

End RetryFacts.

Section DelayFacts.
Context `{L : GoLib} {W : Type} (E : Env W).

Lemma retryAfterDelay_value (resp : Response) (w : W) :
  let value := TrimSpace (Header_Get (Header resp) "Retry-After") in
  result (retryAfterDelay E (Some resp) w) =
    if isEmpty value then 0
    else match Atoi value with
         | Some seconds =>
             if seconds <=? 0 then 0 else wrap64 (seconds * Second)
         | None =>
             match http_ParseTime value with
             | Some t => time_Sub t (fst (time_Now E w))
             | None => 0
             end
         end.
Proof.
  cbn zeta. unfold retryAfterDelay.
  destruct (isEmpty _); [reflexivity|].
  destruct (Atoi _) as [seconds|].
  - now destruct (seconds <=? 0).
  - destruct (http_ParseTime _); [|reflexivity].
    now rewrite perform_bind.
Qed.

Lemma wrap64_small (x : Z) : minInt <= x <= maxInt -> wrap64 x = x.
Proof.
  unfold wrap64, minInt, maxInt. intros Hx.
  rewrite Z.mod_small; lia.
Qed.

Lemma delayAfter_seconds (resp : Response) (w : W) (seconds : Z) :
  Atoi (TrimSpace (Header_Get (Header resp) "Retry-After")) = Some seconds ->
  0 < seconds -> seconds * Second <= maxInt ->
  delayAfter E resp w = Z.min (seconds * Second) maxRetryDelay.
Proof.
  intros Ha Hpos Hfit. unfold delayAfter.
  rewrite retryAfterDelay_value. cbn zeta. rewrite Ha.
  destruct (isEmpty _) eqn:He.
  { apply isEmpty_true in He. rewrite He in Ha. discriminate. }
  assert ((seconds <=? 0) = false) as -> by (apply Z.leb_gt; lia).
  rewrite wrap64_small by (unfold minInt, Second in *; lia).
  rewrite backoffDelay_clamp.
  assert ((seconds * Second <=? 0) = false) as ->
      by (apply Z.leb_gt; unfold Second; lia).
  reflexivity.
Qed.

Lemma delayAfter_absent (resp : Response) (w : W) :
  Header resp !! "Retry-After" = None ->
  delayAfter E resp w = defaultRetryDelay.
Proof.
  intros Hh. unfold delayAfter. rewrite retryAfterDelay_value. cbn zeta.
  unfold Header_Get. rewrite Hh. reflexivity.
Qed.

End DelayFacts.

(** C3. When every attempt on a location is answered with 429 (and the
    request can be built and no sleep is cut short by the context),
    fetchSitemap makes exactly four requests with a sleep after each of
    the first three, and then fails with the status error for 429, which
    carries the status line of the fourth response.  The four responses
    are the ones the client returned, each to the request made in the
    world the wait before it has left; each sleep lasts the delay computed
    from the Retry-After header of the response just returned, and the
    timer really runs for that delay.  The delay is whole seconds or the
    time left until an HTTP date, replaced by the default of 5 s when the
    header is absent, unreadable or gives nothing positive, and never
    more than the ceiling of 30 s. *)
Theorem fetchSitemap_429_four_tries `{L : GoLib} {W : Type} (E : Env W)
    (f : SitemapFetcher) (u : URL) (am : bool) (req : Request) (w : W) :
  newRequest f MethodGet u = inr req ->
  (forall w', exists resp,
      fst (client_Do E req w') = inr resp
      /\ StatusCode resp = StatusTooManyRequests) ->
  (forall d w', fst (timer_Wait E d w') = None) ->
  (exists r1 r2 r3 r4,
      let w1 := snd (client_Do E req w) in
      let w2 := snd (client_Do E req (afterBackoff E r1 w1)) in
      let w3 := snd (client_Do E req (afterBackoff E r2 w2)) in
      let w4 := snd (client_Do E req (afterBackoff E r3 w3)) in
      fst (client_Do E req w) = inr r1
      /\ fst (client_Do E req (afterBackoff E r1 w1)) = inr r2
      /\ fst (client_Do E req (afterBackoff E r2 w2)) = inr r3
      /\ fst (client_Do E req (afterBackoff E r3 w3)) = inr r4
      /\ Forall (fun r => StatusCode r = StatusTooManyRequests) [r1; r2; r3; r4]
      /\ fetchSitemap E f u am w =
           (inl (ErrHTTPStatus u 429 (Status r4)),
            world (retryAfterDelay E (Some r4) w4),
            [ EvFetch u;
              EvRequest req; EvSleep (delayAfter E r1 w1);
              EvRequest req; EvSleep (delayAfter E r2 w2);
              EvRequest req; EvSleep (delayAfter E r3 w3);
              EvRequest req ]))
  /\ length (requested (events (fetchSitemap E f u am w))) = 4%nat
  /\ length (slept (events (fetchSitemap E f u am w))) = 3%nat
  /\ (forall resp w',
        0 < delayAfter E resp w' <= maxRetryDelay
        /\ delayAfter E resp w' =
           (let d := result (retryAfterDelay E (Some resp) w') in
            if d <=? 0 then defaultRetryDelay else Z.min d maxRetryDelay))
  /\ (forall resp w',
        let value := TrimSpace (Header_Get (Header resp) "Retry-After") in
        result (retryAfterDelay E (Some resp) w') =
          if isEmpty value then 0
          else match Atoi value with
               | Some seconds =>
                   if seconds <=? 0 then 0 else wrap64 (seconds * Second)
               | None =>
                   match http_ParseTime value with
                   | Some t => time_Sub t (fst (time_Now E w'))
                   | None => 0
                   end
               end)
  /\ (forall resp w' seconds,
        Atoi (TrimSpace (Header_Get (Header resp) "Retry-After"))
          = Some seconds ->
        0 < seconds -> seconds * Second <= maxInt ->
        delayAfter E resp w' = Z.min (seconds * Second) maxRetryDelay)
  /\ (forall resp w',
        Header resp !! "Retry-After" = None ->
        delayAfter E resp w' = defaultRetryDelay).
Proof.
  intros Hreq Hbusy Hawake.
  assert (Hrun : exists r1 r2 r3 r4,
      let w1 := snd (client_Do E req w) in
      let w2 := snd (client_Do E req (afterBackoff E r1 w1)) in
      let w3 := snd (client_Do E req (afterBackoff E r2 w2)) in
      let w4 := snd (client_Do E req (afterBackoff E r3 w3)) in
      fst (client_Do E req w) = inr r1
      /\ fst (client_Do E req (afterBackoff E r1 w1)) = inr r2
      /\ fst (client_Do E req (afterBackoff E r2 w2)) = inr r3
      /\ fst (client_Do E req (afterBackoff E r3 w3)) = inr r4
      /\ Forall (fun r => StatusCode r = StatusTooManyRequests) [r1; r2; r3; r4]
      /\ fetchSitemap E f u am w =
           (inl (ErrHTTPStatus u 429 (Status r4)),
            world (retryAfterDelay E (Some r4) w4),
            [ EvFetch u;
              EvRequest req; EvSleep (delayAfter E r1 w1);
              EvRequest req; EvSleep (delayAfter E r2 w2);
              EvRequest req; EvSleep (delayAfter E r3 w3);
              EvRequest req ])).
  { destruct (Hbusy w) as (r1 & Hd1 & Hc1).
    set (w1 := snd (client_Do E req w)).
    destruct (Hbusy (afterBackoff E r1 w1)) as (r2 & Hd2 & Hc2).
    set (w2 := snd (client_Do E req (afterBackoff E r1 w1))).
    destruct (Hbusy (afterBackoff E r2 w2)) as (r3 & Hd3 & Hc3).
    set (w3 := snd (client_Do E req (afterBackoff E r2 w2))).
    destruct (Hbusy (afterBackoff E r3 w3)) as (r4 & Hd4 & Hc4).
    exists r1, r2, r3, r4. cbn zeta. fold w1. fold w2. fold w3.
    split; [exact Hd1|]. split; [exact Hd2|]. split; [exact Hd3|].
    split; [exact Hd4|].
    split; [repeat constructor; assumption|].
    unfold fetchSitemap. rewrite emit_bind.
    change (Z.to_nat (maxRetryAttempts + 1)) with 4%nat.
    rewrite (fetch_429_retry E f u am req Hreq Hawake 3 0 w r1 Hd1 Hc1)
      by discriminate.
    cbn zeta. fold w1.
    rewrite (fetch_429_retry E f u am req Hreq Hawake 2 (0 + 1)
               (afterBackoff E r1 w1) r2 Hd2 Hc2) by discriminate.
    cbn zeta. fold w2.
    rewrite (fetch_429_retry E f u am req Hreq Hawake 1 (0 + 1 + 1)
               (afterBackoff E r2 w2) r3 Hd3 Hc3) by discriminate.
    cbn zeta. fold w3.
    change (0 + 1 + 1 + 1) with maxRetryAttempts.
    rewrite (fetch_429_last E f u am req Hreq 0
               (afterBackoff E r3 w3) r4 Hd4 Hc4).
    reflexivity. }
  split; [exact Hrun|].
  destruct Hrun as (r1 & r2 & r3 & r4 & _ & _ & _ & _ & _ & ->).
  split; [reflexivity|]. split; [reflexivity|].
  split; [|split; [|split]].
  - intros resp w'. split; [apply backoffDelay_bounds|].
    apply backoffDelay_clamp.
  - intros resp w'. apply retryAfterDelay_value.
  - intros resp w' seconds. apply delayAfter_seconds.
  - intros resp w'. apply delayAfter_absent.
Qed.

(** A server that asks for 7 s and then for 2 s: four requests, and
    sleeps of 7 s, 2 s and 2 s, after which the clock stands at 11 s. *)
Lemma fetchSitemap_429_four_tries_witness :
  let run := fetchSitemap Testbed.pacingEnv
               (Testbed.fetcher Testbed.noOptions)
               (Testbed.urlAt "example.com" "/sitemap.xml") false 0 in
  newRequest (Testbed.fetcher Testbed.noOptions) MethodGet
     (Testbed.urlAt "example.com" "/sitemap.xml") = inr Testbed.sitemapRequest
  /\ length (requested (events run)) = 4%nat
  /\ slept (events run) = [7 * Second; 2 * Second; 2 * Second]
  /\ world run = 11 * Second.
Proof.
  cbn zeta. split; [reflexivity|].
  destruct (fetchSitemap_429_four_tries Testbed.pacingEnv
              (Testbed.fetcher Testbed.noOptions)
              (Testbed.urlAt "example.com" "/sitemap.xml") false
              Testbed.sitemapRequest 0 eq_refl
              (fun w' => ex_intro _ (Testbed.tooMany
                                       (Some (if w' =? 0 then "7" else "2")))
                           (conj eq_refl eq_refl))
              (fun d w' => eq_refl))
    as ((r1 & r2 & r3 & r4 & H1 & H2 & H3 & H4 & _ & Hrun) & Hn & _).
  split; [exact Hn|].
  change (@inr error Response (Testbed.tooMany (Some "7")) = inr r1) in H1.
  injection H1 as <-.
  change (@inr error Response (Testbed.tooMany (Some "2")) = inr r2) in H2.
  injection H2 as <-.
  change (@inr error Response (Testbed.tooMany (Some "2")) = inr r3) in H3.
  injection H3 as <-.
  change (@inr error Response (Testbed.tooMany (Some "2")) = inr r4) in H4.
  injection H4 as <-.
  rewrite Hrun. split; reflexivity.
Defined.

(** When the context ends during the first backoff sleep, fetchSitemap
    stops there with the context error, after a single request. *)
Example fetchSitemap_cancelled_in_backoff :
  result (fetchSitemap (Testbed.cancellingEnv Testbed.busy)
            (Testbed.fetcher Testbed.noOptions)
            (Testbed.urlAt "example.com" "/sitemap.xml") false 0)
    = inl ctxCanceled
  /\ requested (events
       (fetchSitemap (Testbed.cancellingEnv Testbed.busy)
          (Testbed.fetcher Testbed.noOptions)
          (Testbed.urlAt "example.com" "/sitemap.xml") false 0))
     = [Testbed.sitemapURL].
Proof. split; vm_compute; reflexivity. Qed.

(** A Retry-After of more whole seconds than a Duration holds wraps
    around before it is defaulted or capped: 18446744074 s becomes
    290448384 ns. *)
Example retryAfter_wraps :
  delayAfter (Testbed.serverEnv Testbed.busy)
             (Testbed.tooMany (Some "18446744074")) 0 = 290448384
  /\ delayAfter (Testbed.serverEnv Testbed.busy)
                (Testbed.tooMany (Some "9223372037")) 0 = defaultRetryDelay
  /\ delayAfter (Testbed.serverEnv Testbed.busy)
                (Testbed.tooMany (Some "120")) 0 = maxRetryDelay.
Proof. repeat split; vm_compute; reflexivity. Qed.

(** ** Resolution of locations *)

Section ResolveFacts.
Context `{L : GoLib} {W : Type} (E : Env W) (f : SitemapFetcher).
Variable yield : yieldFn (W := W).

Lemma resolveLocation_no_fragment (base : URL) (raw : string) (u : URL) :
  resolveLocation base raw = inr u -> Fragment u = "".
Proof.
  unfold resolveLocation. destruct (isEmpty _); [discriminate|].
  destruct (url_Parse _) as [err|parsed]; [discriminate|].
  destruct (IsAbs parsed); intros [= <-]; reflexivity.
Qed.

(** Every item the first callback yields carries the entry's location
    resolved against the location of the task that is being read, and that
    location as its sitemap. *)
Lemma onURL_yielded (current : sitemapTask) (entry : xmlURLEntry.t)
    (st : walkState) (w : W) (it : Item.t) :
  it ∈ yielded (events (onURL E f yield current entry st w)) ->
  resolveLocation (loc current) (xmlURLEntry.Loc entry) = inr (Item.Loc it)
  /\ Item.Sitemap it = loc current.
Proof.
  rewrite onURL_split, events_bind, yielded_app.
  rewrite (net_no_yield _ (request_is_net _
             (admission_events E f current entry st w))).
  cbn [app].
  pose proof (admission_result E f current entry st w) as Hadm.
  destruct (deliver_events f yield current entry
              (fst (result (admission E f current entry st w)))
              (snd (result (admission E f current entry st w)))
              (world (admission E f current entry st w)))
    as [->|(u & Ha & ->)].
  - intros Hin. inversion Hin.
  - rewrite Ha in Hadm. destruct Hadm as [Hres _].
    intros Hin. apply list_elem_of_singleton in Hin as ->.
    split; [exact Hres|reflexivity].
Qed.

(** A task the second callback adds has the entry's location resolved
    against the location of the task that is being read, one level
    deeper. *)
Lemma onSitemap_queue (current : sitemapTask) (entry : xmlSitemapEntry.t)
    (st : walkState) (w : W) :
  let st' := snd (result (onSitemap current entry st w)) in
  match resolveLocation (loc current) (xmlSitemapEntry.Loc entry) with
  | inl _ => queue st' = queue st
  | inr u =>
      queue st' = queue st ++ [ {| loc := u;
                                   depth := wrap64 (depth current + 1);
                                   allowMissing := false |} ]
  end.
Proof.
  cbn zeta. unfold onSitemap.
  destruct (resolveLocation _ _); reflexivity.
Qed.

Lemma yielded_elem (evs : list event) (it : Item.t) :
  it ∈ yielded evs <-> EvYield it ∈ evs.
Proof.
  unfold yielded. rewrite list_elem_of_omap. split.
  - intros (e & He & Hs). destruct e; try discriminate.
    now injection Hs as ->.
  - intros He. exists (EvYield it). split; [exact He|reflexivity].
Qed.

Lemma onURL_yieldsFrom (current : sitemapTask) (entry : xmlURLEntry.t)
    (st : walkState) (w : W) :
  Forall (yieldsFrom (loc current))
         (events (onURL E f yield current entry st w)).
Proof.
  apply Forall_forall. intros e He.
  destruct e as [| | |it]; try exact I.
  apply yielded_elem in He.
  destruct (onURL_yielded current entry st w it He) as [Hres Hsm].
  split; [exact Hsm|]. exists (xmlURLEntry.Loc entry). now rewrite Hsm.
Qed.

Lemma parseSitemap_yieldsFrom (current : sitemapTask) (reader : Stream)
    (st : walkState) (w : W) :
  Forall (yieldsFrom (loc current))
         (events (parseSitemap E reader (Some (onURL E f yield current))
                               (Some (onSitemap current)) st w)).
Proof.
  unfold parseSitemap.
  apply (parseEvents_invariant E (fun _ _ => True)
           (yieldsFrom (loc current))); auto.
  - intros cb [= <-] e s w'. split; [exact I|apply onURL_yieldsFrom].
  - intros cb [= <-] e s w'.
    destruct (onSitemap_run current e s w') as (q & ->).
    split; [exact I|constructor].
Qed.

(** When the first half of a turn hands over a reader, it has entered
    fetchSitemap for the task. *)
Lemma beforeParse_fetched (current : sitemapTask) (st : walkState) (w : W) :
  match result (beforeParse E f current st w) with
  | inr _ => fetched (events (beforeParse E f current st w)) = [loc current]
  | inl _ => True
  end.
Proof.
  unfold beforeParse.
  destruct (_ && _); [exact I|].
  destruct (decide _); [exact I|].
  rewrite bind_run. cbn [result events fst snd].
  pose proof (robotsGate_events E f (loc current)
                (setSeen st ({[canonicalURLKey (Some (loc current))]} ∪ seen st))
                w) as Hg.
  apply request_is_net, net_no_fetch in Hg. rewrite fetched_app, Hg.
  set (w1 := world (robotsGate E f _ _ w)).
  destruct (result (robotsGate E f _ _ w)) as [[allowed err] st1].
  destruct err as [err|]; [exact I|].
  destruct (negb allowed); [exact I|].
  destruct (_ && _); [exact I|].
  rewrite bind_run. cbn [result events fst snd].
  destruct (fetchSitemap_events E f (loc current) (allowMissing current) w1)
    as (net & Hfe & Hnet).
  destruct (result (fetchSitemap E f _ _ w1)) as [err|[reader|]];
    [exact I| |exact I].
  rewrite Hfe. cbn [ret events snd app].
  change (EvFetch (loc current) :: net ++ [])
    with ([EvFetch (loc current)] ++ net ++ []).
  rewrite !fetched_app, (net_no_fetch _ Hnet). reflexivity.
Qed.

Lemma walkTask_items (current : sitemapTask) (st : walkState) (w : W)
    (it : Item.t) :
  it ∈ yielded (events (walkTask E f yield current st w)) ->
  resolvedItem it
  /\ Item.Sitemap it ∈ fetched (events (walkTask E f yield current st w)).
Proof.
  rewrite walkTask_split, events_bind, yielded_app, fetched_app.
  rewrite beforeParse_events. cbn [app].
  pose proof (beforeParse_fetched current st w) as Hf.
  set (w1 := world (beforeParse E f current st w)).
  destruct (result (beforeParse E f current st w)) as [ctl|[reader st1]].
  - intros Hin. inversion Hin.
  - unfold parseTask. rewrite events_bind, yielded_app.
    pose proof (parseSitemap_yieldsFrom current reader st1 w1) as Hy.
    destruct (result (parseSitemap E reader _ _ st1 w1)) as [[perr|] st2];
      cbn [ret events snd]; rewrite app_nil_r; intros Hin;
      apply yielded_elem in Hin;
      (eapply Forall_forall in Hy; [|exact Hin]);
      destruct Hy as [Hsm Hres];
      (split; [exact Hres|]); rewrite Hf, Hsm;
      apply elem_of_app; left; apply list_elem_of_singleton; reflexivity.
Qed.

Lemma walkLoop_items (fuel : nat) (st : walkState) (w : W) (it : Item.t) :
  it ∈ yielded (events (walkLoop E f yield fuel st w)) ->
  resolvedItem it
  /\ Item.Sitemap it ∈ fetched (events (walkLoop E f yield fuel st w)).
Proof.
  revert st w. induction fuel as [|fuel IH]; intros st w;
    (destruct st as [q sn rc sc uc]; destruct q as [|current rest];
     cbn [walkLoop queue]);
    try solve [intros Hin; inversion Hin].
  rewrite perform_bind.
  destruct (fst (ctx_Err E w)) as [cerr|]; [intros Hin; inversion Hin|].
  rewrite events_bind, yielded_app, fetched_app.
  set (st0 := setQueue _ rest). set (w1 := snd (ctx_Err E w)).
  intros Hin. apply elem_of_app in Hin as [Hin|Hin].
  - destruct (walkTask_items current st0 w1 it Hin) as [Hres Hf].
    split; [exact Hres|]. apply elem_of_app. now left.
  - destruct (result (walkTask E f yield current st0 w1)) as [st'|err];
      [|inversion Hin].
    destruct (IH st' _ Hin) as [Hres Hf].
    split; [exact Hres|]. apply elem_of_app. now right.
Qed.

End ResolveFacts.

(** C5. resolveLocation works on the trimmed text, so white space around
    the text changes nothing: empty text is an error;
    text that parses as an absolute URL is returned as parsed with the
    fragment removed; any other text that parses is resolved against the
    base by ResolveReference, with the fragment removed; text that does
    not parse gives the parse error.  In the traversal the base is the
    location of the sitemap that is being read: the items and the child
    tasks carry locations resolved against the current task, so the
    sitemap at /a/sitemap.xml, reached from the index /index.xml, turns
    page into /a/page. *)
Theorem resolveLocation_against_containing_sitemap :
  (forall (L : GoLib) (base : URL) (raw : string),
      let trimmed := TrimSpace raw in
      resolveLocation base raw =
        (if isEmpty trimmed then inl (errorsNew "empty loc")
         else match url_Parse trimmed with
              | inl err => inl err
              | inr parsed =>
                  if IsAbs parsed then inr (setFragment parsed "")
                  else inr (setFragment (url_ResolveReference base parsed) "")
              end)
      /\ resolveLocation base trimmed = resolveLocation base raw
      /\ (forall u, resolveLocation base raw = inr u -> Fragment u = "")
      /\ (resolveLocation base raw = inl (errorsNew "empty loc")
          \/ trimmed <> ""))
  /\ (forall (L : GoLib) (W : Type) (E : Env W) (f : SitemapFetcher)
             (yield : yieldFn (W := W)) (current : sitemapTask) (st : walkState)
             (w : W),
        (forall entry it,
            it ∈ yielded (events (onURL E f yield current entry st w)) ->
            resolveLocation (loc current) (xmlURLEntry.Loc entry)
              = inr (Item.Loc it)
            /\ Item.Sitemap it = loc current)
        /\ (forall entry,
              match resolveLocation (loc current) (xmlSitemapEntry.Loc entry)
              with
              | inl _ =>
                  queue (snd (result (onSitemap current entry st w)))
                  = queue st
              | inr u =>
                  queue (snd (result (onSitemap current entry st w)))
                  = queue st ++ [ {| loc := u;
                                     depth := wrap64 (depth current + 1);
                                     allowMissing := false |} ]
              end))
  /\ (forall (L : GoLib) (W : Type) (E : Env W) (f : SitemapFetcher)
             (fuel : nat) (website : option URL)
             (yield : option (yieldFn (W := W))) (w : W) (it : Item.t),
        it ∈ yielded (events (Walk E f fuel website yield w)) ->
        (exists raw, resolveLocation (Item.Sitemap it) raw = inr (Item.Loc it))
        /\ Item.Sitemap it ∈ fetched (events (Walk E f fuel website yield w)))
  /\ (let run :=
        Walk (Testbed.serverEnv
                (Testbed.routes
                   [(Testbed.indexURL, Testbed.ok Testbed.indexDoc);
                    (Testbed.nestedURL, Testbed.ok Testbed.nestedDoc)]))
             (Testbed.fetcher Testbed.noOptions) 4
             (Testbed.parsed Testbed.indexURL) (Some Testbed.collect) 0 in
      result run = Returned None
      /\ map (fun it => (Item.Loc it, Item.Sitemap it)) (yielded (events run))
         = [ (Testbed.urlAt "example.com" "/a/page",
              Testbed.urlAt "example.com" "/a/sitemap.xml");
             (Testbed.urlAt "other.example" "/x",
              Testbed.urlAt "example.com" "/a/sitemap.xml") ]).
Proof.
  split; [|split; [|split]].
  - intros L base raw trimmed. split; [reflexivity|].
    split; [unfold resolveLocation, trimmed;
            now rewrite TrimSpace_idempotent|].
    split; [apply resolveLocation_no_fragment|].
    unfold resolveLocation. fold trimmed.
    destruct (isEmpty trimmed) eqn:He; [now left|].
    right. now apply isEmpty_false.
  - intros L W E f yield current st w. split.
    + intros entry it. apply onURL_yielded.
    + intros entry. apply onSitemap_queue.
  - intros L W E f fuel website yield w it. unfold Walk.
    destruct yield as [cb|]; [|intros Hin; inversion Hin].
    destruct (normalizeInputURL website) as [err|[input base]];
      [intros Hin; inversion Hin|].
    rewrite events_bind, yielded_app, fetched_app.
    rewrite (net_no_yield _ (request_is_net _ (seed_events E f input base w))).
    rewrite (net_no_fetch _ (request_is_net _ (seed_events E f input base w))).
    cbn [app].
    destruct (result (seed E f input base w)) as [initial cache].
    destruct (_ =? 0); [intros Hin; inversion Hin|].
    apply walkLoop_items.
  - vm_compute. split; reflexivity.
Qed.

(** ** Robots and an explicit sitemap URL *)

(** C1, as stated, fails.  The input is an explicit sitemap URL and robots
    is not ignored; robots.txt of the site disallows /sitemap.xml.  The
    only request of the traversal is the one for robots.txt: the seed task
    is tested against it and dropped, the sitemap is never fetched. *)
Lemma explicit_sitemap_input_is_robots_checked :
  isLikelySitemapURL (Testbed.parsed Testbed.sitemapURL) = true
  /\ IgnoreRobots (opts (Testbed.fetcher Testbed.noOptions)) = false
  /\ requested (events Testbed.blockedRun) = [Testbed.robotsURL]
  /\ fetched (events Testbed.blockedRun) = []
  /\ ~ (exists rest,
          events Testbed.blockedRun
          = EvFetch (Testbed.urlAt "example.com" "/sitemap.xml") :: rest)
  /\ result Testbed.blockedRun = Returned None.
Proof.
  assert (Hreq : requested (events Testbed.blockedRun) = [Testbed.robotsURL])
    by (vm_compute; reflexivity).
  split; [vm_compute; reflexivity|].
  split; [vm_compute; reflexivity|].
  split; [exact Hreq|].
  split; [vm_compute; reflexivity|].
  split; [|vm_compute; reflexivity].
  intros (rest & Hev). rewrite Hev in Hreq. discriminate.
Qed.

Section ExplicitInput.
Context `{L : GoLib} {W : Type} (E : Env W) (f : SitemapFetcher).
Variable yield : yieldFn (W := W).

Lemma depth0_within_limit (maxDepth : Z) :
  (maxDepth >? 0) && (0 >? maxDepth) = false.
Proof.
  destruct (maxDepth >? 0) eqn:H1; [|reflexivity].
  apply Z.gtb_lt in H1. rewrite Z.gtb_ltb.
  cbn. apply Z.ltb_ge. lia.
Qed.

Lemma count0_within_limit (maxSitemaps : Z) :
  (maxSitemaps >? 0) && (0 >=? maxSitemaps) = false.
Proof.
  destruct (maxSitemaps >? 0) eqn:H1; [|reflexivity].
  apply Z.gtb_lt in H1. rewrite Z.geb_leb.
  cbn. apply Z.leb_gt. lia.
Qed.

Lemma seed_explicit (input base : URL) (w : W) :
  isLikelySitemapURL (Some input) = true ->
  seed E f input base w =
    ([ {| loc := input; depth := 0; allowMissing := false |} ], ∅, w, []).
Proof.
  intros Hl. unfold seed, initialSitemaps. rewrite Hl.
  rewrite andb_false_r, ret_bind. reflexivity.
Qed.

Lemma robotsGate_run (u : URL) (st : walkState) (w : W) :
  IgnoreRobots (opts f) = false ->
  robotsGate E f u st w =
    (fst (result (allowedByRobots E f u (robotsCache st) w)),
     setRobotsCache st (snd (result (allowedByRobots E f u (robotsCache st) w))),
     world (allowedByRobots E f u (robotsCache st) w),
     events (allowedByRobots E f u (robotsCache st) w)).
Proof.
  intros Hig. unfold robotsGate. rewrite Hig, bind_run.
  destruct (result (allowedByRobots E f u (robotsCache st) w))
    as [[allowed err] cache].
  cbn [result world events fst snd ret]. now rewrite app_nil_r.
Qed.

(** The turn for the seed task of an explicit sitemap input, robots not
    ignored: the robots test comes first; on deny nothing else happens, on
    allow fetchSitemap is entered next. *)
Lemma walkTask_seed (input : URL) (w : W) :
  IgnoreRobots (opts f) = false ->
  let current := {| loc := input; depth := 0; allowMissing := false |} in
  let gate := allowedByRobots E f input ∅ w in
  exists rest,
    events (walkTask E f yield current (initialState [] ∅) w)
    = events gate ++ rest
    /\ (fst (fst (result gate)) = false ->
        rest = []
        /\ exists st', result (walkTask E f yield current (initialState [] ∅) w)
                       = Continue st' /\ queue st' = [])
    /\ (fst (fst (result gate)) = true ->
        exists more, rest = EvFetch input :: more).
Proof.
  intros Hig. cbn zeta. unfold walkTask.
  cbn [depth loc allowMissing]. rewrite depth0_within_limit.
  destruct (decide _) as [Hin|_]; [now apply not_elem_of_empty in Hin|].
  rewrite bind_run, (robotsGate_run _ _ _ Hig).
  cbn [setSeen initialState robotsCache seen queue sitemapCount urlCount].
  pose proof (allowedByRobots_no_error E f input ∅ w) as Hne.
  set (w1 := world (allowedByRobots E f input ∅ w)).
  destruct (result (allowedByRobots E f input ∅ w)) as [[allowed err] cache].
  cbn [fst snd] in Hne. subst err.
  cbn [result world events fst snd setRobotsCache sitemapCount].
  eexists. split; [reflexivity|].
  destruct allowed; cbn [negb].
  - split; [discriminate|]. intros _.
    rewrite count0_within_limit.
    destruct (fetchSitemap_events E f input false w1) as (net & Hfe & _).
    rewrite events_bind, Hfe. eexists. reflexivity.
  - split; [|discriminate]. intros _.
    split; [reflexivity|]. eexists. split; reflexivity.
Qed.

End ExplicitInput.

(** C1, amended.  For an explicit sitemap input with robots not ignored,
    seeding makes no robots.txt request and gives the one depth-0 task for
    the input.  That task is still put to the robots test when it is taken
    off the queue: the traversal begins with what allowedByRobots does for
    the input on an empty cache; if the answer is deny the task is dropped,
    nothing is fetched or yielded and Walk returns without error; if the
    answer is allow, fetchSitemap is entered for the input next. *)
Theorem explicit_input_skips_only_seeding_robots `{L : GoLib} {W : Type}
    (E : Env W) (f : SitemapFetcher) (fuel : nat) (website : option URL)
    (input base : URL) (yield : yieldFn (W := W)) (w : W) :
  normalizeInputURL website = inr (input, base) ->
  isLikelySitemapURL (Some input) = true ->
  IgnoreRobots (opts f) = false ->
  fst (ctx_Err E w) = None ->
  let gate := allowedByRobots E f input ∅ (snd (ctx_Err E w)) in
  let run := Walk E f (S fuel) website (Some yield) w in
  seed E f input base w =
    ([ {| loc := input; depth := 0; allowMissing := false |} ], ∅, w, [])
  /\ exists rest,
       events run = events gate ++ rest
       /\ (fst (fst (result gate)) = false ->
           rest = [] /\ result run = Returned None
           /\ fetched (events run) = [] /\ yielded (events run) = [])
       /\ (fst (fst (result gate)) = true ->
           exists more, rest = EvFetch input :: more).
Proof.
  intros Hnorm Hlikely Hig Hctx. cbn zeta.
  split; [now apply seed_explicit|].
  unfold Walk. rewrite Hnorm, bind_run, (seed_explicit E f input base w Hlikely).
  cbn [result world events fst snd length app].
  change (Z.of_nat 1 =? 0) with false. cbn [walkLoop initialState queue].
  rewrite perform_bind, Hctx, bind_run.
  change (setQueue _ []) with (initialState [] ∅).
  destruct (walkTask_seed E f yield input (snd (ctx_Err E w)) Hig)
    as (rest & Hev & Hdeny & Hallow).
  cbn zeta in Hev, Hdeny, Hallow.
  cbn [result world events fst snd]. rewrite Hev.
  pose proof (allowedByRobots_events E f input ∅ (snd (ctx_Err E w))) as Hreqs.
  apply request_is_net in Hreqs.
  destruct (fst (fst (result (allowedByRobots E f input ∅ (snd (ctx_Err E w))))))
    eqn:Hans.
  - destruct (Hallow eq_refl) as (more & ->).
    eexists. split; [rewrite <- app_assoc; reflexivity|].
    split; [discriminate|]. intros _. eexists. reflexivity.
  - destruct (Hdeny eq_refl) as (-> & st' & Hres & Hq).
    rewrite Hres. destruct st' as [q sn rc sc uc]. cbn in Hq. subst q.
    destruct fuel; cbn [walkLoop queue events result ret fst snd];
      (exists []; rewrite !app_nil_r;
       split; [reflexivity|]; split; [|discriminate]; intros _;
       repeat split;
       [now apply net_no_fetch|now apply net_no_yield]).
Qed.

(** The blocked site: the seed is tested and dropped. *)
Lemma explicit_input_skips_only_seeding_robots_witness :
  normalizeInputURL (Testbed.parsed Testbed.sitemapURL)
    = inr (Testbed.urlAt "example.com" "/sitemap.xml", Testbed.site)
  /\ seed (Testbed.serverEnv Testbed.blockedSite)
          (Testbed.fetcher Testbed.noOptions)
          (Testbed.urlAt "example.com" "/sitemap.xml") Testbed.site 0
     = ([ {| loc := Testbed.urlAt "example.com" "/sitemap.xml"; depth := 0;
             allowMissing := false |} ], ∅, 0, []).
Proof.
  split; [reflexivity|].
  exact (proj1 (explicit_input_skips_only_seeding_robots
                  (Testbed.serverEnv Testbed.blockedSite)
                  (Testbed.fetcher Testbed.noOptions) 3
                  (Testbed.parsed Testbed.sitemapURL)
                  (Testbed.urlAt "example.com" "/sitemap.xml") Testbed.site
                  Testbed.collect 0 eq_refl eq_refl eq_refl eq_refl)).
Defined.

(** ** The URL limit *)


Section Limit.
Context `{L : GoLib} {W : Type} (E : Env W) (f : SitemapFetcher).
Variable yield : yieldFn (W := W).
Hypothesis Hlimit : 0 < MaxURLs (opts f) <= maxInt.

Lemma yieldCount_app (a b : list event) :
  yieldCount (a ++ b) = yieldCount a + yieldCount b.
Proof. unfold yieldCount. rewrite yielded_app, length_app. lia. Qed.

Lemma yieldCount_nonneg (a : list event) : 0 <= yieldCount a.
Proof. unfold yieldCount. lia. Qed.

Lemma yieldCount_zero (a : list event) : yieldCount a = 0 -> yielded a = [].
Proof.
  unfold yieldCount. intros Hz. apply length_zero_iff_nil. lia.
Qed.

Lemma prefix_is_take {A : Type} (l1 l2 : list A) :
  l1 `prefix_of` l2 -> l1 = take (length l1) l2.
Proof. intros [k ->]. now rewrite take_app_length. Qed.

Lemma deliver_below (current : sitemapTask) (entry : xmlURLEntry.t)
    (a : admitted) (st : walkState) (w : W) :
  urlCount st < MaxURLs (opts f) ->
  deliver f yield current entry a st w
  = deliver (unlimited f) yield current entry a st w.
Proof.
  intros Hc. unfold deliver. destruct a as [|err|u]; try reflexivity.
  assert ((urlCount st >=? MaxURLs (opts f)) = false) as ->
      by (rewrite Z.geb_leb; apply Z.leb_gt; lia).
  rewrite andb_false_r. reflexivity.
Qed.

Lemma deliver_at_limit (current : sitemapTask) (entry : xmlURLEntry.t)
    (u : URL) (st : walkState) (w : W) :
  urlCount st = MaxURLs (opts f) ->
  deliver f yield current entry (Admit u) st w
  = (Some (ErrMaxURLs (MaxURLs (opts f))), st, w, []).
Proof.
  intros Hc. unfold deliver.
  assert ((MaxURLs (opts f) >? 0) = true) as ->
      by (rewrite Z.gtb_ltb; apply Z.ltb_lt; lia).
  assert ((urlCount st >=? MaxURLs (opts f)) = true) as ->
      by (rewrite Z.geb_leb; apply Z.leb_le; lia).
  reflexivity.
Qed.

Lemma deliver_unlimited (current : sitemapTask) (entry : xmlURLEntry.t)
    (u : URL) (st : walkState) (w : W) :
  deliver (unlimited f) yield current entry (Admit u) st w
  = (match fst (yield (itemOf current entry u) w) with
     | Some err => (Some (ErrYield err), st)
     | None => (None, setURLCount st (wrap64 (urlCount st + 1)))
     end,
     snd (yield (itemOf current entry u) w),
     [EvYield (itemOf current entry u)]).
Proof.
  unfold deliver. cbn [unlimited opts withMaxURLs MaxURLs andb Z.gtb Z.compare].
  rewrite emit_bind, perform_bind.
  now destruct (fst (yield (itemOf current entry u) w)).
Qed.

Lemma admission_no_yield (current : sitemapTask) (entry : xmlURLEntry.t)
    (st : walkState) (w : W) :
  yieldCount (events (admission E f current entry st w)) = 0.
Proof.
  unfold yieldCount.
  now rewrite (net_no_yield _ (request_is_net _
                 (admission_events E f current entry st w))).
Qed.

(** One entry under the limit and without it: the same run with no yield,
    the same run with one yield below the limit, or, at the limit, the
    limit error in place of the yield. *)
Lemma onURL_limit (current : sitemapTask) (entry : xmlURLEntry.t)
    (st : walkState) (w : W) :
  0 <= urlCount st <= MaxURLs (opts f) ->
  let r0 := onURL E (unlimited f) yield current entry st w in
  let rN := onURL E f yield current entry st w in
  (rN = r0 /\ yieldCount (events r0) = 0
   /\ urlCount (snd (result r0)) = urlCount st)
  \/ (rN = r0 /\ urlCount st < MaxURLs (opts f)
      /\ yieldCount (events r0) = 1
      /\ (fst (result r0) = None ->
          urlCount (snd (result r0)) = urlCount st + 1))
  \/ (urlCount st = MaxURLs (opts f)
      /\ yieldCount (events r0) = 1
      /\ fst (result rN) = Some (ErrMaxURLs (MaxURLs (opts f)))
      /\ yieldCount (events rN) = 0).
Proof.
  intros Hc. cbn zeta. rewrite !onURL_split, !bind_run.
  change (admission E (unlimited f) current entry st w)
    with (admission E f current entry st w).
  pose proof (admission_no_yield current entry st w) as Hny.
  pose proof (admission_state E f current entry st w) as (_ & _ & _ & Hu & _).
  set (w1 := world (admission E f current entry st w)) in *.
  set (evs := events (admission E f current entry st w)) in *.
  destruct (result (admission E f current entry st w)) as [a st1].
  cbn [fst snd] in *.
  destruct a as [|err|u].
  - left. cbn. rewrite app_nil_r. repeat split; assumption.
  - left. cbn. rewrite app_nil_r. repeat split; assumption.
  - destruct (Z_lt_le_dec (urlCount st) (MaxURLs (opts f))) as [Hlt|Hge].
    + right. left. rewrite deliver_below by lia. rewrite deliver_unlimited.
      cbn [result world events fst snd].
      split; [reflexivity|]. split; [exact Hlt|].
      split; [rewrite yieldCount_app, Hny; reflexivity|].
      destruct (fst (yield (itemOf current entry u) w1)); [discriminate|].
      intros _. cbn. rewrite Hu. apply wrap64_small.
      unfold minInt. unfold maxInt in *. lia.
    + right. right. rewrite deliver_at_limit by lia. rewrite deliver_unlimited.
      cbn [result world events fst snd].
      split; [lia|]. split; [rewrite yieldCount_app, Hny; reflexivity|].
      split; [reflexivity|]. now rewrite app_nil_r.
Qed.

End Limit.

Section ParseUnfold.
Context `{L : GoLib} {W : Type} (E : Env W) {S : Type}.
Variable cbU : xmlURLEntry.t -> S -> M W (option error * S).
Variable cbS : xmlSitemapEntry.t -> S -> M W (option error * S).

Lemma parseEvents_cancelled (evs : list xmlEvent) (final : option error)
    (s : S) (w : W) (err : error) :
  fst (ctx_Err E w) = Some err ->
  parseEvents E evs final (Some cbU) (Some cbS) s w
  = (Some err, s, snd (ctx_Err E w), []).
Proof.
  intros Hc. destruct evs; cbn [parseEvents]; now rewrite perform_bind, Hc.
Qed.

Lemma parseEvents_nil (final : option error) (s : S) (w : W) :
  fst (ctx_Err E w) = None ->
  parseEvents E [] final (Some cbU) (Some cbS) s w
  = (final, s, snd (ctx_Err E w), []).
Proof. intros Hc. cbn [parseEvents]. now rewrite perform_bind, Hc. Qed.

Lemma parseEvents_other (rest : list xmlEvent) (final : option error)
    (s : S) (w : W) :
  fst (ctx_Err E w) = None ->
  parseEvents E (XOther :: rest) final (Some cbU) (Some cbS) s w
  = parseEvents E rest final (Some cbU) (Some cbS) s (snd (ctx_Err E w)).
Proof. intros Hc. cbn [parseEvents]. now rewrite perform_bind, Hc. Qed.

Lemma parseEvents_url (entry : xmlURLEntry.t) (rest : list xmlEvent)
    (final : option error) (s : S) (w : W) :
  fst (ctx_Err E w) = None ->
  parseEvents E (XURL entry :: rest) final (Some cbU) (Some cbS) s w
  = let r := cbU entry s (snd (ctx_Err E w)) in
    match fst (result r) with
    | Some err => (Some err, snd (result r), world r, events r)
    | None =>
        let r' := parseEvents E rest final (Some cbU) (Some cbS)
                              (snd (result r)) (world r) in
        (result r', world r', events r ++ events r')
    end.
Proof.
  intros Hc. cbn [parseEvents]. rewrite perform_bind, Hc, bind_run. cbn zeta.
  destruct (result (cbU entry s _)) as [[err|] s1];
    cbn [fst snd result world events ret]; [now rewrite app_nil_r|reflexivity].
Qed.

Lemma parseEvents_sitemap (entry : xmlSitemapEntry.t) (rest : list xmlEvent)
    (final : option error) (s : S) (w : W) :
  fst (ctx_Err E w) = None ->
  parseEvents E (XSitemap entry :: rest) final (Some cbU) (Some cbS) s w
  = let r := cbS entry s (snd (ctx_Err E w)) in
    match fst (result r) with
    | Some err => (Some err, snd (result r), world r, events r)
    | None =>
        let r' := parseEvents E rest final (Some cbU) (Some cbS)
                              (snd (result r)) (world r) in
        (result r', world r', events r ++ events r')
    end.
Proof.
  intros Hc. cbn [parseEvents]. rewrite perform_bind, Hc, bind_run. cbn zeta.
  destruct (result (cbS entry s _)) as [[err|] s1];
    cbn [fst snd result world events ret]; [now rewrite app_nil_r|reflexivity].
Qed.

End ParseUnfold.

Section LimitParse.
Context `{L : GoLib} {W : Type} (E : Env W) (f : SitemapFetcher).
Variable yield : yieldFn (W := W).
Hypothesis Hlimit : 0 < MaxURLs (opts f) <= maxInt.

(** A document under the limit and without it: either the run without
    the limit stays within what is left of the limit and the two runs are
    the same, or it goes beyond and the run under the limit stops with the
    limit error after exactly what was left. *)
Lemma parseEvents_limit (current : sitemapTask) (evs : list xmlEvent)
    (final : option error) (st : walkState) (w : W) :
  0 <= urlCount st <= MaxURLs (opts f) ->
  let r0 := parseEvents E evs final
              (Some (onURL E (unlimited f) yield current))
              (Some (onSitemap current)) st w in
  let rN := parseEvents E evs final (Some (onURL E f yield current))
              (Some (onSitemap current)) st w in
  (yieldCount (events r0) <= MaxURLs (opts f) - urlCount st
   /\ rN = r0
   /\ (fst (result r0) = None ->
       urlCount (snd (result r0)) = urlCount st + yieldCount (events r0)))
  \/ (MaxURLs (opts f) - urlCount st < yieldCount (events r0)
      /\ fst (result rN) = Some (ErrMaxURLs (MaxURLs (opts f)))
      /\ yieldCount (events rN) = MaxURLs (opts f) - urlCount st
      /\ yielded (events rN) `prefix_of` yielded (events r0)).
Proof.
  revert st w. induction evs as [|ev evs IH]; intros st w Hc; cbn zeta.
  - destruct (fst (ctx_Err E w)) as [cerr|] eqn:Hctx.
    + rewrite !(parseEvents_cancelled E _ _ _ _ _ _ cerr Hctx).
      left. cbn [events result world fst snd]. change (yieldCount []) with 0.
      split; [lia|]. split; [reflexivity|discriminate].
    + rewrite !(parseEvents_nil E _ _ _ _ _ Hctx).
      left. cbn [events result world fst snd]. change (yieldCount []) with 0.
      split; [lia|]. split; [reflexivity|]. intros _. lia.
  - destruct (fst (ctx_Err E w)) as [cerr|] eqn:Hctx.
    { rewrite !(parseEvents_cancelled E _ _ _ _ _ _ cerr Hctx).
      left. cbn [events result world fst snd]. change (yieldCount []) with 0.
      split; [lia|]. split; [reflexivity|discriminate]. }
    destruct ev as [entry|entry|].
    + rewrite !(parseEvents_url E _ _ _ _ _ _ _ Hctx). cbn zeta.
      set (w1 := snd (ctx_Err E w)).
      destruct (onURL_limit E f yield Hlimit current entry st w1 Hc)
        as [(Heq & Hy & Hu)|[(Heq & Hlt & Hy & Hu)|(Hat & Hy & Herr & HyN)]];
        cbn zeta in *.
      * rewrite Heq.
        destruct (fst (result (onURL E (unlimited f) yield current entry st w1)))
          as [err|] eqn:Hres.
        -- left. cbn [events result fst snd]. rewrite Hy.
           split; [lia|]. split; [reflexivity|discriminate].
        -- specialize (IH (snd (result (onURL E (unlimited f) yield current
                                          entry st w1)))
                          (world (onURL E (unlimited f) yield current
                                    entry st w1))).
           rewrite Hu in IH.
           destruct (IH Hc) as [(Hle & -> & Hcnt)|(Hgt & He & Hn & Hp)].
           ++ left. cbn [events result fst snd].
              rewrite yieldCount_app, Hy.
              split; [lia|]. split; [reflexivity|].
              intros Hnone. rewrite (Hcnt Hnone). lia.
           ++ right. cbn [events result fst snd].
              rewrite !yieldCount_app, Hy.
              split; [lia|]. split; [exact He|]. split; [lia|].
              rewrite !yielded_app. now apply prefix_app.
      * rewrite Heq.
        destruct (fst (result (onURL E (unlimited f) yield current entry st w1)))
          as [err|] eqn:Hres.
        -- left. cbn [events result fst snd]. rewrite Hy.
           split; [lia|]. split; [reflexivity|discriminate].
        -- specialize (Hu eq_refl).
           specialize (IH (snd (result (onURL E (unlimited f) yield current
                                          entry st w1)))
                          (world (onURL E (unlimited f) yield current
                                    entry st w1))).
           rewrite Hu in IH.
           destruct (IH ltac:(lia)) as [(Hle & -> & Hcnt)|(Hgt & He & Hn & Hp)].
           ++ left. cbn [events result fst snd].
              rewrite yieldCount_app, Hy.
              split; [lia|]. split; [reflexivity|].
              intros Hnone. rewrite (Hcnt Hnone). lia.
           ++ right. cbn [events result fst snd].
              rewrite !yieldCount_app, Hy.
              split; [lia|]. split; [exact He|]. split; [lia|].
              rewrite !yielded_app. now apply prefix_app.
      * right. rewrite Herr. cbn [events result fst snd].
        split; [|split; [reflexivity|split; [lia|]]];
          [|rewrite (yieldCount_zero _ HyN); apply prefix_nil].
        destruct (fst (result (onURL E (unlimited f) yield current entry st w1)));
          cbn [events snd]; rewrite ?yieldCount_app;
          pose proof (yieldCount_nonneg
                        (events (parseEvents E evs final
                           (Some (onURL E (unlimited f) yield current))
                           (Some (onSitemap current))
                           (snd (result (onURL E (unlimited f) yield current
                                           entry st w1)))
                           (world (onURL E (unlimited f) yield current
                                     entry st w1))))); lia.
    + rewrite !(parseEvents_sitemap E _ _ _ _ _ _ _ Hctx). cbn zeta.
      destruct (onSitemap_run current entry st (snd (ctx_Err E w))) as (q & ->).
      cbn [result world events fst snd app].
      destruct (IH (setQueue st (queue st ++ q)) (snd (ctx_Err E w)) Hc)
        as [(Hle & -> & Hcnt)|(Hgt & He & Hn & Hp)].
      * left. split; [exact Hle|]. split; [reflexivity|exact Hcnt].
      * right. split; [|split; [|split]]; assumption.
    + rewrite !(parseEvents_other E _ _ _ _ _ _ Hctx). now apply IH.
Qed.

End LimitParse.

Section LimitWalk.
Context `{L : GoLib} {W : Type} (E : Env W) (f : SitemapFetcher).
Variable yield : yieldFn (W := W).
Hypothesis Hlimit : 0 < MaxURLs (opts f) <= maxInt.

Lemma walkTask_limit (current : sitemapTask) (st : walkState) (w : W) :
  0 <= urlCount st <= MaxURLs (opts f) ->
  let r0 := walkTask E (unlimited f) yield current st w in
  let rN := walkTask E f yield current st w in
  (yieldCount (events r0) <= MaxURLs (opts f) - urlCount st
   /\ rN = r0
   /\ (forall st', result r0 = Continue st' ->
                   urlCount st' = urlCount st + yieldCount (events r0)))
  \/ (MaxURLs (opts f) - urlCount st < yieldCount (events r0)
      /\ result rN = Return (Some (ErrMaxURLs (MaxURLs (opts f))))
      /\ yieldCount (events rN) = MaxURLs (opts f) - urlCount st
      /\ yielded (events rN) `prefix_of` yielded (events r0)).
Proof.
  intros Hc. cbn zeta. rewrite !walkTask_split, !bind_run.
  change (beforeParse E (unlimited f) current st w)
    with (beforeParse E f current st w).
  pose proof (beforeParse_events E f current st w) as Hny.
  pose proof (beforeParse_urlCount E f current st w) as Hu.
  assert (Hy0 : yieldCount (events (beforeParse E f current st w)) = 0)
    by (unfold yieldCount; now rewrite Hny).
  set (w1 := world (beforeParse E f current st w)) in *.
  destruct (result (beforeParse E f current st w)) as [ctl|[reader st1]].
  - left. cbn [parseTask result world events fst snd ret].
    rewrite app_nil_r, Hy0. split; [lia|]. split; [reflexivity|].
    intros st' ->. now rewrite Z.add_0_r.
  - unfold parseTask, parseSitemap. rewrite !bind_run.
    rewrite <- Hu in Hc.
    destruct (parseEvents_limit E f yield Hlimit current
                (xmlEvents (xml_Decode reader)) (xmlErr (xml_Decode reader))
                st1 w1 Hc) as [(Hle & -> & Hcnt)|(Hgt & He & Hn & Hp)];
      cbn zeta in *.
    + left. cbn [result world events fst snd].
      set (p := parseEvents E _ _ _ _ st1 w1) in *.
      destruct (result p) as [[err|] st2];
        cbn [result world events fst snd ret] in *;
        rewrite !yieldCount_app, Hy0, app_nil_r;
        change (yieldCount []) with 0;
        (split; [lia|]); (split; [reflexivity|]).
      * intros st' [=].
      * intros st' [= <-]. rewrite (Hcnt eq_refl). lia.
    + right. cbn [result world events fst snd].
      set (p0 := parseEvents E _ _ (Some (onURL E (unlimited f) yield current))
                    _ st1 w1) in *.
      set (pN := parseEvents E _ _ (Some (onURL E f yield current))
                    _ st1 w1) in *.
      destruct (result pN) as [perr stN]. cbn [fst] in He. subst perr.
      destruct (result p0) as [[err0|] st0];
        cbn [result world events fst snd ret];
        rewrite !app_nil_r, !yieldCount_app, !Hy0;
        (split; [lia|]); (split; [reflexivity|]); (split; [lia|]);
        rewrite !yielded_app; now apply prefix_app.
Qed.

Lemma walkLoop_limit (fuel : nat) (st : walkState) (w : W) :
  0 <= urlCount st <= MaxURLs (opts f) ->
  MaxURLs (opts f) - urlCount st
    < yieldCount (events (walkLoop E (unlimited f) yield fuel st w)) ->
  result (walkLoop E f yield fuel st w)
    = Returned (Some (ErrMaxURLs (MaxURLs (opts f))))
  /\ yieldCount (events (walkLoop E f yield fuel st w))
     = MaxURLs (opts f) - urlCount st
  /\ yielded (events (walkLoop E f yield fuel st w))
     `prefix_of` yielded (events (walkLoop E (unlimited f) yield fuel st w)).
Proof.
  revert st w. induction fuel as [|fuel IH]; intros st w Hc;
    (destruct st as [q sn rc sc uc]; destruct q as [|current rest];
     cbn [walkLoop queue urlCount] in *);
    try (intros Hmore; exfalso;
         change (MaxURLs (opts f) - uc < 0) in Hmore; lia).
  rewrite !perform_bind.
  destruct (fst (ctx_Err E w)) as [cerr|];
    [intros Hmore; exfalso;
     change (MaxURLs (opts f) - uc < 0) in Hmore; lia|].
  rewrite !bind_run. cbn [result world events fst snd].
  set (st0 := setQueue _ rest).
  set (w1 := snd (ctx_Err E w)).
  destruct (walkTask_limit current st0 w1 Hc)
    as [(Hle & -> & Hcnt)|(Hgt & Hres & Hn & Hp)]; cbn zeta in *;
    change (urlCount st0) with uc in *.
  - set (t := walkTask E (unlimited f) yield current st0 w1) in *.
    destruct (result t) as [st'|err].
    + specialize (Hcnt st' eq_refl).
      rewrite !yieldCount_app. intros Hmore.
      pose proof (yieldCount_nonneg (events t)) as Hpos.
      destruct (IH st' (world t)) as (Hr & Hy & Hp); [lia|lia|].
      split; [exact Hr|]. split; [rewrite Hy; lia|].
      rewrite !yielded_app. now apply prefix_app.
    + cbn [events ret snd]. rewrite app_nil_r. lia.
  - intros _. rewrite Hres. cbn [result events ret fst snd].
    rewrite app_nil_r. split; [reflexivity|]. split; [exact Hn|].
    rewrite yielded_app. now apply prefix_app_r.
Qed.

(** A loop that has returned returns the same with more fuel. *)
Lemma walkLoop_more_fuel (fuel fuel' : nat) (st : walkState) (w : W) :
  result (walkLoop E f yield fuel st w) <> OutOfFuel ->
  (fuel <= fuel')%nat ->
  walkLoop E f yield fuel' st w = walkLoop E f yield fuel st w.
Proof.
  revert fuel' st w. induction fuel as [|fuel IH]; intros fuel' st w Hret Hle;
    (destruct st as [q sn rc sc uc]; destruct q as [|current rest];
     [destruct fuel'; reflexivity|]).
  - cbn in Hret. congruence.
  - destruct fuel' as [|fuel']; [lia|].
    cbn [walkLoop queue] in *. rewrite !perform_bind in *.
    destruct (fst (ctx_Err E w)) as [cerr|]; [reflexivity|].
    rewrite !bind_run in *. cbn [result fst snd] in Hret.
    destruct (result (walkTask E f yield current _ _)) as [st'|err];
      [|reflexivity].
    rewrite (IH fuel' st' _ Hret); [reflexivity|lia].
Qed.

End LimitWalk.

(** C2. With MaxURLs = N > 0, whenever the same traversal without the
    limit would invoke yield more than N times, Walk invokes yield exactly
    N times, for the first N items of that traversal, and returns the
    error for the URL limit, for every amount of fuel that lets the
    traversal without the limit get that far.  The
    limit is tested before the counter is raised: an admitted entry that
    finds the counter at N is not yielded and leaves the counter alone,
    and one that finds it below N is yielded first. *)
Theorem max_urls_yields_exactly_limit `{L : GoLib} {W : Type} (E : Env W)
    (f : SitemapFetcher) (fuel : nat) (website : option URL)
    (yield : yieldFn (W := W)) (w : W) :
  0 < MaxURLs (opts f) <= maxInt ->
  MaxURLs (opts f)
    < yieldCount (events (Walk E (unlimited f) fuel website (Some yield) w)) ->
  (forall fuel', (fuel <= fuel')%nat ->
     result (Walk E f fuel' website (Some yield) w)
       = Returned (Some (ErrMaxURLs (MaxURLs (opts f))))
     /\ yieldCount (events (Walk E f fuel' website (Some yield) w))
        = MaxURLs (opts f)
     /\ yielded (events (Walk E f fuel' website (Some yield) w))
        = take (Z.to_nat (MaxURLs (opts f)))
               (yielded (events (Walk E (unlimited f) fuel website
                                      (Some yield) w))))
  /\ (forall current entry u st w',
        urlCount st = MaxURLs (opts f) ->
        deliver f yield current entry (Admit u) st w'
        = (Some (ErrMaxURLs (MaxURLs (opts f))), st, w', []))
  /\ (forall current entry u st w',
        urlCount st < MaxURLs (opts f) ->
        events (deliver f yield current entry (Admit u) st w')
        = [EvYield (itemOf current entry u)]).
Proof.
  intros Hlimit Hmore. split; [|split].
  - intros fuel' Hfuel. revert Hmore. unfold Walk.
    destruct (normalizeInputURL website) as [err|[input base]];
      [intros Hmore; exfalso; change (MaxURLs (opts f) < 0) in Hmore; lia|].
    rewrite !bind_run.
    change (seed E (unlimited f) input base w) with (seed E f input base w).
    assert (Hseed : yieldCount (events (seed E f input base w)) = 0).
    { unfold yieldCount.
      now rewrite (net_no_yield _ (request_is_net _
                     (seed_events E f input base w))). }
    set (w1 := world (seed E f input base w)) in *.
    destruct (result (seed E f input base w)) as [initial cache].
    cbn [result world events fst snd].
    destruct (Z.of_nat (length initial) =? 0).
    { intros Hmore; exfalso. cbn [events ret snd] in Hmore.
      rewrite app_nil_r, Hseed in Hmore. lia. }
    rewrite !yieldCount_app, Hseed. intros Hmore.
    destruct (walkLoop_limit E f yield Hlimit fuel (initialState initial cache) w1)
      as (Hres & Hcnt & Hpre); [cbn; lia|cbn [initialState urlCount]; lia|].
    cbn [initialState urlCount] in Hcnt.
    rewrite (walkLoop_more_fuel E f yield fuel fuel' _ w1);
      [|rewrite Hres; discriminate|exact Hfuel].
    split; [exact Hres|]. split; [rewrite Hcnt; lia|].
    rewrite !yielded_app, (yieldCount_zero _ Hseed). cbn [app].
    rewrite (prefix_is_take _ _ Hpre). f_equal.
    unfold yieldCount in Hcnt. lia.
  - intros current entry u st w' Hc. now apply deliver_at_limit.
  - intros current entry u st w' Hc.
    rewrite (deliver_below f yield current entry (Admit u) st w' Hc).
    now rewrite deliver_unlimited.
Qed.

(** MaxURLs = 1 against the document with two entries: one item, then the
    limit error. *)
Lemma max_urls_yields_exactly_limit_witness :
  result (Walk (Testbed.serverEnv Testbed.twoSite) Testbed.oneURL 2
               (Testbed.parsed Testbed.sitemapURL) (Some Testbed.collect) 0)
    = Returned (Some (ErrMaxURLs 1))
  /\ yieldCount (events
       (Walk (Testbed.serverEnv Testbed.twoSite) Testbed.oneURL 2
             (Testbed.parsed Testbed.sitemapURL) (Some Testbed.collect) 0))
     = 1.
Proof.
  refine (let H := proj1 (max_urls_yields_exactly_limit
                            (Testbed.serverEnv Testbed.twoSite) Testbed.oneURL 1
                            (Testbed.parsed Testbed.sitemapURL) Testbed.collect
                            0 _ _) 2%nat _ in
          conj (proj1 H) (proj1 (proj2 H))).
  - unfold maxInt. cbn. lia.
  - vm_compute. reflexivity.
  - lia.
Defined.

(** * Further properties of the package *)

(** ** normalizeInputURL and the entry of Walk *)

Lemma normalizeInputURL_error `{L : GoLib} (website : option URL)
    (err : error) :
  normalizeInputURL website = inl err ->
  exists s cause, err = ErrInvalidURL s cause.
Proof.
  destruct website as [u|]; cbn [normalizeInputURL].
  - destruct (isEmpty (Host _)); [|discriminate].
    intros [= <-]. eexists _, _. reflexivity.
  - intros [= <-]. eexists _, _. reflexivity.
Qed.

Lemma normalizeInputURL_base `{L : GoLib} (website : option URL)
    (input base : URL) :
  normalizeInputURL website = inr (input, base) ->
  base = originURL (Scheme input) (Host input).
Proof.
  destruct website as [u|]; cbn [normalizeInputURL]; [|discriminate].
  destruct (isEmpty (Host _)); [discriminate|]. now intros [= <- <-].
Qed.

(** X1. normalizeInputURL fails exactly for a nil URL and for a URL
    without host, always with ErrInvalidURL.  Otherwise the input it gives
    is the URL with the scheme https filled in when there was none and the
    fragment removed, so it has a scheme and a host and no fragment; the
    base is the URL made of that scheme and host alone; and normalizing
    the input again changes nothing. *)
Theorem normalizeInputURL_normal_form `{L : GoLib} (website : option URL) :
  match normalizeInputURL website with
  | inl err =>
      (website = None \/ exists u, website = Some u /\ Host u = "")
      /\ exists s cause, err = ErrInvalidURL s cause
  | inr (input, base) =>
      exists u,
        website = Some u
        /\ Host u <> ""
        /\ input = setFragment (if isEmpty (Scheme u)
                                then setScheme u "https" else u) ""
        /\ Scheme input <> "" /\ Host input = Host u /\ Fragment input = ""
        /\ base = originURL (Scheme input) (Host input)
        /\ normalizeInputURL (Some input) = inr (input, base)
  end.
Proof.
  destruct website as [u|]; cbn [normalizeInputURL].
  2:{ split; [now left|]. eexists _, _. reflexivity. }
  assert (Hhost : Host (if isEmpty (Scheme u) then setScheme u "https" else u)
                  = Host u) by now destruct (isEmpty (Scheme u)).
  rewrite Hhost.
  destruct (isEmpty (Host u)) eqn:Hh.
  { split; [right; exists u; split; [reflexivity|now apply isEmpty_true]|].
    eexists _, _. reflexivity. }
  exists u. set (v := if isEmpty (Scheme u) then setScheme u "https" else u).
  assert (Hv : isEmpty (Scheme v) = false).
  { subst v. destruct (isEmpty (Scheme u)) eqn:Hs; [reflexivity|exact Hs]. }
  split; [reflexivity|]. split; [now apply isEmpty_false|].
  split; [reflexivity|]. cbn [setFragment Scheme Host Fragment].
  split; [now apply isEmpty_false|]. split; [exact Hhost|].
  split; [reflexivity|]. split; [reflexivity|].
  rewrite Hv. cbn [setFragment Host]. fold v in Hhost.
  rewrite Hhost, Hh. reflexivity.
Qed.

(** X2. Walk answers a nil yield with ErrNilYield and an input that does
    not normalize with the error of normalizeInputURL, in both cases
    before anything else happens: no request is made, nothing is fetched
    or yielded, the world is as it was, and no fuel is needed.  The nil
    yield is tested first. *)
Theorem Walk_rejects_before_any_request `{L : GoLib} {W : Type} (E : Env W)
    (f : SitemapFetcher) (fuel : nat) (website : option URL) (w : W) :
  Walk E f fuel website None w = (Returned (Some ErrNilYield), w, [])
  /\ (forall cb,
        match normalizeInputURL website with
        | inl err =>
            Walk E f fuel website (Some cb) w = (Returned (Some err), w, [])
            /\ exists s cause, err = ErrInvalidURL s cause
        | inr _ => True
        end)
  /\ (forall cb,
        Walk E f fuel None (Some cb) w
        = (Returned (Some (ErrInvalidURL "" (errorsNew "nil URL"))), w, [])).
Proof.
  split; [reflexivity|]. split; [|reflexivity].
  intros cb. unfold Walk.
  pose proof (normalizeInputURL_error website) as Hn.
  destruct (normalizeInputURL website) as [err|[input base]]; [|exact I].
  split; [reflexivity|now apply Hn].
Qed.

(** ** How Walk hands on a parse error *)

(** X3. The error Walk returns for a failed parse keeps what the parse
    error is: an error that is or wraps a context error, an ErrMaxURLs or
    an ErrYield is returned as it is; any other error is wrapped into
    ErrSitemapParse with the location of the task, and Unwrap gives it
    back.  So the three tests, errors.Is for the context errors and
    errors.As for ErrMaxURLs and ErrYield, answer on the result of Walk
    what they answer on the parse error. *)
Theorem classifyParseError_keeps_class (current : sitemapTask) (err : error) :
  classifyParseError current err
  = (if isContextError err || asErrMaxURLs err || asErrYield err then err
     else ErrSitemapParse (loc current) err)
  /\ (classifyParseError current err = err
      \/ Unwrap (classifyParseError current err) = Some err)
  /\ isContextError (classifyParseError current err) = isContextError err
  /\ asErrMaxURLs (classifyParseError current err) = asErrMaxURLs err
  /\ asErrYield (classifyParseError current err) = asErrYield err.
Proof.
  unfold classifyParseError.
  destruct (isContextError err) eqn:Hc; cbn [orb].
  { split; [reflexivity|]. split; [now left|]. repeat split; assumption. }
  destruct (asErrMaxURLs err) eqn:Hm; cbn [orb].
  { split; [reflexivity|]. split; [now left|]. repeat split; assumption. }
  destruct (asErrYield err) eqn:Hy.
  { split; [reflexivity|]. split; [now left|]. repeat split; assumption. }
  split; [reflexivity|]. split; [now right|]. cbn. repeat split; assumption.
Qed.

(** ** Closing the reader *)

Lemma closeFrom_run {C : Type} (closers : list (Closer C))
    (firstErr : option error) (c : C) :
  closeFrom closers firstErr c
  = (match firstErr with
     | Some e => Some e
     | None => head (omap id (closeErrors closers c))
     end,
     fold_left (fun c closer => snd (closer c)) closers c).
Proof.
  revert firstErr c. induction closers as [|closer rest IH]; intros fe c.
  - cbn. now destruct fe.
  - cbn [closeFrom closeErrors fold_left].
    destruct (closer c) as [err c1]. cbn [fst snd]. rewrite IH.
    destruct err as [e|], fe as [e'|]; reflexivity.
Qed.

(** X4. multiCloser.Close closes every closer, in order and also after
    one of them has failed, and returns the error of the first that
    failed, nil when none did.  wrapReader gives a reader with a Close
    method exactly when it gives a reader.  On the gzip path Close closes
    the decompressor, then the body, then cancels the request, and
    answers the decompressor's error or else the body's; on the plain
    path it cancels the request first and answers what closing the body
    answers.  On both paths the body is closed and the request cancelled
    once. *)
Theorem multiCloser_Close_closes_all {C : Type} (closers : list (Closer C))
    (c : C) :
  snd (multiCloser_Close closers c)
  = fold_left (fun c closer => snd (closer c)) closers c
  /\ fst (multiCloser_Close closers c)
     = head (omap id (closeErrors closers c))
  /\ length (closeErrors closers c) = length closers
  /\ (forall (L : GoLib) (resp : Response) (gz body : Closer C)
             (cancel : option (C -> C)),
        match wrapReader_Close resp gz body cancel with
        | inl err => wrapReader resp = inl err
        | inr close =>
            (exists reader, wrapReader resp = inr reader)
            /\ close c
               = (if hasGzipMagic (bytes (Body resp))
                  then (match fst (gz c) with
                        | Some e => Some e
                        | None => fst (body (snd (gz c)))
                        end,
                        runCancel cancel (snd (body (snd (gz c)))))
                  else body (runCancel cancel c))
        end).
Proof.
  unfold multiCloser_Close. rewrite closeFrom_run. cbn [fst snd].
  split; [reflexivity|]. split; [reflexivity|]. split.
  - revert c. induction closers as [|closer rest IH]; intros c;
      [reflexivity|]. cbn. now rewrite IH.
  - intros L resp gz body cancel. unfold wrapReader_Close, wrapReader.
    pose proof (Peek_magic (Body resp) defaultBufSize) as Hm.
    destruct (Peek 2 (NewReaderSize (Body resp) defaultBufSize))
      as [[peek err] reader].
    cbn [fst snd] in Hm. rewrite Hm.
    destruct (hasGzipMagic (bytes (Body resp))).
    + destruct (gzip_NewReader (bufioStream reader)) as [e|rd];
        [reflexivity|].
      split; [now exists rd|].
      unfold multiCloser_Close. rewrite closeFrom_run.
      cbn [closeErrors fold_left cancelCloser_Close fst snd].
      destruct (fst (gz c)) as [e|]; [reflexivity|].
      destruct (fst (body (snd (gz c)))) as [e|]; reflexivity.
    + split; [now eexists|reflexivity].
Qed.

(** ** The retry loop against any server *)

Section FetchBounds.
Context `{L : GoLib} {W : Type} (E : Env W) (f : SitemapFetcher).

Lemma fetchSitemapFrom_retryEvents (remaining : nat) (attempt : Z) (u : URL)
    (am : bool) (w : W) :
  Forall (retryEvent f u)
         (events (fetchSitemapFrom E f remaining attempt u am w)).
Proof.
  revert attempt w.
  induction remaining as [|remaining IH]; intros attempt w;
    cbn [fetchSitemapFrom]; [constructor|].
  destruct (newRequest f MethodGet u) as [err|req] eqn:Hreq; [constructor|].
  rewrite emit_bind, perform_bind. cbn [events].
  constructor; [exact Hreq|].
  destruct (fst (client_Do E req w)) as [err|resp]; [constructor|].
  destruct (StatusCode resp =? StatusTooManyRequests).
  - rewrite events_bind, retryAfterDelay_events. cbn [app].
    destruct (attempt =? maxRetryAttempts); [constructor|].
    rewrite events_bind, sleepWithContext_events.
    apply Forall_app. split.
    + pose proof (backoffDelay_bounds
                    (result (retryAfterDelay E (Some resp)
                               (snd (client_Do E req w))))) as Hb.
      destruct (_ <=? 0); repeat constructor; apply Hb.
    + destruct (result (sleepWithContext E _ _)); [constructor|apply IH].
  - destruct (_ || _).
    + destruct (AllowNon200 (opts f)); [constructor|].
      destruct (am && _); constructor.
    + destruct (wrapReader resp); constructor.
Qed.

Lemma requested_cons (e : event) (l : list event) :
  requested (e :: l) = requested [e] ++ requested l.
Proof. exact (requested_app [e] l). Qed.

Lemma slept_cons (e : event) (l : list event) :
  slept (e :: l) = slept [e] ++ slept l.
Proof. exact (slept_app [e] l). Qed.

Lemma sleepWithContext_counts (delay : Z) (w : W) :
  requested (events (sleepWithContext E delay w)) = []
  /\ (length (slept (events (sleepWithContext E delay w))) <= 1)%nat.
Proof.
  rewrite sleepWithContext_events. destruct (delay <=? 0); cbn; split;
    (reflexivity || lia).
Qed.

Lemma fetchSitemapFrom_counts (remaining : nat) (attempt : Z) (u : URL)
    (am : bool) (w : W) :
  attempt + Z.of_nat remaining = maxRetryAttempts + 1 ->
  let evs := events (fetchSitemapFrom E f remaining attempt u am w) in
  (length (requested evs) <= remaining)%nat
  /\ (length (slept evs) <= remaining - 1)%nat.
Proof.
  cbn zeta. revert attempt w.
  induction remaining as [|remaining IH]; intros attempt w Hsum;
    cbn [fetchSitemapFrom]; [cbn; lia|].
  destruct (newRequest f MethodGet u) as [err|req] eqn:Hreq; [cbn; lia|].
  rewrite emit_bind, perform_bind. cbn [events snd].
  rewrite requested_cons, slept_cons, !length_app.
  change (length (requested [EvRequest req])) with 1%nat.
  change (length (slept [EvRequest req])) with 0%nat.
  destruct (fst (client_Do E req w)) as [err|resp]; [cbn; lia|].
  destruct (StatusCode resp =? StatusTooManyRequests).
  - rewrite events_bind, retryAfterDelay_events. cbn [app].
    destruct (attempt =? maxRetryAttempts) eqn:Hlast; [cbn; lia|].
    apply Z.eqb_neq in Hlast.
    rewrite events_bind.
    rewrite requested_app, slept_app, !length_app.
    destruct (sleepWithContext_counts
                (backoffDelay (result (retryAfterDelay E (Some resp)
                                         (snd (client_Do E req w)))))
                (world (retryAfterDelay E (Some resp)
                          (snd (client_Do E req w))))) as [Hr Hs].
    rewrite Hr.
    destruct (result (sleepWithContext E _ _)).
    + change (events (ret (inl e) _)) with (@nil event).
      change (requested []) with (@nil string).
      change (slept []) with (@nil Z). cbn [length].
      unfold maxRetryAttempts in *. lia.
    + destruct (IH (attempt + 1)
                  (world (sleepWithContext E
                     (backoffDelay (result (retryAfterDelay E (Some resp)
                                              (snd (client_Do E req w)))))
                     (world (retryAfterDelay E (Some resp)
                               (snd (client_Do E req w)))))))
        as [Hrq Hsl]; [lia|].
      cbn [length]. unfold maxRetryAttempts in *. lia.
  - destruct (_ || _).
    + destruct (AllowNon200 (opts f)); [cbn; lia|].
      destruct (am && _); cbn; lia.
    + destruct (wrapReader resp); cbn; lia.
Qed.

End FetchBounds.

Lemma newRequest_shape `{L : GoLib} (f : SitemapFetcher) (method : string)
    (u : URL) (r : Request) :
  newRequest f method u = inr r ->
  r = {| reqMethod := method; reqURL := url_String u;
         reqUserAgent := UserAgent (opts f);
         reqTimeout := if 0 <? PerRequestTimeout (opts f)
                       then PerRequestTimeout (opts f) else 0 |}.
Proof.
  unfold newRequest. destruct (http_NewRequest _ _); [discriminate|].
  now intros [= <-].
Qed.

Lemma retryEvent_lists `{L : GoLib} (f : SitemapFetcher) (u : URL)
    (evs : list event) :
  Forall (retryEvent f u) evs ->
  fetched evs = [] /\ yielded evs = []
  /\ Forall (fun url => url = url_String u) (requested evs)
  /\ Forall (fun d => 0 < d <= maxRetryDelay) (slept evs).
Proof.
  induction 1 as [|e evs He _ (IHf & IHy & IHr & IHs)];
    [repeat split; constructor|].
  destruct e as [r|d|v|it]; cbn in He; try contradiction.
  - repeat split; try assumption.
    rewrite requested_cons. apply Forall_app. split; [|exact IHr].
    apply newRequest_shape in He. subst r. repeat constructor.
  - repeat split; try assumption.
    rewrite slept_cons. apply Forall_app. split; [|exact IHs].
    repeat constructor; apply He.
Qed.

Lemma fetchSitemap_lists `{L : GoLib} {W : Type} (E : Env W)
    (f : SitemapFetcher) (u : URL) (am : bool) (w : W) :
  let evs := events (fetchSitemap E f u am w) in
  fetched evs = [u] /\ yielded evs = []
  /\ (length (requested evs) <= 4)%nat
  /\ (length (slept evs) <= 3)%nat.
Proof.
  cbn zeta. unfold fetchSitemap. rewrite emit_bind. cbn [events snd].
  set (n := Z.to_nat (maxRetryAttempts + 1)).
  destruct (retryEvent_lists f u _
              (fetchSitemapFrom_retryEvents E f n 0 u am w))
    as (Hf & Hy & _).
  destruct (fetchSitemapFrom_counts E f n 0 u am w) as [Hrq Hsl];
    [reflexivity|].
  cbn zeta in Hrq, Hsl. change n with 4%nat in Hrq, Hsl.
  rewrite requested_cons, slept_cons.
  change (requested [EvFetch u]) with (@nil string).
  change (slept [EvFetch u]) with (@nil Z). cbn [app].
  split.
  { change (fetched (EvFetch u :: ?l)) with (u :: fetched l).
    now rewrite Hf. }
  split; [exact Hy|]. split; [exact Hrq|exact Hsl].
Qed.

(** X5. Whatever the server and the context do, one call of fetchSitemap
    makes at most four requests, all for the serialized location, and
    waits at most three times, each time for a positive delay of at most
    maxRetryDelay (30 s); it enters the trace once and yields nothing. *)
Theorem fetchSitemap_bounded `{L : GoLib} {W : Type} (E : Env W)
    (f : SitemapFetcher) (u : URL) (am : bool) (w : W) :
  let evs := events (fetchSitemap E f u am w) in
  fetched evs = [u] /\ yielded evs = []
  /\ (length (requested evs) <= 4)%nat
  /\ (length (slept evs) <= 3)%nat
  /\ Forall (fun url => url = url_String u) (requested evs)
  /\ Forall (fun d => 0 < d <= maxRetryDelay) (slept evs).
Proof.
  cbn zeta.
  destruct (fetchSitemap_lists E f u am w) as (Hf & Hy & Hrq & Hsl).
  split; [exact Hf|]. split; [exact Hy|].
  split; [exact Hrq|]. split; [exact Hsl|].
  unfold fetchSitemap. rewrite emit_bind. cbn [events snd].
  destruct (retryEvent_lists f u _
              (fetchSitemapFrom_retryEvents E f
                 (Z.to_nat (maxRetryAttempts + 1)) 0 u am w))
    as (_ & _ & Hr & Hs).
  rewrite requested_cons, slept_cons.
  change (requested [EvFetch u]) with (@nil string).
  change (slept [EvFetch u]) with (@nil Z). cbn [app].
  split; assumption.
Qed.

(** X6. Only the status 429 is tried again.  When the request can be
    built, a transport error of the client is returned as it is, and a
    response with any status other than 429 settles the call after this
    one request: a status from 200 to 299 gives the reader of wrapReader,
    or its error; any other status gives no reader and no error when
    AllowNon200 is set, or when the status is 404 and the task allows a
    missing sitemap, and ErrHTTPStatus with the location, the status code
    and the status text otherwise. *)
Theorem fetchSitemap_status_policy `{L : GoLib} {W : Type} (E : Env W)
    (f : SitemapFetcher) (u : URL) (am : bool) (req : Request) (w : W) :
  newRequest f MethodGet u = inr req ->
  match fst (client_Do E req w) with
  | inl err =>
      fetchSitemap E f u am w
      = (inl err, snd (client_Do E req w), [EvFetch u; EvRequest req])
  | inr resp =>
      StatusCode resp <> StatusTooManyRequests ->
      fetchSitemap E f u am w
      = (if (StatusCode resp <? StatusOK)
            || (StatusCode resp >=? StatusMultipleChoices)
         then
           if AllowNon200 (opts f)
              || am && (StatusCode resp =? StatusNotFound)
           then inr None
           else inl (ErrHTTPStatus u (StatusCode resp) (Status resp))
         else
           match wrapReader resp with
           | inl err => inl err
           | inr reader => inr (Some reader)
           end,
         snd (client_Do E req w), [EvFetch u; EvRequest req])
  end.
Proof.
  intros Hreq. unfold fetchSitemap. rewrite emit_bind.
  change (Z.to_nat (maxRetryAttempts + 1)) with 4%nat.
  cbn [fetchSitemapFrom]. rewrite Hreq, emit_bind, perform_bind.
  destruct (fst (client_Do E req w)) as [err|resp]; [reflexivity|].
  intros Hcode. apply Z.eqb_neq in Hcode. rewrite Hcode.
  destruct (_ || _).
  - destruct (AllowNon200 (opts f)); [reflexivity|]. cbn [orb].
    destruct (am && _); reflexivity.
  - destruct (wrapReader resp); reflexivity.
Qed.

(** The default probe of a site without sitemap: 404 is no error. *)
Lemma fetchSitemap_status_policy_witness :
  result (fetchSitemap (Testbed.serverEnv (Testbed.routes []))
                       (Testbed.fetcher Testbed.noOptions)
                       (Testbed.urlAt "example.com" "/sitemap.xml") true 0)
  = inr None.
Proof.
  pose proof (fetchSitemap_status_policy
                (Testbed.serverEnv (Testbed.routes []))
                (Testbed.fetcher Testbed.noOptions)
                (Testbed.urlAt "example.com" "/sitemap.xml") true
                Testbed.sitemapRequest 0 eq_refl) as H.
  cbn [fst Testbed.serverEnv client_Do] in H.
  rewrite H; [reflexivity|]. cbn. discriminate.
Defined.

(** ** What a traversal does to the network *)

Section Expected.
Context `{L : GoLib} {W : Type} (E : Env W) (f : SitemapFetcher).
Variable yield : yieldFn (W := W).

Lemma expected_mono (locs locs' : list URL) (e : event) :
  (forall u, u ∈ locs -> u ∈ locs') ->
  expected f locs e -> expected f locs' e.
Proof.
  intros Hsub. destruct e as [r|d|u|it]; cbn; try tauto.
  - intros [(u & Hu & Hr)|Hrob]; [left; exists u; split; auto|now right].
  - apply Hsub.
Qed.

Lemma robotsEvent_expected (locs : list URL) (evs : list event) :
  Forall (robotsEvent f) evs -> Forall (expected f locs) evs.
Proof.
  intros H. eapply Forall_impl; [exact H|].
  intros [r|d|u|it]; cbn; try contradiction. intros Hr. now right.
Qed.

Lemma robotsEvent_request (evs : list event) :
  Forall (robotsEvent f) evs -> Forall requestEvent evs.
Proof.
  intros H. eapply Forall_impl; [exact H|].
  intros [r|d|u|it]; cbn; try contradiction. trivial.
Qed.

Lemma getRobots_request (base : URL) (cache : gmap string robotsRules)
    (w : W) :
  events (getRobots E f base cache w) = []
  \/ exists r,
       events (getRobots E f base cache w) = [EvRequest r]
       /\ newRequest f MethodGet
            (url_ResolveReference base (pathURL "/robots.txt")) = inr r.
Proof.
  unfold getRobots.
  destruct (cache !! robotsKey base); [now left|].
  destruct (newRequest f MethodGet _) as [err|req] eqn:Hreq; [now left|].
  right. exists req. split; [|reflexivity].
  rewrite emit_bind, perform_bind. cbn [events snd].
  destruct (fst (client_Do E req w)) as [err|resp]; [reflexivity|].
  destruct (negb (StatusCode resp =? StatusOK)); [reflexivity|].
  destruct (robotstxt_FromResponse resp); reflexivity.
Qed.

Lemma robotsGate_robotsEvents (u : URL) (st : walkState) (w : W) :
  Forall (robotsEvent f) (events (robotsGate E f u st w)).
Proof.
  unfold robotsGate. destruct (IgnoreRobots (opts f)) eqn:Hig; [constructor|].
  rewrite events_bind. apply Forall_app. split.
  - unfold allowedByRobots. rewrite events_bind. apply Forall_app. split.
    + destruct (getRobots_request (originURL (Scheme u) (Host u))
                  (robotsCache st) w) as [->|(r & -> & Hr)]; [constructor|].
      repeat constructor; [exact Hig|]. exists (Scheme u), (Host u). exact Hr.
    + destruct (result (getRobots E f _ _ w)) as [[err|rules] cache'];
        [constructor|].
      destruct (group rules); constructor.
  - destruct (result (allowedByRobots E f u _ w)) as [[a e] c]. constructor.
Qed.

Lemma seed_robotsEvents (input base : URL) (w : W) :
  base = originURL (Scheme input) (Host input) ->
  Forall (robotsEvent f) (events (seed E f input base w)).
Proof.
  intros ->. unfold seed. rewrite events_bind. apply Forall_app. split.
  - destruct (negb (IgnoreRobots (opts f))) eqn:Hig; cbn [andb];
      [|constructor].
    apply negb_true_iff in Hig.
    destruct (negb (isLikelySitemapURL _)); [|constructor].
    rewrite events_bind. apply Forall_app. split.
    + destruct (getRobots_request (originURL (Scheme input) (Host input))
                  ∅ w) as [->|(r & -> & Hr)]; [constructor|].
      repeat constructor; [exact Hig|].
      exists (Scheme input), (Host input). exact Hr.
    + destruct (result (getRobots E f _ ∅ w)); constructor.
  - destruct (result _). constructor.
Qed.

Lemma admission_robotsEvents (current : sitemapTask) (entry : xmlURLEntry.t)
    (st : walkState) (w : W) :
  Forall (robotsEvent f) (events (admission E f current entry st w)).
Proof.
  unfold admission.
  destruct (resolveLocation _ _) as [e|u]; [constructor|].
  rewrite events_bind. apply Forall_app.
  split; [apply robotsGate_robotsEvents|].
  destruct (result (robotsGate E f u st w)) as [[allowed err] st1].
  destruct err; [constructor|]. destruct (negb allowed); [constructor|].
  destruct (negb _); constructor.
Qed.

Lemma onURL_expected (current : sitemapTask) (entry : xmlURLEntry.t)
    (st : walkState) (w : W) :
  Forall (expected f []) (events (onURL E f yield current entry st w)).
Proof.
  rewrite onURL_split, events_bind. apply Forall_app. split.
  - apply robotsEvent_expected, admission_robotsEvents.
  - pose proof (admission_result E f current entry st w) as Hadm.
    destruct (deliver_events f yield current entry
                (fst (result (admission E f current entry st w)))
                (snd (result (admission E f current entry st w)))
                (world (admission E f current entry st w)))
      as [->|(u & Ha & ->)]; [constructor|].
    rewrite Ha in Hadm. repeat constructor. apply Hadm.
Qed.

Lemma parseSitemap_expected (current : sitemapTask) (reader : Stream)
    (st : walkState) (w : W) :
  Forall (expected f [])
         (events (parseSitemap E reader (Some (onURL E f yield current))
                               (Some (onSitemap current)) st w)).
Proof.
  unfold parseSitemap.
  apply (parseEvents_invariant E (fun _ _ => True) (expected f [])); auto.
  - intros cb [= <-] e s w'. split; [exact I|apply onURL_expected].
  - intros cb [= <-] e s w'.
    destruct (onSitemap_run current e s w') as (q & ->).
    split; [exact I|constructor].
Qed.

Lemma fetched_cons_fetch (u : URL) (l : list event) :
  fetched (EvFetch u :: l) = u :: fetched l.
Proof. reflexivity. Qed.

(** The events of a turn: requests for robots.txt, then, if the task
    gets that far, one call of fetchSitemap and what the callbacks do. *)
Lemma walkTask_shape (current : sitemapTask) (st : walkState) (w : W) :
  exists gate tail w2,
    Forall (robotsEvent f) gate
    /\ Forall (expected f []) tail
    /\ (events (walkTask E f yield current st w) = gate
        \/ events (walkTask E f yield current st w)
           = gate ++ events (fetchSitemap E f (loc current)
                                          (allowMissing current) w2)
                  ++ tail).
Proof.
  unfold walkTask.
  destruct (_ && _);
    [exists [], [], w; split; [constructor|]; split; [constructor|];
     now left|].
  destruct (decide (_ ∈ seen st));
    [exists [], [], w; split; [constructor|]; split; [constructor|];
     now left|].
  set (st1 := setSeen st _).
  rewrite bind_run. cbn [events snd].
  pose proof (robotsGate_robotsEvents (loc current) st1 w) as Hgate.
  set (gate := events (robotsGate E f (loc current) st1 w)) in *.
  set (w2 := world (robotsGate E f (loc current) st1 w)).
  destruct (result (robotsGate E f (loc current) st1 w))
    as [[allowed err] st2].
  cbn [fst snd].
  destruct err as [err|];
    [exists gate, [], w; cbn [events ret snd]; rewrite app_nil_r;
     split; [assumption|]; split; [constructor|]; now left|].
  destruct (negb allowed);
    [exists gate, [], w; cbn [events ret snd]; rewrite app_nil_r;
     split; [assumption|]; split; [constructor|]; now left|].
  destruct (_ && _);
    [exists gate, [], w; cbn [events ret snd]; rewrite app_nil_r;
     split; [assumption|]; split; [constructor|]; now left|].
  rewrite bind_run. cbn [events snd].
  set (fe := events (fetchSitemap E f (loc current) (allowMissing current)
                       w2)).
  set (tail := events _).
  exists gate, tail, w2. split; [exact Hgate|]. split; [|now right].
  subst tail.
  destruct (result (fetchSitemap E f (loc current) _ w2))
    as [err|[reader|]]; [constructor| |constructor].
  rewrite bind_run. cbn [events snd].
  apply Forall_app. split; [apply parseSitemap_expected|].
  destruct (result (parseSitemap E reader _ _ _ _)) as [[perr|] st4];
    constructor.
Qed.

Lemma fetchSitemap_expected (u : URL) (am : bool) (w : W) :
  Forall (expected f [u]) (events (fetchSitemap E f u am w)).
Proof.
  unfold fetchSitemap. rewrite emit_bind. cbn [events snd].
  constructor; [now left|].
  eapply Forall_impl; [apply fetchSitemapFrom_retryEvents|].
  intros [r|d|v|it]; cbn; try contradiction; [|trivial].
  intros Hr. left. exists u. split; [now left|exact Hr].
Qed.

Lemma walkTask_expected (current : sitemapTask) (st : walkState) (w : W) :
  let evs := events (walkTask E f yield current st w) in
  Forall (expected f (fetched evs)) evs.
Proof.
  cbn zeta.
  destruct (walkTask_shape current st w)
    as (gate & tail & w2 & Hgate & Htail & [->| ->]);
    [now apply robotsEvent_expected|].
  assert (Hin : forall u, u ∈ [loc current] ->
                u ∈ fetched (gate ++ events (fetchSitemap E f (loc current)
                                               (allowMissing current) w2)
                                  ++ tail)).
  { intros u Hu. apply list_elem_of_singleton in Hu as ->.
    rewrite !fetched_app. apply elem_of_app. right. apply elem_of_app. left.
    unfold fetchSitemap. rewrite emit_bind. cbn [events snd].
    rewrite fetched_cons_fetch. now left. }
  set (locs := fetched _) in *.
  apply Forall_app. split; [now apply robotsEvent_expected|].
  apply Forall_app. split.
  - eapply Forall_impl; [apply fetchSitemap_expected|].
    intros e. now apply expected_mono.
  - eapply Forall_impl; [exact Htail|].
    intros e. apply expected_mono. intros u Hu. inversion Hu.
Qed.

Lemma walkLoop_expected (fuel : nat) (st : walkState) (w : W) :
  let evs := events (walkLoop E f yield fuel st w) in
  Forall (expected f (fetched evs)) evs.
Proof.
  cbn zeta. revert st w. induction fuel as [|fuel IH]; intros st w;
    (destruct st as [q sn rc sc uc]; destruct q as [|current rest];
     cbn [walkLoop queue]);
    try constructor.
  rewrite perform_bind.
  destruct (fst (ctx_Err E w)) as [cerr|]; [constructor|].
  rewrite events_bind.
  set (st0 := setQueue _ rest). set (w1 := snd (ctx_Err E w)).
  pose proof (walkTask_expected current st0 w1) as Htask. cbn zeta in Htask.
  rewrite fetched_app. apply Forall_app. split.
  - eapply Forall_impl; [exact Htask|].
    intros e. apply expected_mono. intros u Hu. apply elem_of_app. now left.
  - destruct (result (walkTask E f yield current st0 w1)) as [st'|err];
      [|constructor].
    eapply Forall_impl; [apply IH|].
    intros e. apply expected_mono. intros u Hu. apply elem_of_app. now right.
Qed.

End Expected.

Lemma Walk_expected `{L : GoLib} {W : Type} (E : Env W) (f : SitemapFetcher)
    (fuel : nat) (website : option URL) (yield : option (yieldFn (W := W)))
    (w : W) :
  let evs := events (Walk E f fuel website yield w) in
  Forall (expected f (fetched evs)) evs.
Proof.
  cbn zeta. unfold Walk. destruct yield as [cb|]; [|constructor].
  pose proof (normalizeInputURL_base website) as Hn.
  destruct (normalizeInputURL website) as [err|[input base]]; [constructor|].
  pose proof (Hn input base eq_refl) as Hbase.
  rewrite events_bind, fetched_app.
  pose proof (seed_robotsEvents E f input base w Hbase) as Hseed.
  apply Forall_app. split; [now apply robotsEvent_expected|].
  rewrite (net_no_fetch _ (request_is_net _ (robotsEvent_request f _ Hseed))).
  cbn [app].
  destruct (result (seed E f input base w)) as [initial cache].
  destruct (_ =? 0); [constructor|].
  apply walkLoop_expected.
Qed.

Lemma requests_elem `{L : GoLib} (evs : list event) (r : Request) :
  r ∈ requests evs <-> EvRequest r ∈ evs.
Proof.
  unfold requests. rewrite list_elem_of_omap. split.
  - intros (e & He & Hs). destruct e; try discriminate.
    now injection Hs as ->.
  - intros He. exists (EvRequest r). split; [exact He|reflexivity].
Qed.

Lemma requested_requests `{L : GoLib} (evs : list event) :
  requested evs = map reqURL (requests evs).
Proof.
  induction evs as [|e evs IH]; [reflexivity|].
  destruct e; cbn; try exact IH. f_equal. exact IH.
Qed.

(** X7. Every request of a traversal is built by newRequest: it is a GET
    that carries the configured User-Agent and, as its deadline, the
    per-request timeout when that is positive.  It is addressed either to
    the serialized location of a sitemap that fetchSitemap was entered
    for in this traversal, or, only when robots is not ignored, to
    /robots.txt resolved against the scheme and host of some URL. *)
Theorem Walk_requests_well_formed `{L : GoLib} {W : Type} (E : Env W)
    (f : SitemapFetcher) (fuel : nat) (website : option URL)
    (yield : option (yieldFn (W := W))) (w : W) :
  let evs := events (Walk E f fuel website yield w) in
  Forall (fun r =>
            reqMethod r = "GET"
            /\ reqUserAgent r = UserAgent (opts f)
            /\ reqTimeout r = (if 0 <? PerRequestTimeout (opts f)
                               then PerRequestTimeout (opts f) else 0)
            /\ ((exists u, u ∈ fetched evs /\ reqURL r = url_String u)
                \/ (IgnoreRobots (opts f) = false
                    /\ exists s h,
                         reqURL r = url_String (robotsLocation s h))))
         (requests evs).
Proof.
  cbn zeta. apply Forall_forall. intros r Hr. apply requests_elem in Hr.
  pose proof (Walk_expected E f fuel website yield w) as Hexp.
  cbn zeta in Hexp. eapply Forall_forall in Hexp; [|exact Hr].
  cbn in Hexp.
  destruct Hexp as [(u & Hu & Hreq)|(Hig & s & h & Hreq)];
    apply newRequest_shape in Hreq; subst r; cbn;
    (split; [reflexivity|]); (split; [reflexivity|]);
    (split; [reflexivity|]).
  - left. exists u. now split.
  - right. split; [exact Hig|]. exists s, h. reflexivity.
Qed.

(** X8. Every item handed to yield has passed the filters: shouldInclude
    holds of its location. *)
Theorem Walk_yields_only_included `{L : GoLib} {W : Type} (E : Env W)
    (f : SitemapFetcher) (fuel : nat) (website : option URL)
    (yield : option (yieldFn (W := W))) (w : W) :
  Forall (fun it => shouldInclude f (Some (Item.Loc it)) = true)
         (yielded (events (Walk E f fuel website yield w))).
Proof.
  apply Forall_forall. intros it Hit. apply yielded_elem in Hit.
  pose proof (Walk_expected E f fuel website yield w) as Hexp.
  cbn zeta in Hexp. eapply Forall_forall in Hexp; [|exact Hit].
  exact Hexp.
Qed.

(** ** Ignoring robots.txt *)

Section IgnoringRobots.
Context `{L : GoLib} {W : Type} (E : Env W) (f : SitemapFetcher).
Variable yield : yieldFn (W := W).
Hypothesis Hig : IgnoreRobots (opts f) = true.

Lemma ignored_no_robotsEvent (evs : list event) :
  Forall (robotsEvent f) evs -> evs = [].
Proof.
  destruct 1 as [|e evs He _]; [reflexivity|].
  destruct e; cbn in He; try contradiction.
  destruct He as [He _]. congruence.
Qed.

Lemma ignored_callbacks_quiet (evs : list event) :
  Forall (expected f []) evs -> requested evs = [] /\ fetched evs = [].
Proof.
  induction 1 as [|e evs He _ [IHr IHf]]; [now split|].
  destruct e as [r|d|u|it]; cbn in He.
  - destruct He as [(u & Hu & _)|[He _]]; [inversion Hu|congruence].
  - now split.
  - inversion He.
  - now split.
Qed.

Lemma walkTask_ignored (current : sitemapTask) (st : walkState) (w : W) :
  let evs := events (walkTask E f yield current st w) in
  (length (requested evs) <= 4 * length (fetched evs))%nat.
Proof.
  cbn zeta.
  destruct (walkTask_shape E f yield current st w)
    as (gate & tail & w2 & Hgate & Htail & Hev).
  apply ignored_no_robotsEvent in Hgate. subst gate.
  destruct (ignored_callbacks_quiet tail Htail) as [Hr Hf].
  destruct Hev as [->| ->]; [cbn; lia|].
  cbn [app]. rewrite requested_app, fetched_app, Hr, Hf, !app_nil_r.
  destruct (fetchSitemap_lists E f (loc current) (allowMissing current) w2)
    as (-> & _ & Hle & _). cbn [length]. lia.
Qed.

Lemma walkLoop_ignored (fuel : nat) (st : walkState) (w : W) :
  let evs := events (walkLoop E f yield fuel st w) in
  (length (requested evs) <= 4 * length (fetched evs))%nat.
Proof.
  cbn zeta. revert st w. induction fuel as [|fuel IH]; intros st w;
    (destruct st as [q sn rc sc uc]; destruct q as [|current rest];
     cbn [walkLoop queue]);
    try (cbn; lia).
  rewrite perform_bind.
  destruct (fst (ctx_Err E w)) as [cerr|]; [cbn; lia|].
  rewrite events_bind, requested_app, fetched_app, !length_app.
  set (st0 := setQueue _ rest). set (w1 := snd (ctx_Err E w)).
  pose proof (walkTask_ignored current st0 w1) as Htask. cbn zeta in Htask.
  destruct (result (walkTask E f yield current st0 w1)) as [st'|err].
  - pose proof (IH st' (world (walkTask E f yield current st0 w1))). lia.
  - cbn [events ret snd]. change (requested []) with (@nil string).
    change (fetched []) with (@nil URL). cbn [length]. lia.
Qed.

End IgnoringRobots.

(** X9. With IgnoreRobots set a traversal never asks for robots.txt: every
    request is for the serialized location of a sitemap that
    fetchSitemap was entered for, and there are at most four requests for
    each such sitemap. *)
Theorem ignore_robots_requests_sitemaps_only `{L : GoLib} {W : Type}
    (E : Env W) (f : SitemapFetcher) (fuel : nat) (website : option URL)
    (yield : option (yieldFn (W := W))) (w : W) :
  IgnoreRobots (opts f) = true ->
  let evs := events (Walk E f fuel website yield w) in
  Forall (fun url => exists u, u ∈ fetched evs /\ url = url_String u)
         (requested evs)
  /\ (length (requested evs) <= 4 * length (fetched evs))%nat.
Proof.
  intros Hig. cbn zeta. split.
  - rewrite requested_requests. apply Forall_forall. intros url Hurl.
    apply list_elem_of_fmap in Hurl as (r & -> & Hr).
    apply requests_elem in Hr.
    pose proof (Walk_expected E f fuel website yield w) as Hexp.
    cbn zeta in Hexp. eapply Forall_forall in Hexp; [|exact Hr].
    cbn in Hexp. destruct Hexp as [(u & Hu & Hreq)|[Hno _]]; [|congruence].
    apply newRequest_shape in Hreq. subst r. exists u. now split.
  - unfold Walk. destruct yield as [cb|]; [|cbn; lia].
    pose proof (normalizeInputURL_base website) as Hn.
    destruct (normalizeInputURL website) as [err|[input base]]; [cbn; lia|].
    pose proof (seed_robotsEvents E f input base w (Hn _ _ eq_refl)) as Hseed.
    apply (ignored_no_robotsEvent f Hig) in Hseed.
    rewrite events_bind, Hseed. cbn [app].
    destruct (result (seed E f input base w)) as [initial cache].
    destruct (_ =? 0); [cbn; lia|].
    now apply walkLoop_ignored.
Qed.

(** The site of the tests, robots ignored: the one request is for the
    sitemap. *)
Lemma ignore_robots_requests_sitemaps_only_witness :
  let run := Walk (Testbed.serverEnv Testbed.blockedSite)
                  (Testbed.fetcher Testbed.ignoreRobots) 4
                  (Testbed.parsed Testbed.sitemapURL) (Some Testbed.collect)
                  0 in
  IgnoreRobots (opts (Testbed.fetcher Testbed.ignoreRobots)) = true
  /\ (length (requested (events run)) <= 4 * length (fetched (events run)))%nat.
Proof.
  split; [reflexivity|].
  exact (proj2 (ignore_robots_requests_sitemaps_only
                  (Testbed.serverEnv Testbed.blockedSite)
                  (Testbed.fetcher Testbed.ignoreRobots) 4
                  (Testbed.parsed Testbed.sitemapURL) (Some Testbed.collect)
                  0 eq_refl)).
Defined.

(** ** The sitemap limit *)

Section SitemapLimit.
Context `{L : GoLib} {W : Type} (E : Env W) (f : SitemapFetcher).
Variable yield : yieldFn (W := W).
Hypothesis Hmax : 0 < MaxSitemaps (opts f) <= maxInt.

Lemma beforeParse_sitemapCount (current : sitemapTask) (st : walkState)
    (w : W) :
  0 <= sitemapCount st <= MaxSitemaps (opts f) ->
  let r := beforeParse E f current st w in
  Z.of_nat (length (fetched (events r)))
    <= MaxSitemaps (opts f) - sitemapCount st
  /\ match result r with
     | inl (Continue st') | inr (_, st') =>
         sitemapCount st'
         = sitemapCount st + Z.of_nat (length (fetched (events r)))
     | inl (Return _) => True
     end.
Proof.
  intros Hc. cbn zeta. unfold beforeParse.
  destruct (_ && _); [cbn; split; [lia|exact I]|].
  destruct (decide _); [cbn; split; lia|].
  set (st1 := setSeen st _).
  rewrite bind_run. cbn [result events fst snd].
  pose proof (robotsGate_events E f (loc current) st1 w) as Hg.
  apply request_is_net, net_no_fetch in Hg.
  pose proof (robotsGate_state E f (loc current) st1 w)
    as (_ & _ & Hsc & _ & _).
  change (sitemapCount st1) with (sitemapCount st) in Hsc.
  rewrite fetched_app, Hg. cbn [app].
  set (w2 := world (robotsGate E f (loc current) st1 w)).
  destruct (result (robotsGate E f (loc current) st1 w))
    as [[allowed err] st2].
  cbn [fst snd] in *.
  destruct err as [err|]; [cbn; split; [lia|exact I]|].
  destruct (negb allowed); [cbn; split; lia|].
  destruct (_ && _) eqn:Hfull; [cbn; split; [lia|exact I]|].
  assert (Hlt : sitemapCount st2 < MaxSitemaps (opts f)).
  { apply andb_false_iff in Hfull as [Hz|Hge].
    - rewrite Z.gtb_ltb in Hz. apply Z.ltb_ge in Hz. lia.
    - rewrite Z.geb_leb in Hge. now apply Z.leb_gt in Hge. }
  rewrite bind_run. cbn [result events fst snd].
  destruct (fetchSitemap_lists E f (loc current) (allowMissing current) w2)
    as (Hf & _).
  rewrite fetched_app, Hf.
  assert (Hw : wrap64 (sitemapCount st2 + 1) = sitemapCount st + 1).
  { rewrite Hsc. apply wrap64_small. unfold minInt. unfold maxInt in *. lia. }
  destruct (result (fetchSitemap E f _ _ w2)) as [err|[reader|]];
    cbn [ret events result fst snd setSitemapCount sitemapCount];
    change (fetched []) with (@nil URL); cbn [app length];
    (split; [lia|]); [exact I|exact Hw|exact Hw].
Qed.

Lemma walkTask_sitemapCount (current : sitemapTask) (st : walkState)
    (w : W) :
  0 <= sitemapCount st <= MaxSitemaps (opts f) ->
  let r := walkTask E f yield current st w in
  Z.of_nat (length (fetched (events r)))
    <= MaxSitemaps (opts f) - sitemapCount st
  /\ match result r with
     | Continue st' =>
         sitemapCount st'
         = sitemapCount st + Z.of_nat (length (fetched (events r)))
     | Return _ => True
     end.
Proof.
  intros Hc. cbn zeta. rewrite walkTask_split, bind_run.
  cbn [result events fst snd].
  destruct (beforeParse_sitemapCount current st w Hc) as [Hle Hres].
  cbn zeta in Hle, Hres.
  set (w1 := world (beforeParse E f current st w)) in *.
  rewrite fetched_app, length_app.
  destruct (result (beforeParse E f current st w)) as [ctl|[reader st1]].
  - cbn [parseTask ret result events fst snd].
    change (fetched []) with (@nil URL). cbn [length].
    rewrite Nat.add_0_r. split; [exact Hle|exact Hres].
  - unfold parseTask. rewrite bind_run. cbn [result events fst snd].
    pose proof (parseSitemap_kept E f yield current reader st1 w1)
      as [(_ & Hsc & _) Hcb].
    apply callback_no_fetch in Hcb. rewrite fetched_app, Hcb.
    destruct (result (parseSitemap E reader _ _ st1 w1)) as [[perr|] st2];
      cbn [ret result events fst snd] in *;
      change (fetched []) with (@nil URL); cbn [app length];
      rewrite Nat.add_0_r; (split; [exact Hle|]); [exact I|].
    rewrite Hsc. exact Hres.
Qed.

Lemma walkLoop_sitemaps (fuel : nat) (st : walkState) (w : W) :
  0 <= sitemapCount st <= MaxSitemaps (opts f) ->
  Z.of_nat (length (fetched (events (walkLoop E f yield fuel st w))))
    <= MaxSitemaps (opts f) - sitemapCount st.
Proof.
  revert st w. induction fuel as [|fuel IH]; intros st w Hc;
    (destruct st as [q sn rc sc uc]; destruct q as [|current rest];
     cbn [walkLoop queue sitemapCount] in *);
    try (cbn; lia).
  rewrite perform_bind.
  destruct (fst (ctx_Err E w)) as [cerr|]; [cbn; lia|].
  rewrite events_bind, fetched_app, length_app.
  set (st0 := setQueue _ rest). set (w1 := snd (ctx_Err E w)).
  destruct (walkTask_sitemapCount current st0 w1 Hc) as [Hle Hres].
  cbn zeta in Hle, Hres. change (sitemapCount st0) with sc in *.
  destruct (result (walkTask E f yield current st0 w1)) as [st'|err].
  - pose proof (IH st' (world (walkTask E f yield current st0 w1))) as Hrest.
    lia.
  - cbn [events ret snd]. change (fetched []) with (@nil URL).
    cbn [length]. lia.
Qed.

End SitemapLimit.

(** X10. With MaxSitemaps = M > 0 a traversal enters fetchSitemap at most
    M times, whatever the site holds.  The counter is raised before the
    fetch, so a fetch that fails or finds nothing counts as well. *)
Theorem max_sitemaps_bounds_fetches `{L : GoLib} {W : Type} (E : Env W)
    (f : SitemapFetcher) (fuel : nat) (website : option URL)
    (yield : option (yieldFn (W := W))) (w : W) :
  0 < MaxSitemaps (opts f) <= maxInt ->
  Z.of_nat (length (fetched (events (Walk E f fuel website yield w))))
    <= MaxSitemaps (opts f).
Proof.
  intros Hmax. unfold Walk. destruct yield as [cb|]; [|cbn; lia].
  destruct (normalizeInputURL website) as [err|[input base]]; [cbn; lia|].
  rewrite events_bind, fetched_app.
  rewrite (net_no_fetch _ (request_is_net _ (seed_events E f input base w))).
  cbn [app].
  destruct (result (seed E f input base w)) as [initial cache].
  destruct (_ =? 0); [cbn; lia|].
  pose proof (walkLoop_sitemaps E f cb Hmax fuel (initialState initial cache)
                (world (seed E f input base w))) as Hloop.
  cbn [initialState sitemapCount] in Hloop. lia.
Qed.

(** The index and its child with MaxSitemaps = 1: one fetch. *)
Lemma max_sitemaps_bounds_fetches_witness :
  let run := Walk (Testbed.serverEnv
                     (Testbed.routes
                        [(Testbed.indexURL, Testbed.ok Testbed.indexDoc);
                         (Testbed.nestedURL, Testbed.ok Testbed.nestedDoc)]))
                  (Testbed.fetcher Testbed.oneSitemap) 4
                  (Testbed.parsed Testbed.indexURL) (Some Testbed.collect) 0 in
  0 < MaxSitemaps (opts (Testbed.fetcher Testbed.oneSitemap)) <= maxInt
  /\ Z.of_nat (length (fetched (events run))) <= 1.
Proof.
  cbn zeta. assert (H : 0 < 1 <= maxInt) by (unfold maxInt; lia).
  split; [exact H|].
  exact (max_sitemaps_bounds_fetches _ (Testbed.fetcher Testbed.oneSitemap)
           4 _ _ 0 H).
Defined.

(** ** The URL limit as an upper bound *)

Lemma walkLoop_yield_bound `{L : GoLib} {W : Type} (E : Env W)
    (f : SitemapFetcher) (yield : yieldFn (W := W))
    (Hlimit : 0 < MaxURLs (opts f) <= maxInt)
    (fuel : nat) (st : walkState) (w : W) :
  0 <= urlCount st <= MaxURLs (opts f) ->
  yieldCount (events (walkLoop E f yield fuel st w))
    <= MaxURLs (opts f) - urlCount st.
Proof.
  revert st w. induction fuel as [|fuel IH]; intros st w Hc;
    (destruct st as [q sn rc sc uc]; destruct q as [|current rest];
     cbn [walkLoop queue urlCount] in *);
    try (change (0 <= MaxURLs (opts f) - uc); lia).
  rewrite perform_bind.
  destruct (fst (ctx_Err E w)) as [cerr|];
    [change (0 <= MaxURLs (opts f) - uc); lia|].
  rewrite bind_run. cbn [result world events fst snd].
  set (st0 := setQueue _ rest). set (w1 := snd (ctx_Err E w)).
  rewrite yieldCount_app.
  destruct (walkTask_limit E f yield Hlimit current st0 w1 Hc)
    as [(Hle & -> & Hcnt)|(Hgt & Hres & Hn & Hp)]; cbn zeta in *;
    change (urlCount st0) with uc in *.
  - set (t := walkTask E (unlimited f) yield current st0 w1) in *.
    pose proof (yieldCount_nonneg (events t)) as Hpos.
    destruct (result t) as [st'|err].
    + specialize (Hcnt st' eq_refl).
      pose proof (IH st' (world t)) as Hrest. lia.
    + cbn [events ret snd]. change (yieldCount []) with 0. lia.
  - rewrite Hres. cbn [events ret snd]. change (yieldCount []) with 0. lia.
Qed.

(** X11. With MaxURLs = N > 0 the yield callback is invoked at most N
    times in a traversal, whatever the site holds and whatever the
    callback answers. *)
Theorem max_urls_bounds_yields `{L : GoLib} {W : Type} (E : Env W)
    (f : SitemapFetcher) (fuel : nat) (website : option URL)
    (yield : option (yieldFn (W := W))) (w : W) :
  0 < MaxURLs (opts f) <= maxInt ->
  yieldCount (events (Walk E f fuel website yield w)) <= MaxURLs (opts f).
Proof.
  intros Hlimit. unfold Walk.
  destruct yield as [cb|]; [|change (0 <= MaxURLs (opts f)); lia].
  destruct (normalizeInputURL website) as [err|[input base]];
    [change (0 <= MaxURLs (opts f)); lia|].
  rewrite events_bind, yieldCount_app.
  assert (Hseed : yieldCount (events (seed E f input base w)) = 0).
  { unfold yieldCount.
    now rewrite (net_no_yield _ (request_is_net _
                   (seed_events E f input base w))). }
  rewrite Hseed.
  destruct (result (seed E f input base w)) as [initial cache].
  destruct (_ =? 0); [change (0 + 0 <= MaxURLs (opts f)); lia|].
  pose proof (walkLoop_yield_bound E f cb Hlimit fuel
                (initialState initial cache)
                (world (seed E f input base w))) as Hloop.
  cbn [initialState urlCount] in Hloop. lia.
Qed.

(** The document with two entries under MaxURLs = 1. *)
Lemma max_urls_bounds_yields_witness :
  let run := Walk (Testbed.serverEnv Testbed.twoSite) Testbed.oneURL 2
                  (Testbed.parsed Testbed.sitemapURL) (Some Testbed.collect)
                  0 in
  0 < MaxURLs (opts Testbed.oneURL) <= maxInt
  /\ yieldCount (events run) <= 1.
Proof.
  cbn zeta. assert (H : 0 < 1 <= maxInt) by (unfold maxInt; lia).
  split; [exact H|].
  exact (max_urls_bounds_yields _ Testbed.oneURL 2 _ _ 0 H).
Defined.

(** ** The queue *)

Section QueueFacts.
Context `{L : GoLib} {W : Type} (E : Env W) (f : SitemapFetcher).
Variable yield : yieldFn (W := W).

Lemma grows_refl (current : sitemapTask) (st : walkState) :
  grows current st st.
Proof. exists []. split; [now rewrite app_nil_r|constructor]. Qed.

Lemma grows_trans (current : sitemapTask) (a b c : walkState) :
  grows current a b -> grows current b c -> grows current a c.
Proof.
  intros (n1 & H1 & F1) (n2 & H2 & F2). exists (n1 ++ n2).
  split; [now rewrite H2, H1, app_assoc|]. apply Forall_app. now split.
Qed.

Lemma grows_same (current : sitemapTask) (st st' : walkState) :
  queue st' = queue st -> grows current st st'.
Proof.
  intros Hq. exists []. split; [now rewrite app_nil_r|constructor].
Qed.

Lemma deliver_queue (current : sitemapTask) (entry : xmlURLEntry.t)
    (a : admitted) (st : walkState) (w : W) :
  queue (snd (result (deliver f yield current entry a st w))) = queue st.
Proof.
  unfold deliver. destruct a as [|err|u]; try reflexivity.
  destruct (_ && _); [reflexivity|].
  rewrite emit_bind, perform_bind. cbn [result fst].
  now destruct (fst (yield _ w)).
Qed.

Lemma onURL_queue (current : sitemapTask) (entry : xmlURLEntry.t)
    (st : walkState) (w : W) :
  queue (snd (result (onURL E f yield current entry st w))) = queue st.
Proof.
  rewrite onURL_split, result_bind, deliver_queue.
  apply (admission_state E f current entry st w).
Qed.

Lemma onSitemap_grows (current : sitemapTask) (entry : xmlSitemapEntry.t)
    (st : walkState) (w : W) :
  grows current st (snd (result (onSitemap current entry st w))).
Proof.
  unfold onSitemap.
  destruct (resolveLocation _ _) as [e|u] eqn:Hres; [apply grows_refl|].
  eexists. split; [reflexivity|]. repeat constructor.
  exists (xmlSitemapEntry.Loc entry). exact Hres.
Qed.

Lemma parseSitemap_grows (current : sitemapTask) (reader : Stream)
    (st : walkState) (w : W) :
  grows current st
    (snd (result (parseSitemap E reader (Some (onURL E f yield current))
                               (Some (onSitemap current)) st w))).
Proof.
  unfold parseSitemap.
  apply (parseEvents_invariant E (grows current) (fun _ => True));
    [apply grows_refl|apply grows_trans| |].
  - intros cb [= <-] e s w'.
    split; [apply grows_same, onURL_queue|].
    apply Forall_forall. trivial.
  - intros cb [= <-] e s w'.
    split; [apply onSitemap_grows|]. apply Forall_forall. trivial.
Qed.

Lemma beforeParse_queue (current : sitemapTask) (st : walkState) (w : W) :
  match result (beforeParse E f current st w) with
  | inl (Continue st') | inr (_, st') =>
      queue st' = queue st
      /\ (MaxDepth (opts f) >? 0) && (depth current >? MaxDepth (opts f))
         = false
  | inl (Return _) => True
  end.
Proof.
  unfold beforeParse.
  destruct (_ && _); [exact I|].
  destruct (decide _); [now split|].
  rewrite result_bind.
  pose proof (robotsGate_state E f (loc current)
                (setSeen st ({[canonicalURLKey (Some (loc current))]} ∪ seen st))
                w) as (Hq & _).
  destruct (result (robotsGate E f _ _ w)) as [[allowed err] st1].
  cbn [snd] in Hq.
  destruct err as [err|]; [exact I|].
  destruct (negb allowed); [now split|].
  destruct (_ && _); [exact I|].
  rewrite result_bind.
  destruct (result (fetchSitemap E f _ _ _)) as [err|[reader|]];
    [exact I|now split|now split].
Qed.

(** A turn that goes on has a task within the depth limit and leaves the
    queue it found, followed by children of the task. *)
Lemma walkTask_queue (current : sitemapTask) (st : walkState) (w : W) :
  match result (walkTask E f yield current st w) with
  | Continue st' =>
      grows current st st'
      /\ (MaxDepth (opts f) >? 0) && (depth current >? MaxDepth (opts f))
         = false
  | Return _ => True
  end.
Proof.
  rewrite walkTask_split, result_bind.
  pose proof (beforeParse_queue current st w) as Hb.
  set (w1 := world (beforeParse E f current st w)).
  destruct (result (beforeParse E f current st w)) as [ctl|[reader st1]].
  - cbn [parseTask ret result fst]. destruct ctl as [st'|err]; [|exact I].
    destruct Hb as [Hq Hd]. split; [now apply grows_same|exact Hd].
  - unfold parseTask. rewrite result_bind.
    pose proof (parseSitemap_grows current reader st1 w1) as Hg.
    destruct Hb as [Hq Hd].
    destruct (result (parseSitemap E reader _ _ st1 w1)) as [[perr|] st2];
      cbn [ret result fst snd] in *; [exact I|].
    split; [|exact Hd].
    eapply grows_trans; [apply grows_same; exact Hq|exact Hg].
Qed.

Lemma docTasks_cons (current : sitemapTask) (ev : xmlEvent)
    (evs : list xmlEvent) :
  docTasks current (ev :: evs) = docTasks current [ev] ++ docTasks current evs.
Proof. apply (omap_app _ [ev] evs). Qed.

Lemma docTasks_elem (current : sitemapTask) (doc : list xmlEvent)
    (t : sitemapTask) :
  t ∈ docTasks current doc -> taskOf current doc t.
Proof.
  unfold docTasks. intros Ht.
  apply list_elem_of_omap in Ht as (ev & Hev & Hsome).
  destruct ev as [entry|entry|]; try discriminate.
  destruct (resolveLocation _ _) as [e|u] eqn:Hres; [discriminate|].
  injection Hsome as <-. cbn.
  split; [reflexivity|]. split; [reflexivity|].
  exists entry. split; [exact Hev|exact Hres].
Qed.

(** The second callback never fails, and appends the task of its entry
    when the location resolves. *)
Lemma onSitemap_tasks (current : sitemapTask) (entry : xmlSitemapEntry.t)
    (st : walkState) (w : W) :
  fst (result (onSitemap current entry st w)) = None
  /\ queue (snd (result (onSitemap current entry st w)))
     = queue st ++ docTasks current [XSitemap entry].
Proof.
  unfold onSitemap, docTasks. cbn [omap list_omap].
  destruct (resolveLocation _ _) as [e|u]; cbn.
  - split; [reflexivity|]. now rewrite app_nil_r.
  - split; reflexivity.
Qed.

(** When parseSitemap with the callbacks of Walk ends without an error,
    the queue has grown by the tasks of the whole document. *)
Lemma parseEvents_tasks (current : sitemapTask) (evs : list xmlEvent)
    (final : option error) (st : walkState) (w : W) :
  let r := result (parseEvents E evs final (Some (onURL E f yield current))
                               (Some (onSitemap current)) st w) in
  fst r = None -> queue (snd r) = queue st ++ docTasks current evs.
Proof.
  cbn zeta. revert st w.
  induction evs as [|ev evs IH]; intros st w; cbn [parseEvents];
    rewrite perform_bind;
    (destruct (fst (ctx_Err E w)) as [cerr|]; [cbn; discriminate|]).
  - cbn. intros _. now rewrite app_nil_r.
  - rewrite docTasks_cons. destruct ev as [entry|entry|].
    + rewrite result_bind.
      pose proof (onURL_queue current entry st (snd (ctx_Err E w))) as Hq.
      set (w1 := world (onURL E f yield current entry st _)).
      destruct (result (onURL E f yield current entry st _))
        as [[err|] st1]; cbn [fst snd] in *; [cbn; discriminate|].
      intros H. rewrite (IH st1 w1 H), Hq. reflexivity.
    + rewrite result_bind.
      pose proof (onSitemap_tasks current entry st (snd (ctx_Err E w)))
        as [Hn Hq].
      set (w1 := world (onSitemap current entry st _)).
      destruct (result (onSitemap current entry st _))
        as [[err|] st1]; cbn [fst snd] in *; [discriminate|].
      intros H. rewrite (IH st1 w1 H), Hq. now rewrite app_assoc.
    + apply IH.
Qed.

(** A turn that goes on has appended the tasks of the document it read. *)
Lemma walkTask_tasks (current : sitemapTask) (st : walkState) (w : W) :
  match result (walkTask E f yield current st w) with
  | Continue st' =>
      queue st' = queue st ++ docTasks current (turnDocument E f current st w)
  | Return _ => True
  end.
Proof.
  unfold turnDocument. rewrite walkTask_split, result_bind.
  pose proof (beforeParse_queue current st w) as Hb.
  set (w1 := world (beforeParse E f current st w)).
  destruct (result (beforeParse E f current st w)) as [ctl|[reader st1]].
  - cbn [parseTask ret result fst]. destruct ctl as [st'|err]; [|exact I].
    destruct Hb as [Hq _]. rewrite Hq. cbn. now rewrite app_nil_r.
  - unfold parseTask, parseSitemap. rewrite result_bind.
    pose proof (parseEvents_tasks current (xmlEvents (xml_Decode reader))
                  (xmlErr (xml_Decode reader)) st1 w1) as Hg.
    cbn zeta in Hg. destruct Hb as [Hq _].
    destruct (result (parseEvents E _ _ _ _ st1 w1)) as [[perr|] st2];
      cbn [ret result fst snd] in *; [exact I|].
    rewrite (Hg eq_refl), Hq. reflexivity.
Qed.

(** The reader the first half of a turn hands over is the one
    fetchSitemap returned for the task, in the world the robots test has
    left. *)
Lemma beforeParse_reader (current : sitemapTask) (st : walkState) (w : W) :
  match result (beforeParse E f current st w) with
  | inr (reader, _) =>
      let g := robotsGate E f (loc current) (markSeen st current) w in
      result (fetchSitemap E f (loc current) (allowMissing current) (world g))
        = inr (Some reader)
      /\ events (beforeParse E f current st w)
         = events g ++ events (fetchSitemap E f (loc current)
                                 (allowMissing current) (world g))
  | inl _ => True
  end.
Proof.
  unfold beforeParse, markSeen.
  destruct (_ && _); [exact I|].
  destruct (decide _); [exact I|].
  rewrite bind_run. cbn [result events fst snd].
  set (g := robotsGate E f (loc current) _ w).
  destruct (result g) as [[allowed err] st1].
  destruct err as [err|]; [exact I|].
  destruct (negb allowed); [exact I|].
  destruct (_ && _); [exact I|].
  rewrite bind_run. cbn [result events fst snd].
  destruct (result (fetchSitemap E f _ _ (world g))) as [err|[reader|]];
    [exact I| |exact I].
  cbn [ret events snd]. split; [reflexivity|]. now rewrite app_nil_r.
Qed.

Lemma layered_step (current : sitemapTask) (rest new : list sitemapTask) :
  layered (current :: rest) -> Forall (childOf current) new ->
  layered (rest ++ new).
Proof.
  intros (d & a & b & Hq & Ha & Hb) Hnew.
  destruct a as [|t a].
  - cbn [app] in Hq. subst b.
    apply Forall_cons in Hb as [Hd Hb].
    exists (wrap64 (d + 1)), rest, new. split; [reflexivity|].
    split; [exact Hb|].
    eapply Forall_impl; [exact Hnew|]. intros t (Ht & _). now rewrite Ht, Hd.
  - cbn [app] in Hq. injection Hq as <- ->.
    apply Forall_cons in Ha as [Hd Ha].
    exists d, a, (b ++ new). split; [now rewrite app_assoc|].
    split; [exact Ha|]. apply Forall_app. split; [exact Hb|].
    eapply Forall_impl; [exact Hnew|]. intros t (Ht & _). now rewrite Ht, Hd.
Qed.

Lemma turn_layered (a b : walkState * W) :
  turn E f yield a b -> layered (queue (fst a)) -> layered (queue (fst b)).
Proof.
  intros (current & rest & evs & Hq & _ & Hrun) Hl.
  pose proof (walkTask_queue current (setQueue (fst a) rest)
                (snd (ctx_Err E (snd a)))) as Hg.
  rewrite Hrun in Hg. cbn [result fst] in Hg.
  destruct Hg as [(new & Hnew & Hch) _]. rewrite Hnew. cbn [setQueue queue].
  rewrite Hq in Hl. now apply (layered_step current).
Qed.

Lemma turns_layered (a b : walkState * W) :
  rtc (turn E f yield) a b ->
  layered (queue (fst a)) -> layered (queue (fst b)).
Proof.
  induction 1 as [a|a b c Hab _ IH]; [trivial|].
  intros Hl. apply IH. now apply (turn_layered a b).
Qed.

(** A turn is one passage through the loop of Walk. *)
Lemma walkLoop_turn (a b : walkState * W) (fuel : nat) :
  turn E f yield a b ->
  exists evs,
    walkLoop E f yield (S fuel) (fst a) (snd a)
    = (result (walkLoop E f yield fuel (fst b) (snd b)),
       world (walkLoop E f yield fuel (fst b) (snd b)),
       evs ++ events (walkLoop E f yield fuel (fst b) (snd b))).
Proof.
  intros (current & rest & evs & Hq & Hctx & Hrun). exists evs.
  cbn [walkLoop]. rewrite Hq, perform_bind, Hctx, bind_run, Hrun.
  reflexivity.
Qed.

Section DepthLimit.
Hypothesis Hdepth : 0 < MaxDepth (opts f) < maxInt.

Lemma turn_depths (a b : walkState * W) :
  turn E f yield a b ->
  Forall (fun t => 0 <= depth t <= MaxDepth (opts f) + 1) (queue (fst a)) ->
  Forall (fun t => 0 <= depth t <= MaxDepth (opts f) + 1) (queue (fst b)).
Proof.
  intros (current & rest & evs & Hq & _ & Hrun) Hl.
  pose proof (walkTask_queue current (setQueue (fst a) rest)
                (snd (ctx_Err E (snd a)))) as Hg.
  rewrite Hrun in Hg. cbn [result fst] in Hg.
  destruct Hg as [(new & Hnew & Hch) Hd]. rewrite Hnew. cbn [setQueue queue].
  rewrite Hq in Hl. apply Forall_cons in Hl as [Hcur Hrest].
  apply Forall_app. split; [exact Hrest|].
  apply andb_false_iff in Hd as [Hz|Hle].
  { rewrite Z.gtb_ltb in Hz. apply Z.ltb_ge in Hz. lia. }
  rewrite Z.gtb_ltb in Hle. apply Z.ltb_ge in Hle.
  eapply Forall_impl; [exact Hch|]. intros t (Ht & _). rewrite Ht.
  rewrite wrap64_small; [lia|]. unfold minInt. unfold maxInt in *. lia.
Qed.

Lemma turns_depths (a b : walkState * W) :
  rtc (turn E f yield) a b ->
  Forall (fun t => 0 <= depth t <= MaxDepth (opts f) + 1) (queue (fst a)) ->
  Forall (fun t => 0 <= depth t <= MaxDepth (opts f) + 1) (queue (fst b)).
Proof.
  induction 1 as [a|a b c Hab _ IH]; [trivial|].
  intros Hl. apply IH. now apply (turn_depths a b).
Qed.

End DepthLimit.

End QueueFacts.

(** X12. A turn of the queue loop that goes on only appends to the
    queue: the tasks that were waiting keep their places, and behind them
    come exactly the tasks of the document the turn has read, one for
    each sitemap element whose location resolves, in document order, and
    none when the turn is over before a document is read.  The document
    is that of the reader fetchSitemap returned for the task of the turn.
    Each new task is one level deeper than the task of the turn (with the
    wrap-around of int), has as its location the text of its element
    resolved against that task's location, and is not allowed to be
    missing. *)
Theorem turn_appends_children `{L : GoLib} {W : Type} (E : Env W)
    (f : SitemapFetcher) (yield : yieldFn (W := W)) (current : sitemapTask)
    (st : walkState) (w : W) :
  let doc := turnDocument E f current st w in
  match result (walkTask E f yield current st w) with
  | Continue st' =>
      queue st' = queue st ++ docTasks current doc
      /\ Forall (fun t =>
                   depth t = wrap64 (depth current + 1)
                   /\ allowMissing t = false
                   /\ exists entry,
                        XSitemap entry ∈ doc
                        /\ resolveLocation (loc current)
                                           (xmlSitemapEntry.Loc entry)
                           = inr (loc t))
                (docTasks current doc)
  | Return _ => True
  end
  /\ match result (beforeParse E f current st w) with
     | inr (reader, _) =>
         doc = xmlEvents (xml_Decode reader)
         /\ result (fetchSitemap E f (loc current) (allowMissing current)
                      (world (robotsGate E f (loc current)
                                (markSeen st current) w)))
            = inr (Some reader)
     | inl _ => doc = []
     end.
Proof.
  cbn zeta. split.
  - pose proof (walkTask_tasks E f yield current st w) as H.
    destruct (result (walkTask E f yield current st w)); [|exact I].
    split; [exact H|]. apply Forall_forall. intros t Ht.
    exact (docTasks_elem current _ t Ht).
  - pose proof (beforeParse_reader E f current st w) as H.
    unfold turnDocument.
    destruct (result (beforeParse E f current st w)) as [ctl|[reader st1]];
      [reflexivity|].
    split; [reflexivity|exact (proj1 H)].
Qed.

(** The index document of the tests, read at depth 0 with robots ignored:
    the turn appends the task of its one sitemap element, at depth 1. *)
Example turn_on_index_document :
  match result (walkTask
                  (Testbed.serverEnv
                     (Testbed.routes
                        [(Testbed.indexURL, Testbed.ok Testbed.indexDoc)]))
                  (Testbed.fetcher Testbed.ignoreRobots) Testbed.collect
                  {| loc := Testbed.urlAt "example.com" "/index.xml";
                     depth := 0; allowMissing := false |}
                  (initialState [] ∅) 0) with
  | Continue st' => queue st'
  | Return _ => []
  end
  = [ {| loc := Testbed.urlAt "example.com" "/a/sitemap.xml";
         depth := 1; allowMissing := false |} ].
Proof. vm_compute. reflexivity. Qed.

(** X13. The traversal is breadth first: the tasks Walk starts with all
    have depth 0, and in every state the queue loop reaches from them the
    queue holds tasks of one depth followed by tasks of the next depth.
    The states are those of the loop of Walk: a turn from one state to
    the next is one passage through that loop. *)
Theorem queue_is_breadth_first `{L : GoLib} {W : Type} (E : Env W)
    (f : SitemapFetcher) (yield : yieldFn (W := W)) (input base : URL)
    (robots : option robotsRules) (cache : gmap string robotsRules)
    (w w' : W) (st' : walkState) :
  rtc (turn E f yield)
      (initialState (initialSitemaps input base robots) cache, w) (st', w') ->
  Forall (fun t => depth t = 0) (initialSitemaps input base robots)
  /\ (exists (d : Z) (a b : list sitemapTask),
        queue st' = a ++ b
        /\ Forall (fun t => depth t = d) a
        /\ Forall (fun t => depth t = wrap64 (d + 1)) b)
  /\ (forall a b fuel,
        turn E f yield a b ->
        exists evs,
          walkLoop E f yield (S fuel) (fst a) (snd a)
          = (result (walkLoop E f yield fuel (fst b) (snd b)),
             world (walkLoop E f yield fuel (fst b) (snd b)),
             evs ++ events (walkLoop E f yield fuel (fst b) (snd b)))).
Proof.
  intros Hturns. split; [apply initialSitemaps_depth|]. split.
  - apply (turns_layered E f yield _ _ Hturns). cbn [fst initialState queue].
    exists 0, (initialSitemaps input base robots), [].
    split; [now rewrite app_nil_r|].
    split; [apply initialSitemaps_depth|constructor].
  - intros a b fuel. apply walkLoop_turn.
Qed.

(** The six probes of a site, before the first turn. *)
Lemma queue_is_breadth_first_witness :
  exists (d : Z) (a b : list sitemapTask),
    initialSitemaps Testbed.site Testbed.site None = a ++ b
    /\ Forall (fun t => depth t = d) a
    /\ Forall (fun t => depth t = wrap64 (d + 1)) b.
Proof.
  exact (proj1 (proj2 (queue_is_breadth_first
                         (Testbed.serverEnv (Testbed.routes []))
                         (Testbed.fetcher Testbed.noOptions) Testbed.collect
                         Testbed.site Testbed.site None ∅ 0 0 _
                         (rtc_refl _ _)))).
Defined.

(** X14. With 0 < MaxDepth = D, a turn for a task deeper than D ends the
    traversal with ErrMaxDepth for that task before anything else is
    done, also when its location was seen before; so fetchSitemap is
    entered only for tasks of depth at most D.  In every state the queue
    loop reaches from the tasks Walk starts with, the depths in the queue
    lie between 0 and D + 1. *)
Theorem max_depth_bounds_queue `{L : GoLib} {W : Type} (E : Env W)
    (f : SitemapFetcher) (yield : yieldFn (W := W)) (input base : URL)
    (robots : option robotsRules) (cache : gmap string robotsRules)
    (w w' : W) (st' : walkState) :
  0 < MaxDepth (opts f) < maxInt ->
  rtc (turn E f yield)
      (initialState (initialSitemaps input base robots) cache, w) (st', w') ->
  Forall (fun t => 0 <= depth t <= MaxDepth (opts f) + 1) (queue st')
  /\ (forall current st w1,
        MaxDepth (opts f) < depth current ->
        walkTask E f yield current st w1
        = (Return (Some (ErrMaxDepth (MaxDepth (opts f)) (loc current))),
           w1, []))
  /\ (forall current st w1,
        fetched (events (walkTask E f yield current st w1)) <> [] ->
        depth current <= MaxDepth (opts f)).
Proof.
  intros Hd Hturns.
  assert (Hover : forall current st w1,
             MaxDepth (opts f) < depth current ->
             walkTask E f yield current st w1
             = (Return (Some (ErrMaxDepth (MaxDepth (opts f)) (loc current))),
                w1, [])).
  { intros current st w1 Hdeep. unfold walkTask.
    assert ((MaxDepth (opts f) >? 0) = true) as ->
        by (rewrite Z.gtb_ltb; apply Z.ltb_lt; lia).
    assert ((depth current >? MaxDepth (opts f)) = true) as ->
        by (rewrite Z.gtb_ltb; apply Z.ltb_lt; lia).
    reflexivity. }
  split; [|split; [exact Hover|]].
  - apply (turns_depths E f yield Hd _ _ Hturns).
    cbn [fst initialState queue].
    eapply Forall_impl; [apply initialSitemaps_depth|].
    intros t Ht. cbn in Ht. rewrite Ht. lia.
  - intros current st w1 Hf.
    destruct (Z_lt_le_dec (MaxDepth (opts f)) (depth current)) as [Hdeep|Hok];
      [|exact Hok].
    rewrite (Hover current st w1 Hdeep) in Hf. now contradiction Hf.
Qed.

(** MaxDepth = 1 and the seed task of an explicit sitemap URL. *)
Lemma max_depth_bounds_queue_witness :
  0 < MaxDepth (opts (Testbed.fetcher Testbed.oneLevel)) < maxInt
  /\ Forall (fun t => 0 <= depth t <= 1 + 1)
            (initialSitemaps Testbed.site Testbed.site None).
Proof.
  assert (H : 0 < 1 < maxInt) by (unfold maxInt; lia).
  split; [exact H|].
  exact (proj1 (max_depth_bounds_queue
                  (Testbed.serverEnv (Testbed.routes []))
                  (Testbed.fetcher Testbed.oneLevel) Testbed.collect
                  Testbed.site Testbed.site None ∅ 0 0 _ H
                  (rtc_refl _ _))).
Defined.

(** ** The robots cache, once more *)

Section RobotsOnce.
Context `{L : GoLib} {W : Type} (E : Env W) (f : SitemapFetcher).
Variable yield : yieldFn (W := W).

(** After any call of getRobots, a call with the cache it handed back
    gives the same answer without a request. *)
Lemma getRobots_again (base : URL) (cache : gmap string robotsRules)
    (w w' : W) :
  let first := getRobots E f base cache w in
  getRobots E f base (snd (result first)) w'
  = (fst (result first), snd (result first), w', []).
Proof.
  cbn zeta. unfold getRobots.
  destruct (cache !! robotsKey base) eqn:Hc;
    [cbn [ret result fst snd]; now rewrite Hc|].
  destruct (newRequest f MethodGet _) as [err|req] eqn:Hreq;
    [cbn [ret result fst snd]; now rewrite Hc|].
  rewrite emit_bind, perform_bind. cbn [result fst snd].
  destruct (fst (client_Do E req w)) as [err|resp];
    [cbn [ret result fst snd]; now rewrite lookup_insert_eq|].
  destruct (negb (StatusCode resp =? StatusOK));
    [cbn [ret result fst snd]; now rewrite lookup_insert_eq|].
  destruct (robotstxt_FromResponse resp);
    cbn [ret result fst snd]; now rewrite lookup_insert_eq.
Qed.

Lemma allowedByRobots_run (u : URL) (cache : gmap string robotsRules)
    (w : W) :
  let g := getRobots E f (originURL (Scheme u) (Host u)) cache w in
  allowedByRobots E f u cache w
  = (match fst (result g) with
     | inl _ => true
     | inr rules =>
         match group rules with
         | None => true
         | Some grp => group_Test grp (robotsPath u)
         end
     end, None, snd (result g), world g, events g).
Proof.
  cbn zeta. unfold allowedByRobots. rewrite bind_run.
  destruct (result (getRobots E f _ cache w)) as [[err|rules] cache'];
    cbn [fst snd ret result world events]; [now rewrite app_nil_r|].
  destruct (group rules); cbn [ret result world events fst snd];
    now rewrite app_nil_r.
Qed.

Lemma denies_mono (st st' : walkState) (u : URL) :
  robotsCache st ⊆ robotsCache st' -> denies st u -> denies st' u.
Proof.
  intros Hsub (rules & g & Hc & Hg & Ht). exists rules, g.
  split; [|now split]. eapply lookup_weaken; eassumption.
Qed.

Lemma robotsGate_denied (st : walkState) (u : URL) (w : W) :
  IgnoreRobots (opts f) = false -> denies st u ->
  robotsGate E f u st w
  = (false, None, setRobotsCache st (robotsCache st), w, []).
Proof.
  intros Hig (rules & g & Hc & Hg & Ht).
  rewrite (robotsGate_run E f u st w Hig), allowedByRobots_run.
  rewrite (getRobots_cached E f _ _ rules w Hc).
  cbn [result world events fst snd]. now rewrite Hg, Ht.
Qed.

End RobotsOnce.

(** X15. robots.txt is asked for at most once per origin.  One robots
    test makes at most one request, and that for /robots.txt resolved
    against the scheme and host of the location tested; after it, with
    the cache it leaves behind, the test of any location with the same
    scheme and host makes no request and leaves cache and world alone,
    and the test of the same location gives the same answer again. *)
Theorem robots_asked_once_per_origin `{L : GoLib} {W : Type} (E : Env W)
    (f : SitemapFetcher) (u u' : URL) (cache : gmap string robotsRules)
    (w w' : W) :
  Scheme u' = Scheme u -> Host u' = Host u ->
  let first := allowedByRobots E f u cache w in
  let cache1 := snd (result first) in
  (length (requested (events first)) <= 1)%nat
  /\ Forall (fun url => url = url_String (robotsLocation (Scheme u) (Host u)))
            (requested (events first))
  /\ events (allowedByRobots E f u' cache1 w') = []
  /\ world (allowedByRobots E f u' cache1 w') = w'
  /\ snd (result (allowedByRobots E f u' cache1 w')) = cache1
  /\ fst (fst (result (allowedByRobots E f u cache1 w')))
     = fst (fst (result first)).
Proof.
  intros Hs Hh. cbn zeta. rewrite !allowedByRobots_run.
  cbn [result world events fst snd]. rewrite Hs, Hh.
  rewrite (getRobots_again E f (originURL (Scheme u) (Host u)) cache w w').
  cbn [result world events fst snd].
  destruct (getRobots_request E f (originURL (Scheme u) (Host u)) cache w)
    as [->|(r & -> & Hr)].
  - split; [cbn; lia|]. split; [constructor|]. now repeat split.
  - split; [cbn; lia|]. split; [|now repeat split].
    apply newRequest_shape in Hr. subst r. repeat constructor.
Qed.

(** Two locations of the test site, robots.txt missing. *)
Lemma robots_asked_once_per_origin_witness :
  let first := allowedByRobots (Testbed.serverEnv (Testbed.routes []))
                 (Testbed.fetcher Testbed.noOptions)
                 (Testbed.urlAt "example.com" "/a") ∅ 0 in
  events (allowedByRobots (Testbed.serverEnv (Testbed.routes []))
            (Testbed.fetcher Testbed.noOptions)
            (Testbed.urlAt "example.com" "/b") (snd (result first)) 1) = [].
Proof.
  exact (proj1 (proj2 (proj2 (robots_asked_once_per_origin
                                (Testbed.serverEnv (Testbed.routes []))
                                (Testbed.fetcher Testbed.noOptions)
                                (Testbed.urlAt "example.com" "/a")
                                (Testbed.urlAt "example.com" "/b") ∅ 0 1
                                eq_refl eq_refl)))).
Defined.

(** X16. What robots.txt refuses is neither fetched nor yielded.  With
    robots not ignored, once the robots cache holds rules for the origin
    of a location whose group refuses it, then in that state and in every
    state the queue loop reaches from it: an entry that resolves to the
    location is skipped by the callback without a yield, a request, an
    error or a change of state; and a turn for a task with that location
    does nothing to the world, being over after the depth test, the seen
    test, which marks the location as seen, and the robots test. *)
Theorem robots_disallow_is_respected `{L : GoLib} {W : Type} (E : Env W)
    (f : SitemapFetcher) (yield : yieldFn (W := W)) (st st' : walkState)
    (w w' : W) (u : URL) :
  IgnoreRobots (opts f) = false ->
  denies st u ->
  rtc (turn E f yield) (st, w) (st', w') ->
  (forall current entry w1,
      resolveLocation (loc current) (xmlURLEntry.Loc entry) = inr u ->
      onURL E f yield current entry st' w1 = (None, st', w1, []))
  /\ (forall t w1,
        loc t = u ->
        events (walkTask E f yield t st' w1) = []
        /\ world (walkTask E f yield t st' w1) = w1
        /\ ((MaxDepth (opts f) >? 0) && (depth t >? MaxDepth (opts f))
            = false ->
            result (walkTask E f yield t st' w1)
            = Continue (if decide (canonicalURLKey (Some u) ∈ seen st')
                        then st' else markSeen st' t))).
Proof.
  intros Hig Hden Hturns.
  apply (turns_cache E f yield) in Hturns. cbn [fst] in Hturns.
  apply (denies_mono st st' u Hturns) in Hden. clear Hturns. split.
  - intros current entry w1 Hres. unfold onURL. rewrite Hres.
    rewrite bind_run, (robotsGate_denied E f st' u w1 Hig Hden).
    cbn [result world events fst snd negb ret]. now destruct st'.
  - intros t w1 <-. unfold walkTask.
    destruct (_ && _); [split; [reflexivity|split; [reflexivity|]];
                        discriminate|].
    destruct (decide _) as [Hin|Hnin];
      [split; [reflexivity|split; [reflexivity|]]; reflexivity|].
    assert (Hden' : denies (markSeen st' t) (loc t)) by exact Hden.
    rewrite bind_run.
    change (setSeen st' _) with (markSeen st' t).
    rewrite (robotsGate_denied E f (markSeen st' t) (loc t) w1 Hig Hden').
    cbn [result world events fst snd negb ret].
    split; [reflexivity|]. split; [reflexivity|]. intros _.
    reflexivity.
Qed.

(** The refused location /blocked of the test site. *)
Lemma robots_disallow_is_respected_witness :
  IgnoreRobots (opts (Testbed.fetcher Testbed.noOptions)) = false
  /\ denies Testbed.refusing (Testbed.urlAt "example.com" "/blocked")
  /\ events (walkTask (Testbed.serverEnv (Testbed.routes []))
               (Testbed.fetcher Testbed.noOptions) Testbed.collect
               {| loc := Testbed.urlAt "example.com" "/blocked"; depth := 0;
                  allowMissing := false |}
               Testbed.refusing 0) = [].
Proof.
  assert (Hden : denies Testbed.refusing
                   (Testbed.urlAt "example.com" "/blocked")).
  { exists Testbed.refusal, Testbed.blockedGroup.
    split; [apply lookup_insert_eq|]. split; reflexivity. }
  split; [reflexivity|]. split; [exact Hden|].
  exact (proj1 (proj2 (robots_disallow_is_respected
                         (Testbed.serverEnv (Testbed.routes []))
                         (Testbed.fetcher Testbed.noOptions) Testbed.collect
                         Testbed.refusing Testbed.refusing 0 0
                         (Testbed.urlAt "example.com" "/blocked")
                         eq_refl Hden (rtc_refl _ _))
                      {| loc := Testbed.urlAt "example.com" "/blocked";
                         depth := 0; allowMissing := false |} 0 eq_refl)).
Defined.

(** ** A callback that fails *)

Lemma classifyParseError_yield (current : sitemapTask) (e : error) :
  classifyParseError current (ErrYield e) = ErrYield e.
Proof.
  unfold classifyParseError.
  destruct (isContextError (ErrYield e)); [reflexivity|].
  destruct (asErrMaxURLs (ErrYield e)); reflexivity.
Qed.

Section YieldFails.
Context `{L : GoLib} {W : Type} (E : Env W) (f : SitemapFetcher).
Variable yield : yieldFn (W := W).
Hypothesis Hfail : forall it w, fst (yield it w) <> None.

Lemma deliver_fails (current : sitemapTask) (entry : xmlURLEntry.t)
    (a : admitted) (st : walkState) (w : W) :
  let r := deliver f yield current entry a st w in
  refusedOnce yield (events r) (fun e => fst (result r) = Some (ErrYield e)).
Proof.
  cbn zeta. unfold deliver. destruct a as [|err|u]; try (now left).
  destruct (_ && _); [now left|]. right.
  rewrite emit_bind, perform_bind. cbn [result events fst snd].
  destruct (fst (yield (itemOf current entry u) w)) as [e|] eqn:Hy;
    [|now apply Hfail in Hy].
  exists (itemOf current entry u), e, w. now repeat split.
Qed.

Lemma onURL_fails (current : sitemapTask) (entry : xmlURLEntry.t)
    (st : walkState) (w : W) :
  let r := onURL E f yield current entry st w in
  refusedOnce yield (events r) (fun e => fst (result r) = Some (ErrYield e)).
Proof.
  cbn zeta. rewrite onURL_split, bind_run. cbn [result events fst snd].
  unfold refusedOnce. rewrite yielded_app.
  rewrite (net_no_yield _ (request_is_net _
             (admission_events E f current entry st w))).
  cbn [app]. apply deliver_fails.
Qed.

Lemma parseEvents_fails (current : sitemapTask) (evs : list xmlEvent)
    (final : option error) (st : walkState) (w : W) :
  let r := parseEvents E evs final (Some (onURL E f yield current))
                       (Some (onSitemap current)) st w in
  refusedOnce yield (events r) (fun e => fst (result r) = Some (ErrYield e)).
Proof.
  cbn zeta. revert st w. induction evs as [|ev evs IH]; intros st w;
    (destruct (fst (ctx_Err E w)) as [cerr|] eqn:Hctx;
     [rewrite (parseEvents_cancelled E _ _ _ _ _ w cerr Hctx); now left|]).
  - rewrite (parseEvents_nil E _ _ _ _ w Hctx). now left.
  - destruct ev as [entry|entry|].
    + rewrite (parseEvents_url E _ _ _ _ _ _ w Hctx). cbn zeta.
      pose proof (onURL_fails current entry st (snd (ctx_Err E w))) as Hu.
      cbn zeta in Hu.
      set (r := onURL E f yield current entry st (snd (ctx_Err E w))) in *.
      destruct (fst (result r)) as [err|] eqn:Hr.
      * cbn [result events fst snd].
        destruct Hu as [Hu|(it & e & w0 & Hy & Hw & He)]; [now left|].
        right. exists it, e, w0. repeat split; assumption.
      * destruct Hu as [Hu|(it & e & w0 & Hy & Hw & He)]; [|discriminate].
        cbn [result events fst snd]. unfold refusedOnce.
        rewrite yielded_app, Hu. cbn [app].
        apply (IH (snd (result r)) (world r)).
    + rewrite (parseEvents_sitemap E _ _ _ _ _ _ w Hctx). cbn zeta.
      destruct (onSitemap_run current entry st (snd (ctx_Err E w)))
        as (q & ->).
      cbn [result world events fst snd app]. apply IH.
    + rewrite (parseEvents_other E _ _ _ _ _ w Hctx). apply IH.
Qed.

Lemma walkTask_fails (current : sitemapTask) (st : walkState) (w : W) :
  let r := walkTask E f yield current st w in
  refusedOnce yield (events r)
              (fun e => result r = Return (Some (ErrYield e))).
Proof.
  cbn zeta. rewrite walkTask_split, bind_run.
  cbn [result events fst snd]. unfold refusedOnce.
  rewrite yielded_app, beforeParse_events. cbn [app].
  set (w1 := world (beforeParse E f current st w)).
  destruct (result (beforeParse E f current st w)) as [ctl|[reader st1]];
    [now left|].
  unfold parseTask, parseSitemap. rewrite bind_run.
  cbn [result events fst snd].
  pose proof (parseEvents_fails current (xmlEvents (xml_Decode reader))
                (xmlErr (xml_Decode reader)) st1 w1) as Hp.
  cbn zeta in Hp.
  set (p := parseEvents E _ _ _ _ st1 w1) in *.
  destruct Hp as [Hp|(it & e & w0 & Hy & Hw & He)].
  - left. rewrite yielded_app, Hp.
    now destruct (result p) as [[perr|] st2].
  - right. exists it, e, w0.
    destruct (result p) as [perr st2]. cbn [fst] in He. subst perr.
    cbn [ret result events fst snd]. rewrite app_nil_r.
    repeat split; try assumption. now rewrite classifyParseError_yield.
Qed.

Lemma walkLoop_fails (fuel : nat) (st : walkState) (w : W) :
  let r := walkLoop E f yield fuel st w in
  refusedOnce yield (events r)
              (fun e => result r = Returned (Some (ErrYield e))).
Proof.
  cbn zeta. revert st w. induction fuel as [|fuel IH]; intros st w;
    (destruct st as [q sn rc sc uc]; destruct q as [|current rest];
     cbn [walkLoop queue]);
    try (now left).
  rewrite perform_bind.
  destruct (fst (ctx_Err E w)) as [cerr|]; [now left|].
  rewrite bind_run. cbn [result events fst snd].
  set (st0 := setQueue _ rest). set (w1 := snd (ctx_Err E w)).
  pose proof (walkTask_fails current st0 w1) as Ht. cbn zeta in Ht.
  set (t := walkTask E f yield current st0 w1) in *.
  unfold refusedOnce. rewrite yielded_app.
  destruct Ht as [Ht|(it & e & w0 & Hy & Hw & He)].
  - rewrite Ht. cbn [app].
    destruct (result t) as [st'|err]; [apply IH|now left].
  - right. exists it, e, w0. rewrite He. cbn [ret result events fst snd].
    rewrite app_nil_r. now repeat split.
Qed.

End YieldFails.

(** X17. A yield callback that fails ends the traversal.  If the callback
    refuses every item, Walk invokes it at most once, and when it has
    invoked it, Walk returns ErrYield around the very error the callback
    gave for that item; the error is not wrapped into ErrSitemapParse. *)
Theorem failing_yield_ends_traversal `{L : GoLib} {W : Type} (E : Env W)
    (f : SitemapFetcher) (fuel : nat) (website : option URL)
    (yield : yieldFn (W := W)) (w : W) :
  (forall it w', fst (yield it w') <> None) ->
  let r := Walk E f fuel website (Some yield) w in
  yielded (events r) = []
  \/ exists it e w0,
       yielded (events r) = [it]
       /\ fst (yield it w0) = Some e
       /\ result r = Returned (Some (ErrYield e)).
Proof.
  intros Hfail. cbn zeta. unfold Walk.
  destruct (normalizeInputURL website) as [err|[input base]]; [now left|].
  rewrite bind_run. cbn [result events fst snd]. rewrite yielded_app.
  rewrite (net_no_yield _ (request_is_net _ (seed_events E f input base w))).
  cbn [app].
  destruct (result (seed E f input base w)) as [initial cache].
  destruct (_ =? 0); [now left|].
  apply (walkLoop_fails E f yield Hfail).
Qed.

(** The document with two entries and a callback that refuses. *)
Lemma failing_yield_ends_traversal_witness :
  let r := Walk (Testbed.serverEnv Testbed.twoSite)
                (Testbed.fetcher Testbed.noOptions) 2
                (Testbed.parsed Testbed.sitemapURL) (Some Testbed.refuse) 0 in
  yielded (events r) = []
  \/ exists it e w0,
       yielded (events r) = [it]
       /\ fst (Testbed.refuse it w0) = Some e
       /\ result r = Returned (Some (ErrYield e)).
Proof.
  apply (failing_yield_ends_traversal
           (Testbed.serverEnv Testbed.twoSite)
           (Testbed.fetcher Testbed.noOptions) 2
           (Testbed.parsed Testbed.sitemapURL) Testbed.refuse 0).
  intros it w'. discriminate.
Defined.

(** ** A context that is already cancelled *)

Section Cancelled.
Context `{L : GoLib} {W : Type} (E : Env W) (f : SitemapFetcher).
Variable yield : yieldFn (W := W).

Lemma request_no_sleep (evs : list event) :
  Forall requestEvent evs -> slept evs = [].
Proof.
  induction 1 as [|e evs He _ IH]; [reflexivity|].
  destruct e; cbn in *; try contradiction; exact IH.
Qed.

Lemma seed_one_request (input base : URL) (w : W) :
  (length (requested (events (seed E f input base w))) <= 1)%nat.
Proof.
  unfold seed. rewrite events_bind, requested_app, length_app.
  match goal with
  | |- (?a + ?b <= 1)%nat =>
      assert (Hb : b = 0%nat); [|assert (Ha : (a <= 1)%nat); [|lia]]
  end.
  - now destruct (result _).
  - destruct (_ && _); [|cbn; lia].
    rewrite events_bind.
    destruct (getRobots_request E f base ∅ w) as [->|(r & -> & _)];
      destruct (result (getRobots E f base ∅ w)); cbn; lia.
Qed.

Lemma seed_initial (input base : URL) (w : W) :
  exists t rest, fst (result (seed E f input base w)) = t :: rest.
Proof.
  unfold seed. rewrite result_bind.
  match goal with
  | |- context [match ?r with pair _ _ => _ end] =>
      destruct r as [robots cache]
  end.
  cbn [ret result fst].
  pose proof (initialSitemaps_length input base robots) as Hlen.
  destruct (initialSitemaps input base robots) as [|t rest];
    [|now exists t, rest].
  exfalso. cbn [length] in Hlen.
  destruct (isLikelySitemapURL _); [discriminate|].
  destruct robots as [rules|]; [|discriminate].
  destruct (sitemaps rules); discriminate.
Qed.

End Cancelled.

(** X18. A traversal under a context that is already cancelled touches no
    sitemap: nothing is fetched or yielded and no timer is started; at
    most the one robots.txt request of the seeding is made.  When the
    input normalizes and the loop is entered, Walk returns the error of
    the context. *)
Theorem cancelled_context_stops_walk `{L : GoLib} {W : Type} (E : Env W)
    (f : SitemapFetcher) (fuel : nat) (website : option URL)
    (yield : yieldFn (W := W)) (w : W) :
  (forall w', fst (ctx_Err E w') <> None) ->
  let r := Walk E f fuel website (Some yield) w in
  fetched (events r) = [] /\ yielded (events r) = []
  /\ slept (events r) = []
  /\ (length (requested (events r)) <= 1)%nat
  /\ match normalizeInputURL website with
     | inl _ => True
     | inr _ =>
         (0 < fuel)%nat ->
         exists err w0,
           fst (ctx_Err E w0) = Some err /\ result r = Returned (Some err)
     end.
Proof.
  intros Hctx. cbn zeta. unfold Walk.
  destruct (normalizeInputURL website) as [err|[input base]];
    [cbn; repeat split; lia|].
  rewrite bind_run. cbn [result events fst snd].
  pose proof (seed_events E f input base w) as Hseed.
  pose proof (seed_one_request E f input base w) as Hone.
  destruct (seed_initial E f input base w) as (t & rest & Hinit).
  set (w1 := world (seed E f input base w)).
  destruct (result (seed E f input base w)) as [initial cache].
  cbn [fst] in Hinit. subst initial.
  change (Z.of_nat (length (t :: rest)) =? 0) with false. cbn iota.
  assert (Hloop : events (walkLoop E f yield fuel
                            (initialState (t :: rest) cache) w1) = []
                  /\ ((0 < fuel)%nat ->
                      exists err w0,
                        fst (ctx_Err E w0) = Some err
                        /\ result (walkLoop E f yield fuel
                                     (initialState (t :: rest) cache) w1)
                           = Returned (Some err))).
  { destruct fuel as [|fuel]; cbn [walkLoop initialState queue];
      [split; [reflexivity|lia]|].
    rewrite perform_bind.
    destruct (fst (ctx_Err E w1)) as [cerr|] eqn:Hc;
      [|now apply Hctx in Hc].
    split; [reflexivity|]. intros _. exists cerr, w1. now split. }
  destruct Hloop as [-> Hres]. rewrite app_nil_r.
  split; [now apply net_no_fetch, request_is_net|].
  split; [now apply net_no_yield, request_is_net|].
  split; [now apply request_no_sleep|].
  split; [exact Hone|exact Hres].
Qed.

(** The test site under a cancelled context. *)
Lemma cancelled_context_stops_walk_witness :
  fetched (events (Walk (Testbed.cancelledEnv Testbed.twoSite)
                        (Testbed.fetcher Testbed.noOptions) 2
                        (Testbed.parsed Testbed.sitemapURL)
                        (Some Testbed.collect) 0)) = [].
Proof.
  apply (cancelled_context_stops_walk
           (Testbed.cancelledEnv Testbed.twoSite)
           (Testbed.fetcher Testbed.noOptions) 2
           (Testbed.parsed Testbed.sitemapURL) Testbed.collect 0).
  intros w'. discriminate.
Defined.

(** ** New and the User-Agent *)

(** X19. New fills in the default User-Agent when none is configured and
    changes no other option; applying it to its own options changes
    nothing.  So the fetcher it builds never has an empty User-Agent,
    and every request of its traversals carries the configured
    User-Agent, or the default one, and never an empty one. *)
Theorem New_defaults_user_agent `{L : GoLib} (o : Options) :
  UserAgent (opts (New o))
  = (if isEmpty (UserAgent o) then defaultUserAgent else UserAgent o)
  /\ UserAgent (opts (New o)) <> ""
  /\ opts (New o) = withUserAgent o (UserAgent (opts (New o)))
  /\ New (opts (New o)) = New o
  /\ (forall (W : Type) (E : Env W) (fuel : nat) (website : option URL)
             (yield : option (yieldFn (W := W))) (w : W),
        Forall (fun r => reqUserAgent r = UserAgent (opts (New o))
                         /\ reqUserAgent r <> "")
               (requests (events (Walk E (New o) fuel website yield w)))).
Proof.
  assert (Hua : UserAgent (opts (New o))
                = (if isEmpty (UserAgent o) then defaultUserAgent
                   else UserAgent o)).
  { unfold New. cbn [opts]. now destruct (isEmpty (UserAgent o)). }
  assert (Hne : UserAgent (opts (New o)) <> "").
  { rewrite Hua. destruct (isEmpty (UserAgent o)) eqn:He;
      [discriminate|now apply isEmpty_false]. }
  split; [exact Hua|]. split; [exact Hne|]. split; [|split].
  - unfold New. cbn [opts].
    destruct (isEmpty (UserAgent o)); [reflexivity|now destruct o].
  - unfold New at 1. cbn [opts].
    apply isEmpty_false in Hne. now rewrite Hne.
  - intros W E fuel website yield w.
    apply Forall_forall. intros r Hr. apply requests_elem in Hr.
    pose proof (Walk_expected E (New o) fuel website yield w) as Hexp.
    cbn zeta in Hexp. eapply Forall_forall in Hexp; [|exact Hr].
    cbn in Hexp.
    destruct Hexp as [(u & _ & Hreq)|(_ & s & h & Hreq)];
      apply newRequest_shape in Hreq; subst r; cbn [reqUserAgent];
      now split.
Qed.

(** ** Seeding from robots.txt *)

Lemma getRobots_success `{L : GoLib} {W : Type} (E : Env W)
    (f : SitemapFetcher) (base : URL) (cache : gmap string robotsRules)
    (req : Request) (resp : Response) (data : RobotsData) (w : W) :
  cache !! robotsKey base = None ->
  newRequest f MethodGet (url_ResolveReference base (pathURL "/robots.txt"))
    = inr req ->
  fst (client_Do E req w) = inr resp ->
  StatusCode resp = StatusOK ->
  robotstxt_FromResponse resp = inr data ->
  let rules := {| group := robots_FindGroup data (UserAgent (opts f));
                  sitemaps := robotsSitemapURLs base (robots_Sitemaps data) |}
  in
  getRobots E f base cache w
  = (inr rules, <[robotsKey base := rules]> cache, snd (client_Do E req w),
     [EvRequest req]).
Proof.
  intros Hc Hreq Hdo Hcode Hdata. cbn zeta. unfold getRobots.
  rewrite Hc, Hreq, emit_bind, perform_bind, Hdo, Hcode, Hdata.
  reflexivity.
Qed.

(** X20. The sitemaps robots.txt declares take the place of the default
    probes.  For an input that does not look like a sitemap, robots not
    ignored, when robots.txt of the base answers 200 and parses, seeding
    makes that one request and caches the rules: the group for the
    configured User-Agent and the declared sitemaps that parse as URLs,
    relative ones resolved against the base.  If there is at least one,
    the traversal starts with exactly these, at depth 0 and not allowed
    to be missing; otherwise with the six default locations, which are
    allowed to be missing. *)
Theorem seed_prefers_declared_sitemaps `{L : GoLib} {W : Type} (E : Env W)
    (f : SitemapFetcher) (input base : URL) (req : Request) (resp : Response)
    (data : RobotsData) (w : W) :
  IgnoreRobots (opts f) = false ->
  isLikelySitemapURL (Some input) = false ->
  newRequest f MethodGet (url_ResolveReference base (pathURL "/robots.txt"))
    = inr req ->
  fst (client_Do E req w) = inr resp ->
  StatusCode resp = StatusOK ->
  robotstxt_FromResponse resp = inr data ->
  let declared := robotsSitemapURLs base (robots_Sitemaps data) in
  let rules := {| group := robots_FindGroup data (UserAgent (opts f));
                  sitemaps := declared |} in
  seed E f input base w
  = (match declared with
     | [] => map (fun l => {| loc := l; depth := 0; allowMissing := true |})
                 (defaultSitemaps base)
     | _ => map (fun l => {| loc := l; depth := 0; allowMissing := false |})
                declared
     end,
     <[robotsKey base := rules]> ∅, snd (client_Do E req w),
     [EvRequest req]).
Proof.
  intros Hig Hl Hreq Hdo Hcode Hdata. cbn zeta.
  unfold seed. rewrite Hig, Hl. cbn [negb andb].
  rewrite !bind_run.
  rewrite (getRobots_success E f base ∅ req resp data w (lookup_empty _)
             Hreq Hdo Hcode Hdata).
  cbn [result world events fst snd ret app].
  unfold initialSitemaps. rewrite Hl. cbn [sitemaps].
  destruct (robotsSitemapURLs base (robots_Sitemaps data)) as [|l ls];
    reflexivity.
Qed.

(** robots.txt of the site declares /custom.xml. *)
Lemma seed_prefers_declared_sitemaps_witness :
  map loc (fst (result (seed (Testbed.serverEnv Testbed.declaringSite)
                             (Testbed.fetcher Testbed.noOptions)
                             Testbed.site Testbed.site 0)))
  = [Testbed.urlAt "example.com" "/custom.xml"].
Proof.
  rewrite (seed_prefers_declared_sitemaps
             (Testbed.serverEnv Testbed.declaringSite)
             (Testbed.fetcher Testbed.noOptions) Testbed.site Testbed.site
             Testbed.robotsRequest (Testbed.ok Testbed.declaringRobots)
             (Testbed.mkRobots [] ["/custom.xml"]) 0
             eq_refl eq_refl eq_refl eq_refl eq_refl eq_refl).
  reflexivity.
Defined.

(** ** Which tasks may be missing *)

Section Probes.
Context `{L : GoLib} {W : Type} (E : Env W) (f : SitemapFetcher).
Variable yield : yieldFn (W := W).

Lemma initialSitemaps_probes (input base : URL) (robots : option robotsRules) :
  Forall (probeOnly input base) (initialSitemaps input base robots).
Proof.
  unfold initialSitemaps.
  destruct (isLikelySitemapURL (Some input)) eqn:Hl.
  - apply Forall_cons. split; [|constructor].
    unfold probeOnly. cbn. intros [=].
  - assert (Hp : Forall (probeOnly input base)
                   (map (fun l => {| loc := l; depth := 0;
                                     allowMissing := true |})
                        (defaultSitemaps base))).
    { apply Forall_forall. intros t Ht.
      apply list_elem_of_fmap in Ht as (u & -> & Hu).
      intros _. cbn. now repeat split. }
    destruct robots as [r|]; [|exact Hp].
    destruct (0 <? Z.of_nat (length (sitemaps r))); [|exact Hp].
    apply Forall_forall. intros t Ht.
    apply list_elem_of_fmap in Ht as (u & -> & _). intros [=].
Qed.

Lemma turn_probes (input base : URL) (a b : walkState * W) :
  turn E f yield a b ->
  Forall (probeOnly input base) (queue (fst a)) ->
  Forall (probeOnly input base) (queue (fst b)).
Proof.
  intros (current & rest & evs & Hq & _ & Hrun) Hl.
  pose proof (walkTask_queue E f yield current (setQueue (fst a) rest)
                (snd (ctx_Err E (snd a)))) as Hg.
  rewrite Hrun in Hg. cbn [result fst] in Hg.
  destruct Hg as [(new & Hnew & Hch) _]. rewrite Hnew. cbn [setQueue queue].
  rewrite Hq in Hl. apply Forall_cons in Hl as [_ Hrest].
  apply Forall_app. split; [exact Hrest|].
  eapply Forall_impl; [exact Hch|]. intros t (_ & Hm & _) Ht. congruence.
Qed.

Lemma turns_probes (input base : URL) (a b : walkState * W) :
  rtc (turn E f yield) a b ->
  Forall (probeOnly input base) (queue (fst a)) ->
  Forall (probeOnly input base) (queue (fst b)).
Proof.
  induction 1 as [a|a b c Hab _ IH]; [trivial|].
  intros Hl. apply IH. now apply (turn_probes input base a b).
Qed.

End Probes.

(** X21. Only a default probe may be missing.  In every state the queue
    loop reaches from the tasks Walk starts with, a task that is allowed
    to be missing has depth 0 and one of the six default locations of the
    base, and the input did not look like a sitemap.  The input itself,
    the sitemaps robots.txt declares and the sitemaps an index lists are
    never allowed to be missing. *)
Theorem only_probes_may_be_missing `{L : GoLib} {W : Type} (E : Env W)
    (f : SitemapFetcher) (yield : yieldFn (W := W)) (input base : URL)
    (robots : option robotsRules) (cache : gmap string robotsRules)
    (w w' : W) (st' : walkState) :
  rtc (turn E f yield)
      (initialState (initialSitemaps input base robots) cache, w) (st', w') ->
  Forall (fun t =>
            allowMissing t = true ->
            depth t = 0 /\ loc t ∈ defaultSitemaps base
            /\ isLikelySitemapURL (Some input) = false)
         (queue st').
Proof.
  intros Hturns.
  apply (turns_probes E f yield input base _ _ Hturns).
  apply initialSitemaps_probes.
Qed.

(** The task of an explicit sitemap URL must be there. *)
Lemma only_probes_may_be_missing_witness :
  Forall (fun t =>
            allowMissing t = true ->
            depth t = 0 /\ loc t ∈ defaultSitemaps Testbed.site
            /\ isLikelySitemapURL
                 (Some (Testbed.urlAt "example.com" "/sitemap.xml")) = false)
         (initialSitemaps (Testbed.urlAt "example.com" "/sitemap.xml")
                          Testbed.site None).
Proof.
  exact (only_probes_may_be_missing
           (Testbed.serverEnv (Testbed.routes []))
           (Testbed.fetcher Testbed.noOptions) Testbed.collect
           (Testbed.urlAt "example.com" "/sitemap.xml") Testbed.site None ∅
           0 0 _ (rtc_refl _ _)).
Defined.

(** ** The decoder loop *)

Lemma parseEvents_notes `{L : GoLib} {W : Type} (E : Env W)
    (evs : list xmlEvent) (final : option error) (s : list xmlEvent) (w : W) :
  (forall w', ctx_Err E w' = (None, w')) ->
  parseEvents E evs final (Some noteURL) (Some noteSitemap) s w
  = (final, s ++ filter isEntry evs, w, []).
Proof.
  intros Hctx. revert s.
  induction evs as [|ev evs IH]; intros s; cbn [parseEvents];
    rewrite perform_bind, Hctx; cbn [fst snd].
  - cbn [filter]. now rewrite app_nil_r.
  - destruct ev as [entry|entry|].
    + unfold noteURL at 1. rewrite ret_bind, IH.
      now rewrite <- app_assoc.
    + unfold noteSitemap at 1. rewrite ret_bind, IH.
      now rewrite <- app_assoc.
    + apply IH.
Qed.

(** X22. parseSitemap hands every url and sitemap element of the
    document to its callback, once and in document order, and passes over
    every other token.  With callbacks that do not fail and a context
    that is not cancelled and leaves the world alone, it returns what
    ended the document: nil at the end of the input, else the error of
    the decoder; nil callbacks are skipped. *)
Theorem parseSitemap_in_document_order `{L : GoLib} {W : Type} (E : Env W)
    (reader : Stream) (s : list xmlEvent) (w : W) :
  (forall w', ctx_Err E w' = (None, w')) ->
  parseSitemap E reader (Some noteURL) (Some noteSitemap) s w
  = (xmlErr (xml_Decode reader),
     s ++ filter isEntry (xmlEvents (xml_Decode reader)), w, [])
  /\ parseSitemap E reader None None s w
     = (xmlErr (xml_Decode reader), s, w, []).
Proof.
  intros Hctx. unfold parseSitemap. split; [now apply parseEvents_notes|].
  induction (xmlEvents (xml_Decode reader)) as [|ev evs IH];
    cbn [parseEvents]; rewrite perform_bind, Hctx; cbn [fst snd];
    [reflexivity|].
  destruct ev; exact IH.
Qed.

(** The index document of the tests: one sitemap element. *)
Lemma parseSitemap_in_document_order_witness :
  snd (result (parseSitemap (Testbed.serverEnv (Testbed.routes []))
                 (Testbed.bodyOf Testbed.indexDoc)
                 (Some noteURL) (Some noteSitemap) [] 0))
  = [XSitemap {| xmlSitemapEntry.Loc := " /a/sitemap.xml ";
                 xmlSitemapEntry.LastMod := "" |}].
Proof.
  rewrite (proj1 (parseSitemap_in_document_order
                    (Testbed.serverEnv (Testbed.routes []))
                    (Testbed.bodyOf Testbed.indexDoc) [] 0
                    (fun w' => eq_refl))).
  vm_compute. reflexivity.
Defined.

(** ** Where the fetched locations come from *)

Section Discovery.
Context `{L : GoLib} {W : Type} (E : Env W) (f : SitemapFetcher).
Variable yield : yieldFn (W := W).

Lemma listedIn_mono (a b evs : list event) (u : URL) :
  listedIn E f evs u -> listedIn E f (a ++ evs ++ b) u.
Proof.
  intros (parent & am & w & reader & entry & pre & post & -> & H).
  exists parent, am, w, reader, entry, (a ++ pre), (post ++ b).
  split; [|exact H]. now rewrite <- !app_assoc.
Qed.

Lemma listedIn_fetched (evs : list event) (u : URL) :
  listedIn E f evs u ->
  exists parent am w reader entry pre post,
    parent ∈ fetched evs
    /\ evs = pre ++ events (fetchSitemap E f parent am w) ++ post
    /\ result (fetchSitemap E f parent am w) = inr (Some reader)
    /\ XSitemap entry ∈ xmlEvents (xml_Decode reader)
    /\ resolveLocation parent (xmlSitemapEntry.Loc entry) = inr u.
Proof.
  intros (parent & am & w & reader & entry & pre & post & Hev & H).
  exists parent, am, w, reader, entry, pre, post.
  split; [|split; [exact Hev|exact H]].
  rewrite Hev, !fetched_app.
  destruct (fetchSitemap_events E f parent am w) as (net & -> & _).
  apply elem_of_app. right. apply elem_of_app. left. now left.
Qed.

(** A turn that goes on has appended tasks for locations listed in the
    sitemap it fetched. *)
Lemma walkTask_listed (current : sitemapTask) (st : walkState) (w : W) :
  match result (walkTask E f yield current st w) with
  | Continue st' =>
      exists new,
        queue st' = queue st ++ new
        /\ Forall (fun t =>
                     listedIn E f (events (walkTask E f yield current st w))
                              (loc t)) new
  | Return _ => True
  end.
Proof.
  pose proof (walkTask_tasks E f yield current st w) as Hq.
  pose proof (beforeParse_reader E f current st w) as Hr.
  destruct (result (walkTask E f yield current st w)) as [st'|err];
    [|exact I].
  exists (docTasks current (turnDocument E f current st w)).
  split; [exact Hq|]. apply Forall_forall. intros t Ht.
  apply docTasks_elem in Ht as (_ & _ & entry & Hin & Hres).
  unfold turnDocument in Hin. rewrite walkTask_split, events_bind.
  destruct (result (beforeParse E f current st w)) as [ctl|[reader st1]];
    [inversion Hin|].
  cbn zeta in Hr. destruct Hr as [Hf Hev]. rewrite Hev.
  eexists (loc current), (allowMissing current), _, reader, entry, _, _.
  split; [now rewrite <- app_assoc|].
  split; [exact Hf|]. split; [exact Hin|exact Hres].
Qed.

Lemma walkLoop_listed (fuel : nat) (st : walkState) (w : W)
    (roots : list URL) (past : list event) :
  Forall (fun t => loc t ∈ roots \/ listedIn E f past (loc t)) (queue st) ->
  Forall (fun u =>
            u ∈ roots
            \/ listedIn E f
                 (past ++ events (walkLoop E f yield fuel st w)) u)
         (fetched (events (walkLoop E f yield fuel st w))).
Proof.
  revert st w past.
  induction fuel as [|fuel IH]; intros st w past Hq;
    (destruct st as [q sn rc sc uc]; destruct q as [|current rest];
     cbn [walkLoop queue] in *);
    try constructor.
  rewrite perform_bind.
  destruct (fst (ctx_Err E w)) as [cerr|]; [constructor|].
  rewrite events_bind, fetched_app.
  set (st0 := setQueue _ rest). set (w1 := snd (ctx_Err E w)).
  pose proof (walkTask_fetched E f yield current st0 w1) as [Hf _].
  pose proof (walkTask_listed current st0 w1) as Hch.
  cbn zeta in Hf.
  set (t := walkTask E f yield current st0 w1) in *.
  apply Forall_cons in Hq as [Hcur Hrest].
  apply Forall_app. split.
  - destruct Hf as [->|[-> _]]; [constructor|].
    apply Forall_cons. split; [|constructor].
    destruct Hcur as [Hc|Hc]; [now left|right].
    exact (listedIn_mono [] _ past _ Hc).
  - destruct (result t) as [st'|err]; [|constructor].
    destruct Hch as (new & Hnew & Hchildren).
    specialize (IH st' (world t) (past ++ events t)).
    rewrite <- app_assoc in IH. apply IH.
    rewrite Hnew. subst st0. cbn [setQueue queue].
    apply Forall_app. split.
    + eapply Forall_impl; [exact Hrest|].
      intros t' [H|H]; [now left|right].
      exact (listedIn_mono [] (events t) past _ H).
    + eapply Forall_impl; [exact Hchildren|].
      intros t' H. right.
      pose proof (listedIn_mono past [] (events t) _ H) as H'.
      now rewrite app_nil_r in H'.
Qed.

End Discovery.

(** X23. A traversal fetches only what it was pointed to.  Every location
    fetchSitemap is entered for is the location of one of the tasks the
    seeding made, or is listed in a sitemap fetched in the same
    traversal: fetchSitemap was entered for a parent location, its events
    are part of the trace of the traversal, it returned a reader, and the
    document of that reader has a sitemap element whose location text,
    resolved against the parent location, is the location fetched. *)
Theorem fetched_locations_are_discovered `{L : GoLib} {W : Type} (E : Env W)
    (f : SitemapFetcher) (fuel : nat) (website : option URL)
    (yield : option (yieldFn (W := W))) (w : W) :
  let evs := events (Walk E f fuel website yield w) in
  Forall (fun u =>
            (exists input base t,
                normalizeInputURL website = inr (input, base)
                /\ t ∈ fst (result (seed E f input base w))
                /\ loc t = u)
            \/ exists parent am w' reader entry pre post,
                 parent ∈ fetched evs
                 /\ evs = pre ++ events (fetchSitemap E f parent am w')
                              ++ post
                 /\ result (fetchSitemap E f parent am w')
                    = inr (Some reader)
                 /\ XSitemap entry ∈ xmlEvents (xml_Decode reader)
                 /\ resolveLocation parent (xmlSitemapEntry.Loc entry)
                    = inr u)
         (fetched evs).
Proof.
  cbn zeta. unfold Walk. destruct yield as [cb|]; [|constructor].
  destruct (normalizeInputURL website) as [err|[input base]] eqn:Hn;
    [constructor|].
  rewrite events_bind, fetched_app.
  rewrite (net_no_fetch _ (request_is_net _ (seed_events E f input base w))).
  cbn [app].
  set (w1 := world (seed E f input base w)).
  destruct (result (seed E f input base w)) as [initial cache] eqn:Hseed.
  destruct (_ =? 0); [constructor|].
  eapply Forall_impl;
    [apply (walkLoop_listed E f cb fuel (initialState initial cache) w1
              (map loc initial) (events (seed E f input base w)))|].
  - apply Forall_forall. intros t Ht. left.
    apply list_elem_of_fmap. now exists t.
  - intros u [Hu|Hp]; [left|right].
    + apply list_elem_of_fmap in Hu as (t & -> & Ht).
      exists input, base, t. split; [first [reflexivity|exact Hn]|].
      split; [|reflexivity]. rewrite Hseed. exact Ht.
    + apply listedIn_fetched in Hp
        as (parent & am & w' & reader & entry & pre & post & Hin & Hev & H).
      exists parent, am, w', reader, entry, pre, post.
      split; [|split; [exact Hev|exact H]].
      rewrite fetched_app in Hin.
      rewrite (net_no_fetch _ (request_is_net _
                 (seed_events E f input base w))) in Hin.
      exact Hin.
Qed.

(** ** Waiting *)

Section Waiting.
Context `{L : GoLib} {W : Type} (E : Env W) (f : SitemapFetcher).
Variable yield : yieldFn (W := W).

Lemma callback_no_sleep (evs : list event) :
  Forall callbackEvent evs -> slept evs = [].
Proof.
  induction 1 as [|e evs He _ IH]; [reflexivity|].
  destruct e; cbn in *; try contradiction; exact IH.
Qed.

Lemma beforeParse_waits (current : sitemapTask) (st : walkState) (w : W) :
  let evs := events (beforeParse E f current st w) in
  (length (slept evs) <= 3 * length (fetched evs))%nat.
Proof.
  cbn zeta. unfold beforeParse.
  destruct (_ && _); [cbn; lia|].
  destruct (decide _); [cbn; lia|].
  rewrite events_bind, slept_app, fetched_app, !length_app.
  pose proof (robotsGate_events E f (loc current)
                (setSeen st ({[canonicalURLKey (Some (loc current))]} ∪ seen st))
                w) as Hg.
  rewrite (request_no_sleep _ Hg). cbn [length].
  destruct (result (robotsGate E f _ _ w)) as [[allowed err] st1].
  destruct err as [err|]; [cbn; lia|].
  destruct (negb allowed); [cbn; lia|].
  destruct (_ && _); [cbn; lia|].
  rewrite events_bind, slept_app, fetched_app, !length_app.
  match goal with
  | |- context [fetchSitemap E f ?u ?am ?w2] =>
      destruct (fetchSitemap_lists E f u am w2) as (-> & _ & _ & Hs)
  end.
  cbn [length].
  match goal with
  | |- (_ + (_ + length (slept ?k)) <= _)%nat =>
      assert (Hk : slept k = []); [|rewrite Hk; cbn [length]; lia]
  end.
  now destruct (result (fetchSitemap E f _ _ _)) as [err|[reader|]].
Qed.

Lemma walkTask_waits (current : sitemapTask) (st : walkState) (w : W) :
  let evs := events (walkTask E f yield current st w) in
  (length (slept evs) <= 3 * length (fetched evs))%nat.
Proof.
  cbn zeta. rewrite walkTask_split, events_bind.
  rewrite slept_app, fetched_app, !length_app.
  pose proof (beforeParse_waits current st w) as Hb. cbn zeta in Hb.
  set (w1 := world (beforeParse E f current st w)).
  match goal with
  | |- (_ + length (slept ?k) <= _)%nat =>
      assert (Hk : slept k = []); [|rewrite Hk; cbn [length]; lia]
  end.
  destruct (result (beforeParse E f current st w)) as [ctl|[reader st1]];
    [reflexivity|].
  unfold parseTask. rewrite events_bind, slept_app.
  pose proof (parseSitemap_kept E f yield current reader st1 w1) as [_ Hcb].
  rewrite (callback_no_sleep _ Hcb).
  now destruct (result (parseSitemap E reader _ _ st1 w1)) as [[perr|] st2].
Qed.

Lemma walkLoop_waits (fuel : nat) (st : walkState) (w : W) :
  let evs := events (walkLoop E f yield fuel st w) in
  (length (slept evs) <= 3 * length (fetched evs))%nat.
Proof.
  cbn zeta. revert st w. induction fuel as [|fuel IH]; intros st w;
    (destruct st as [q sn rc sc uc]; destruct q as [|current rest];
     cbn [walkLoop queue]);
    try (cbn; lia).
  rewrite perform_bind.
  destruct (fst (ctx_Err E w)) as [cerr|]; [cbn; lia|].
  rewrite events_bind, slept_app, fetched_app, !length_app.
  set (st0 := setQueue _ rest). set (w1 := snd (ctx_Err E w)).
  pose proof (walkTask_waits current st0 w1) as Htask. cbn zeta in Htask.
  destruct (result (walkTask E f yield current st0 w1)) as [st'|err].
  - pose proof (IH st' (world (walkTask E f yield current st0 w1))). lia.
  - cbn [events ret snd]. change (slept []) with (@nil Z).
    change (fetched []) with (@nil URL). cbn [length]. lia.
Qed.

End Waiting.

(** X24. A traversal waits only to back off after a 429: every timer it
    starts runs for a positive delay of at most maxRetryDelay (30 s), and
    there are at most three of them for each sitemap fetchSitemap was
    entered for. *)
Theorem Walk_waits_are_bounded `{L : GoLib} {W : Type} (E : Env W)
    (f : SitemapFetcher) (fuel : nat) (website : option URL)
    (yield : option (yieldFn (W := W))) (w : W) :
  let evs := events (Walk E f fuel website yield w) in
  Forall (fun d => 0 < d <= maxRetryDelay) (slept evs)
  /\ (length (slept evs) <= 3 * length (fetched evs))%nat.
Proof.
  cbn zeta. split.
  - apply Forall_forall. intros d Hd.
    unfold slept in Hd. apply list_elem_of_omap in Hd as (e & He & Hs).
    destruct e as [r|d'|u|it]; try discriminate. injection Hs as ->.
    pose proof (Walk_expected E f fuel website yield w) as Hexp.
    cbn zeta in Hexp. eapply Forall_forall in Hexp; [|exact He].
    exact Hexp.
  - unfold Walk. destruct yield as [cb|]; [|cbn; lia].
    destruct (normalizeInputURL website) as [err|[input base]]; [cbn; lia|].
    rewrite events_bind, slept_app, fetched_app, !length_app.
    rewrite (request_no_sleep _ (seed_events E f input base w)).
    cbn [length].
    destruct (result (seed E f input base w)) as [initial cache].
    destruct (_ =? 0); [cbn; lia|].
    pose proof (walkLoop_waits E f cb fuel (initialState initial cache)
                  (world (seed E f input base w))) as Hloop.
    cbn zeta in Hloop. lia.
Qed.

(** ** A document under the default options *)

Section Complete.
Context `{L : GoLib} {W : Type} (E : Env W) (f : SitemapFetcher).
Variable yield : yieldFn (W := W).
Hypothesis Hig : IgnoreRobots (opts f) = true.
Hypothesis Hinc : Include (opts f) = [].
Hypothesis Hexc : Exclude (opts f) = [].
Hypothesis Hmax : MaxURLs (opts f) <= 0.
Hypothesis Hyield : forall it w, fst (yield it w) = None.
Hypothesis Hctx : forall w, fst (ctx_Err E w) = None.

Lemma onURL_plain (current : sitemapTask) (entry : xmlURLEntry.t)
    (st : walkState) (w : W) :
  onURL E f yield current entry st w
  = match resolveLocation (loc current) (xmlURLEntry.Loc entry) with
    | inl _ => (None, st, w, [])
    | inr u =>
        (None, setURLCount st (wrap64 (urlCount st + 1)),
         snd (yield (itemOf current entry u) w),
         [EvYield (itemOf current entry u)])
    end.
Proof.
  unfold onURL. destruct (resolveLocation _ _) as [e|u]; [reflexivity|].
  unfold robotsGate. rewrite Hig, ret_bind. cbn [negb].
  unfold shouldInclude. rewrite Hinc, Hexc. cbn [length matchesAny existsb].
  change (0 <? Z.of_nat 0) with false. cbn [andb negb].
  assert ((MaxURLs (opts f) >? 0) = false) as ->
      by (rewrite Z.gtb_ltb; apply Z.ltb_ge; exact Hmax).
  cbn [andb]. rewrite emit_bind, perform_bind.
  rewrite Hyield. reflexivity.
Qed.

Lemma onSitemap_plain (current : sitemapTask) (entry : xmlSitemapEntry.t)
    (st : walkState) (w : W) :
  onSitemap current entry st w
  = match resolveLocation (loc current) (xmlSitemapEntry.Loc entry) with
    | inl _ => (None, st, w, [])
    | inr u =>
        (None,
         setQueue st
           (queue st ++ [ {| loc := u; depth := wrap64 (depth current + 1);
                             allowMissing := false |} ]), w, [])
    end.
Proof. unfold onSitemap. now destruct (resolveLocation _ _). Qed.

Lemma parseEvents_plain (current : sitemapTask) (evs : list xmlEvent)
    (final : option error) (st : walkState) (w : W) :
  let r := parseEvents E evs final (Some (onURL E f yield current))
                       (Some (onSitemap current)) st w in
  fst (result r) = final
  /\ events r = map EvYield (docItems current evs)
  /\ queue (snd (result r)) = queue st ++ docTasks current evs.
Proof.
  cbn zeta. revert st w. induction evs as [|ev evs IH]; intros st w.
  - rewrite (parseEvents_nil E _ _ _ _ w (Hctx w)). cbn.
    now rewrite app_nil_r.
  - destruct ev as [entry|entry|].
    + rewrite (parseEvents_url E _ _ _ _ _ _ w (Hctx w)). cbn zeta.
      rewrite onURL_plain. unfold docItems, docTasks. cbn [omap list_omap].
      fold (docItems current evs). fold (docTasks current evs).
      destruct (resolveLocation _ _) as [e|u];
        cbn [result world events fst snd].
      * destruct (IH st (snd (ctx_Err E w))) as (H1 & H2 & H3).
        now rewrite H1, H2, H3.
      * destruct (IH (setURLCount st (wrap64 (urlCount st + 1)))
                    (snd (yield (itemOf current entry u)
                                (snd (ctx_Err E w)))))
          as (H1 & H2 & H3).
        now rewrite H1, H2, H3.
    + rewrite (parseEvents_sitemap E _ _ _ _ _ _ w (Hctx w)). cbn zeta.
      rewrite onSitemap_plain. unfold docItems, docTasks.
      cbn [omap list_omap].
      fold (docItems current evs). fold (docTasks current evs).
      destruct (resolveLocation _ _) as [e|u];
        cbn [ret result world events fst snd app].
      * apply IH.
      * match goal with
        | |- context [parseEvents E evs final _ _ ?st1 ?w1] =>
            destruct (IH st1 w1) as (H1 & H2 & H3)
        end.
        rewrite H1, H2, H3. cbn [setQueue queue].
        now rewrite <- app_assoc.
    + rewrite (parseEvents_other E _ _ _ _ _ w (Hctx w)).
      unfold docItems, docTasks. cbn [omap list_omap].
      fold (docItems current evs). fold (docTasks current evs). apply IH.
Qed.

End Complete.

(** X25. With robots ignored, no filters, no URL limit, a callback that
    accepts and a context that is not cancelled, no entry of a document
    is lost: parseSitemap with the callbacks of Walk yields exactly one
    item for each url element whose location resolves, in document
    order, and nothing else happens; it appends to the queue exactly one
    task for each sitemap element whose location resolves, in document
    order; and it returns what ended the document. *)
Theorem every_entry_is_delivered `{L : GoLib} {W : Type} (E : Env W)
    (f : SitemapFetcher) (yield : yieldFn (W := W)) (current : sitemapTask)
    (reader : Stream) (st : walkState) (w : W) :
  IgnoreRobots (opts f) = true ->
  Include (opts f) = [] -> Exclude (opts f) = [] ->
  MaxURLs (opts f) <= 0 ->
  (forall it w', fst (yield it w') = None) ->
  (forall w', fst (ctx_Err E w') = None) ->
  let doc := xml_Decode reader in
  let r := parseSitemap E reader (Some (onURL E f yield current))
                        (Some (onSitemap current)) st w in
  fst (result r) = xmlErr doc
  /\ events r = map EvYield (docItems current (xmlEvents doc))
  /\ queue (snd (result r)) = queue st ++ docTasks current (xmlEvents doc).
Proof.
  intros Hig Hinc Hexc Hmax Hyield Hctx. cbn zeta. unfold parseSitemap.
  now apply parseEvents_plain.
Qed.

(** The nested sitemap of the tests as the document of a task. *)
Lemma every_entry_is_delivered_witness :
  let current := {| loc := Testbed.urlAt "example.com" "/a/sitemap.xml";
                    depth := 1; allowMissing := false |} in
  let r := parseSitemap (Testbed.serverEnv (Testbed.routes []))
             (Testbed.bodyOf Testbed.nestedDoc)
             (Some (onURL (Testbed.serverEnv (Testbed.routes []))
                          (Testbed.fetcher Testbed.ignoreRobots)
                          Testbed.collect current))
             (Some (onSitemap current)) (initialState [] ∅) 0 in
  events r
  = map EvYield (docItems current
                   (xmlEvents (xml_Decode (Testbed.bodyOf Testbed.nestedDoc)))).
Proof.
  exact (proj1 (proj2 (every_entry_is_delivered
                         (Testbed.serverEnv (Testbed.routes []))
                         (Testbed.fetcher Testbed.ignoreRobots)
                         Testbed.collect
                         {| loc := Testbed.urlAt "example.com" "/a/sitemap.xml";
                            depth := 1; allowMissing := false |}
                         (Testbed.bodyOf Testbed.nestedDoc)
                         (initialState [] ∅) 0
                         eq_refl eq_refl eq_refl (Z.le_refl 0)
                         (fun _ _ => eq_refl) (fun _ => eq_refl)))).
Defined.

(** ** A sitemap URL under the default options *)

Lemma yielded_yields `{L : GoLib} (items : list Item.t) :
  yielded (map EvYield items) = items.
Proof.
  induction items as [|it items IH]; [reflexivity|].
  cbn. f_equal. exact IH.
Qed.

Lemma fetched_yields `{L : GoLib} (items : list Item.t) :
  fetched (map EvYield items) = [].
Proof. induction items as [|it items IH]; [reflexivity|exact IH]. Qed.

Lemma walkLoop_done `{L : GoLib} {W : Type} (E : Env W) (f : SitemapFetcher)
    (yield : yieldFn (W := W)) (fuel : nat) (st : walkState) (w : W) :
  queue st = [] ->
  walkLoop E f yield fuel st w = (Returned None, w, []).
Proof.
  intros Hq. destruct fuel; cbn [walkLoop]; now rewrite Hq.
Qed.

(** X26. Walk on a sitemap URL, with robots ignored, no filters, no URL
    limit, a callback that accepts and a context that is not cancelled:
    when fetchSitemap gives a reader for the input, the traversal begins
    by yielding one item for each url element of that document whose
    location resolves, in document order.  If the document ends without
    error and lists no sitemap that resolves, these are all the items,
    and Walk returns without error. *)
Theorem Walk_yields_the_document `{L : GoLib} {W : Type} (E : Env W)
    (f : SitemapFetcher) (fuel : nat) (website : option URL)
    (input base : URL) (reader : Stream) (yield : yieldFn (W := W)) (w : W) :
  IgnoreRobots (opts f) = true ->
  Include (opts f) = [] -> Exclude (opts f) = [] ->
  MaxURLs (opts f) <= 0 ->
  (forall it w', fst (yield it w') = None) ->
  (forall w', fst (ctx_Err E w') = None) ->
  normalizeInputURL website = inr (input, base) ->
  isLikelySitemapURL (Some input) = true ->
  result (fetchSitemap E f input false (snd (ctx_Err E w)))
    = inr (Some reader) ->
  let current := {| loc := input; depth := 0; allowMissing := false |} in
  let doc := xml_Decode reader in
  let run := Walk E f (S fuel) website (Some yield) w in
  docItems current (xmlEvents doc) `prefix_of` yielded (events run)
  /\ (xmlErr doc = None -> docTasks current (xmlEvents doc) = [] ->
      yielded (events run) = docItems current (xmlEvents doc)
      /\ fetched (events run) = [input]
      /\ result run = Returned None).
Proof.
  intros Hig Hinc Hexc Hmax Hyield Hctx Hnorm Hlikely Hfetch. cbn zeta.
  unfold Walk. rewrite Hnorm, bind_run.
  rewrite (seed_explicit E f input base w Hlikely).
  cbn [result world events fst snd length app].
  change (Z.of_nat 1 =? 0) with false. cbn [walkLoop initialState queue].
  rewrite perform_bind, Hctx, bind_run.
  set (w1 := snd (ctx_Err E w)) in *.
  set (current := {| loc := input; depth := 0; allowMissing := false |}).
  assert (Htask :
    exists st2 w2,
      walkTask E f yield current
               (setQueue (initialState [current] ∅) []) w1
      = (match xmlErr (xml_Decode reader) with
         | Some err => Return (Some (classifyParseError current err))
         | None => Continue st2
         end, w2,
         events (fetchSitemap E f input false w1)
         ++ map EvYield (docItems current (xmlEvents (xml_Decode reader))))
      /\ queue st2 = docTasks current (xmlEvents (xml_Decode reader))).
  { unfold walkTask. cbn [depth loc allowMissing current].
    rewrite depth0_within_limit.
    destruct (decide _) as [Hin|_]; [now apply not_elem_of_empty in Hin|].
    unfold robotsGate. rewrite Hig, ret_bind. cbn [negb].
    cbn [setSeen setQueue initialState sitemapCount].
    rewrite count0_within_limit, bind_run, Hfetch.
    pose proof (parseEvents_plain E f yield Hig Hinc Hexc Hmax Hyield Hctx
                  current (xmlEvents (xml_Decode reader))
                  (xmlErr (xml_Decode reader))) as Hparse.
    cbn zeta in Hparse. unfold parseSitemap. rewrite bind_run.
    match goal with
    | |- context [parseEvents E _ _ _ _ ?st1 ?w2] =>
        destruct (Hparse st1 w2) as (H1 & H2 & H3);
        set (p := parseEvents E _ _ _ _ st1 w2) in *
    end.
    exists (snd (result p)), (world p).
    destruct (result p) as [perr st2]. cbn [fst snd] in *. subst perr.
    rewrite H2. split; [|exact H3].
    destruct (xmlErr (xml_Decode reader));
      cbn [result world events fst snd ret]; now rewrite app_nil_r. }
  destruct Htask as (st2 & w2 & Htask & Hqueue). rewrite Htask.
  cbn [result world events fst snd].
  destruct (fetchSitemap_lists E f input false w1) as (Hf & Hy & _).
  split.
  - rewrite !yielded_app, Hy, yielded_yields. cbn [app].
    now apply prefix_app_r.
  - intros Herr Hnone. rewrite Herr, Hnone in *.
    rewrite (walkLoop_done E f yield fuel st2 w2 Hqueue).
    cbn [result world events fst snd]. rewrite app_nil_r.
    rewrite yielded_app, fetched_app, Hy, Hf.
    rewrite yielded_yields, fetched_yields. now repeat split.
Qed.

(** The document of TestSitemapFetcher_MaxURLs without the limit, robots
    ignored: both entries, then no error. *)
Lemma Walk_yields_the_document_witness :
  let run := Walk (Testbed.serverEnv Testbed.twoSite)
                  (Testbed.fetcher Testbed.ignoreRobots) 1
                  (Testbed.parsed Testbed.sitemapURL) (Some Testbed.collect)
                  0 in
  result run = Returned None
  /\ map (fun it => Item.Loc it) (yielded (events run))
     = [Testbed.urlAt "example.com" "/one";
        Testbed.urlAt "example.com" "/two"].
Proof.
  cbn zeta.
  assert (Hfetch : result (fetchSitemap (Testbed.serverEnv Testbed.twoSite)
                             (Testbed.fetcher Testbed.ignoreRobots)
                             (Testbed.urlAt "example.com" "/sitemap.xml")
                             false 0)
                   = inr (Some (Testbed.bodyOf Testbed.twoDoc)))
    by (vm_compute; reflexivity).
  destruct (proj2 (Walk_yields_the_document
                     (Testbed.serverEnv Testbed.twoSite)
                     (Testbed.fetcher Testbed.ignoreRobots) 0
                     (Testbed.parsed Testbed.sitemapURL)
                     (Testbed.urlAt "example.com" "/sitemap.xml") Testbed.site
                     (Testbed.bodyOf Testbed.twoDoc) Testbed.collect 0
                     eq_refl eq_refl eq_refl (Z.le_refl 0)
                     (fun _ _ => eq_refl) (fun _ => eq_refl)
                     eq_refl eq_refl Hfetch))
    as (Hy & _ & Hres); [vm_compute; reflexivity|vm_compute; reflexivity|].
  split; [exact Hres|]. rewrite Hy. vm_compute. reflexivity.
Defined.

(** ** Items are yielded while their sitemap is read *)

Section Streaming.
Context `{L : GoLib} {W : Type} (E : Env W) (f : SitemapFetcher).
Variable yield : yieldFn (W := W).

Lemma streamed_app (cur : option URL) (a b : list event) :
  streamed cur (a ++ b) <-> streamed cur a /\ streamed (lastFetched cur a) b.
Proof.
  revert cur. induction a as [|e a IH]; intros cur; cbn [app];
    [cbn; tauto|].
  destruct e as [r|d|u|it]; cbn [streamed lastFetched]; rewrite IH; tauto.
Qed.

Lemma lastFetched_app (cur : option URL) (a b : list event) :
  lastFetched cur (a ++ b) = lastFetched (lastFetched cur a) b.
Proof.
  revert cur. induction a as [|e a IH]; intros cur; [reflexivity|].
  destruct e; cbn [app lastFetched]; apply IH.
Qed.

Lemma net_streamed (cur : option URL) (evs : list event) :
  Forall netEvent evs -> streamed cur evs /\ lastFetched cur evs = cur.
Proof.
  induction 1 as [|e evs He _ IH]; [now split|].
  destruct e; cbn in *; try contradiction; exact IH.
Qed.

Lemma callbacks_streamed (u : URL) (evs : list event) :
  Forall callbackEvent evs -> Forall (yieldsFrom u) evs ->
  streamed (Some u) evs /\ lastFetched (Some u) evs = Some u.
Proof.
  induction 1 as [|e evs He _ IH]; [now split|].
  intros Hy. apply Forall_cons in Hy as [Hy Hrest].
  destruct e as [r|d|v|it]; cbn in *; try contradiction.
  - now apply IH.
  - destruct (IH Hrest) as [H1 H2]. destruct Hy as [Hs _].
    rewrite Hs. now repeat split.
Qed.

Lemma walkTask_streamed (cur : option URL) (current : sitemapTask)
    (st : walkState) (w : W) :
  streamed cur (events (walkTask E f yield current st w)).
Proof.
  rewrite walkTask_split, events_bind. apply streamed_app.
  set (w1 := world (beforeParse E f current st w)).
  pose proof (beforeParse_fetched E f current st w) as Hf.
  assert (Hbefore : streamed cur (events (beforeParse E f current st w))
                    /\ (fetched (events (beforeParse E f current st w))
                        = [loc current] ->
                        lastFetched cur (events (beforeParse E f current st w))
                        = Some (loc current))).
  { unfold beforeParse.
    destruct (_ && _); [split; [exact I|discriminate]|].
    destruct (decide _); [split; [exact I|discriminate]|].
    rewrite events_bind.
    pose proof (robotsGate_events E f (loc current)
                  (setSeen st ({[canonicalURLKey (Some (loc current))]}
                               ∪ seen st)) w) as Hg.
    apply request_is_net in Hg.
    destruct (net_streamed cur _ Hg) as [Hs Hl].
    rewrite fetched_app, (net_no_fetch _ Hg), lastFetched_app, Hl.
    cbn [app]. rewrite streamed_app, Hl.
    destruct (result (robotsGate E f _ _ w)) as [[allowed err] st1].
    destruct err as [err|]; [split; [now split|discriminate]|].
    destruct (negb allowed); [split; [now split|discriminate]|].
    destruct (_ && _); [split; [now split|discriminate]|].
    rewrite events_bind, lastFetched_app, streamed_app.
    match goal with
    | |- context [fetchSitemap E f ?u ?am ?w2] =>
        pose proof (fetchSitemapFrom_events E f
                      (Z.to_nat (maxRetryAttempts + 1)) 0 u am w2) as Hnet;
        assert (Hfe : events (fetchSitemap E f u am w2)
                      = EvFetch u
                        :: events (fetchSitemapFrom E f
                                     (Z.to_nat (maxRetryAttempts + 1)) 0
                                     u am w2))
          by (unfold fetchSitemap; now rewrite emit_bind)
    end.
    rewrite Hfe. cbn [streamed lastFetched].
    destruct (net_streamed (Some (loc current)) _ Hnet) as [Hs2 Hl2].
    rewrite Hl2.
    destruct (result (fetchSitemap E f _ _ _)) as [err|[reader|]];
      cbn [ret events snd streamed lastFetched]; now repeat split. }
  destruct Hbefore as [Hs Hlast]. split; [exact Hs|].
  destruct (result (beforeParse E f current st w)) as [ctl|[reader st1]];
    [exact I|].
  rewrite (Hlast Hf). unfold parseTask. rewrite events_bind, streamed_app.
  pose proof (parseSitemap_kept E f yield current reader st1 w1) as [_ Hcb].
  pose proof (parseSitemap_yieldsFrom E f yield current reader st1 w1) as Hy.
  destruct (callbacks_streamed (loc current) _ Hcb Hy) as [H1 H2].
  split; [exact H1|].
  now destruct (result (parseSitemap E reader _ _ st1 w1)) as [[perr|] st2].
Qed.

Lemma walkLoop_streamed (cur : option URL) (fuel : nat) (st : walkState)
    (w : W) :
  streamed cur (events (walkLoop E f yield fuel st w)).
Proof.
  revert cur st w. induction fuel as [|fuel IH]; intros cur st w;
    (destruct st as [q sn rc sc uc]; destruct q as [|current rest];
     cbn [walkLoop queue]);
    try exact I.
  rewrite perform_bind.
  destruct (fst (ctx_Err E w)) as [cerr|]; [exact I|].
  rewrite events_bind. apply streamed_app.
  split; [apply walkTask_streamed|].
  destruct (result (walkTask E f yield current _ _)) as [st'|err];
    [apply IH|exact I].
Qed.

End Streaming.

(** X27. Items are yielded while their sitemap is being read.  Going
    through the trace of a traversal, whenever yield is invoked, the
    sitemap the item names is the location fetchSitemap was entered for
    most recently: no item is kept back until after another sitemap has
    been fetched, and none is yielded before the first fetch. *)
Theorem items_are_streamed `{L : GoLib} {W : Type} (E : Env W)
    (f : SitemapFetcher) (fuel : nat) (website : option URL)
    (yield : option (yieldFn (W := W))) (w : W) :
  streamed None (events (Walk E f fuel website yield w))
  /\ (forall a it b,
        events (Walk E f fuel website yield w) = a ++ EvYield it :: b ->
        lastFetched None a = Some (Item.Sitemap it)).
Proof.
  assert (Hs : streamed None (events (Walk E f fuel website yield w))).
  { unfold Walk. destruct yield as [cb|]; [|exact I].
    destruct (normalizeInputURL website) as [err|[input base]]; [exact I|].
    rewrite events_bind. apply streamed_app.
    destruct (net_streamed None _
                (request_is_net _ (seed_events E f input base w)))
      as [H1 H2].
    split; [exact H1|]. rewrite H2.
    destruct (result (seed E f input base w)) as [initial cache].
    destruct (_ =? 0); [exact I|]. apply walkLoop_streamed. }
  split; [exact Hs|].
  intros a it b Hev. rewrite Hev in Hs.
  apply streamed_app in Hs as [_ Hs]. cbn [streamed] in Hs. apply Hs.
Qed.

(** ** What decides about an entry *)

Section EntryFate.
Context `{L : GoLib} {W : Type} (E : Env W) (f : SitemapFetcher).
Variable yield : yieldFn (W := W).

Lemma admission_loc (current : sitemapTask) (e1 e2 : xmlURLEntry.t)
    (st : walkState) (w : W) :
  xmlURLEntry.Loc e1 = xmlURLEntry.Loc e2 ->
  admission E f current e1 st w = admission E f current e2 st w.
Proof. intros Hloc. unfold admission. now rewrite Hloc. Qed.

Lemma deliver_locations (current : sitemapTask) (entry : xmlURLEntry.t)
    (a : admitted) (st : walkState) (w : W) :
  map (fun it => Item.Loc it)
      (yielded (events (deliver f yield current entry a st w)))
  = match a with
    | Admit u =>
        if (MaxURLs (opts f) >? 0) && (urlCount st >=? MaxURLs (opts f))
        then [] else [u]
    | _ => []
    end.
Proof.
  unfold deliver. destruct a as [|err|u]; try reflexivity.
  destruct (_ && _); [reflexivity|].
  rewrite emit_bind, perform_bind. cbn [events snd].
  now destruct (fst (yield _ w)).
Qed.

Lemma onURL_locations (current : sitemapTask) (entry : xmlURLEntry.t)
    (st : walkState) (w : W) :
  let adm := admission E f current entry st w in
  map (fun it => Item.Loc it)
      (yielded (events (onURL E f yield current entry st w)))
  = match fst (result adm) with
    | Admit u =>
        if (MaxURLs (opts f) >? 0)
           && (urlCount (snd (result adm)) >=? MaxURLs (opts f))
        then [] else [u]
    | _ => []
    end.
Proof.
  cbn zeta. rewrite onURL_split, events_bind, yielded_app.
  rewrite (net_no_yield _ (request_is_net _
             (admission_events E f current entry st w))).
  cbn [app]. apply deliver_locations.
Qed.

Lemma onURL_fields (current : sitemapTask) (entry : xmlURLEntry.t)
    (st : walkState) (w : W) :
  Forall (fun it =>
            Item.LastMod it = parseTimeValue (xmlURLEntry.LastMod entry)
            /\ Item.ChangeFreq it = TrimSpace (xmlURLEntry.ChangeFreq entry)
            /\ Item.Priority it = parsePriority (xmlURLEntry.Priority entry))
         (yielded (events (onURL E f yield current entry st w))).
Proof.
  rewrite onURL_split, events_bind, yielded_app.
  rewrite (net_no_yield _ (request_is_net _
             (admission_events E f current entry st w))).
  cbn [app].
  destruct (deliver_events f yield current entry
              (fst (result (admission E f current entry st w)))
              (snd (result (admission E f current entry st w)))
              (world (admission E f current entry st w)))
    as [->|(u & _ & ->)]; [constructor|].
  repeat constructor.
Qed.

End EntryFate.

(** X28. Whether an entry is yielded, and with which location, depends
    on nothing in the entry but its loc text: two entries with the same
    loc are treated alike by the callback of Walk, whatever their
    lastmod, changefreq and priority say and whatever yield answers.
    These three fields only fill the item: the time parsed by
    parseTimeValue, the trimmed text, and the number parsed by
    parsePriority, each absent when it does not parse. *)
Theorem entry_fate_depends_on_loc_only `{L : GoLib} {W : Type} (E : Env W)
    (f : SitemapFetcher) (yield yield' : yieldFn (W := W))
    (current : sitemapTask) (e1 e2 : xmlURLEntry.t) (st : walkState) (w : W) :
  xmlURLEntry.Loc e1 = xmlURLEntry.Loc e2 ->
  map (fun it => Item.Loc it)
      (yielded (events (onURL E f yield current e1 st w)))
  = map (fun it => Item.Loc it)
        (yielded (events (onURL E f yield' current e2 st w)))
  /\ Forall (fun it =>
               Item.LastMod it = parseTimeValue (xmlURLEntry.LastMod e1)
               /\ Item.ChangeFreq it = TrimSpace (xmlURLEntry.ChangeFreq e1)
               /\ Item.Priority it = parsePriority (xmlURLEntry.Priority e1))
            (yielded (events (onURL E f yield current e1 st w))).
Proof.
  intros Hloc. split; [|apply onURL_fields].
  rewrite !onURL_locations. cbn zeta.
  now rewrite (admission_loc E f current e1 e2 st w Hloc).
Qed.

(** Two entries for /keep, one of them with fields that do not parse. *)
Lemma entry_fate_depends_on_loc_only_witness :
  let current := {| loc := Testbed.urlAt "example.com" "/sitemap.xml";
                    depth := 0; allowMissing := false |} in
  let e1 := {| xmlURLEntry.Loc := "/keep"; xmlURLEntry.LastMod := "";
               xmlURLEntry.ChangeFreq := ""; xmlURLEntry.Priority := "" |} in
  let e2 := {| xmlURLEntry.Loc := "/keep"; xmlURLEntry.LastMod := "soon";
               xmlURLEntry.ChangeFreq := " daily ";
               xmlURLEntry.Priority := "high" |} in
  map (fun it => Item.Loc it)
      (yielded (events (onURL (Testbed.serverEnv (Testbed.routes []))
                              (Testbed.fetcher Testbed.ignoreRobots)
                              Testbed.collect current e1
                              (initialState [] ∅) 0)))
  = map (fun it => Item.Loc it)
        (yielded (events (onURL (Testbed.serverEnv (Testbed.routes []))
                                (Testbed.fetcher Testbed.ignoreRobots)
                                Testbed.refuse current e2
                                (initialState [] ∅) 0))).
Proof.
  exact (proj1 (entry_fate_depends_on_loc_only
                  (Testbed.serverEnv (Testbed.routes []))
                  (Testbed.fetcher Testbed.ignoreRobots)
                  Testbed.collect Testbed.refuse
                  {| loc := Testbed.urlAt "example.com" "/sitemap.xml";
                     depth := 0; allowMissing := false |}
                  {| xmlURLEntry.Loc := "/keep"; xmlURLEntry.LastMod := "";
                     xmlURLEntry.ChangeFreq := "";
                     xmlURLEntry.Priority := "" |}
                  {| xmlURLEntry.Loc := "/keep"; xmlURLEntry.LastMod := "soon";
                     xmlURLEntry.ChangeFreq := " daily ";
                     xmlURLEntry.Priority := "high" |}
                  (initialState [] ∅) 0 eq_refl)).
Defined.
